(** * ppymilterserver: framing and connection handling of the milter transport

    A shallow embedding of [lib/ppymilter/ppymilterserver.py]: the
    asynchat-driven [AsyncPpyMilterServer] and the blocking
    [ThreadedPpyMilterServer], together with the parts of the Python
    standard library ([struct], [asynchat], [asyncore], [socketserver])
    whose control flow the two servers rely on.

    Python 3 semantics are followed ([bytes] indexing yields an integer).
    Exceptions that only derive from [BaseException] (KeyboardInterrupt,
    SystemExit) are outside the model. *)

From Stdlib Require Import ZArith List Lia Strings.Byte String.
From stdpp Require Import gmap strings list.

Open Scope Z_scope.

(** ** Bytes and [struct] *)

Abbreviation bytes := (list byte).

Definition MILTER_LEN_BYTES : Z := 4.

(** [len(b)] as a Python integer. *)
Definition len {A : Type} (l : list A) : Z := Z.of_nat (length l).

Definition byte_to_Z (b : byte) : Z := Z.of_N (Byte.to_N b).

Definition byte_of_Z (z : Z) : byte :=
  match Byte.of_N (Z.to_N (z mod 256)) with
  | Some b => b
  | None => x00
  end.

(** Exceptions the transport can meet. [PpyMilterCloseConnection] is the
    close signal of [ppymilterbase]; all of them derive from [Exception]. *)
Inductive exn : Type :=
| PpyMilterCloseConnection (reason : string)
| struct_error
| IndexError
| TypeError
| socket_error (errno : Z)
| OtherException (what : string).

(** Result of a Python computation: a value, a raised exception, or an
    exhausted step budget for the loops that Python does not bound. *)
Inductive outcome (A : Type) : Type :=
| Ok (a : A)
| Raise (e : exn)
| OutOfFuel.
Arguments Ok {A} a.
Arguments Raise {A} e.
Arguments OutOfFuel {A}.

(** [struct.pack('!I', n)]: four bytes, most significant first;
    [struct.error] outside the unsigned 32-bit range. *)
Definition struct_pack_I (n : Z) : outcome bytes :=
  if (0 <=? n) && (n <=? 4294967295)
  then Ok [byte_of_Z (Z.shiftr n 24); byte_of_Z (Z.shiftr n 16);
           byte_of_Z (Z.shiftr n 8); byte_of_Z n]
  else Raise struct_error.

(** [struct.unpack('!I', b)[0]]: [struct.error] unless [b] has exactly
    four bytes. *)
Definition struct_unpack_I (b : bytes) : outcome Z :=
  match b with
  | [b3; b2; b1; b0] =>
      Ok (Z.lor (Z.shiftl (byte_to_Z b3) 24)
            (Z.lor (Z.shiftl (byte_to_Z b2) 16)
               (Z.lor (Z.shiftl (byte_to_Z b1) 8) (byte_to_Z b0))))
  | _ => Raise struct_error
  end.

(** A frame on the wire: the packed length followed by the payload. This is
    the byte string the two pushes (or sends) of [__send_response] put on
    the connection. *)
Definition encode_frame (p : bytes) : bytes :=
  match struct_pack_I (len p) with
  | Ok h => h ++ p
  | _ => []
  end.

(** ** Python values, log records and observable events *)

(** What [Dispatch] may hand back. A [str] is represented by its UTF-8
    encoding, so that [response.encode()] is the identity on the
    representation and emptiness is preserved. *)
#[local] Set Warnings "-register-all".
Inductive pyval : Type :=
| PyNone
| PyBytes (b : bytes)
| PyStr (utf8 : bytes)
| PyList (items : list pyval).

Inductive reply : Type :=
| Returns (v : pyval)
| Raises (e : exn).

(** [repr(self)] of a handler: the identity under which it is logged. *)
Definition ident := nat.

Inductive loglevel : Type := DEBUG | INFO | ERROR.

Inductive logmsg : Type :=
| MsgIn (data : bytes)                 (* '  <<< %s' *)
| MsgOut (first : byte)                (* '  >>> %s' *)
| MsgClosing (reason : string)         (* 'Closing connection ("%s")' *)
| MsgUncaptured (who : ident) (e : exn)
    (* 'uncaptured python exception, closing channel %s (%s:%s %s)' *)
| MsgUnhandledClose                    (* 'unhandled close event' *)
| MsgAcceptError (e : exn).
    (* 'warning: server accept() threw an exception ("%s")' *)

Inductive event : Type :=
| EvLog (lvl : loglevel) (m : logmsg)
| EvRecv (got : bytes)          (* a recv() call on the socket returned *)
| EvDispatch (data : bytes) (r : reply)   (* Dispatch(data) and its result *)
| EvWrite (data : bytes)        (* push(data) or request.send(data) *)
| EvClose.                      (* the connection's socket was closed *)

(** ** A state, trace and exception monad for method bodies *)

#[projections(primitive)]
Record res (S A : Type) : Type := mkRes {
  out : outcome A;
  st : S;
  tr : list event
}.
Arguments mkRes {S A} out st tr.
Arguments out {S A} r.
Arguments st {S A} r.
Arguments tr {S A} r.

Definition M (S A : Type) : Type := S -> res S A.

Definition ret {S A : Type} (a : A) : M S A := fun s => mkRes (Ok a) s [].

Definition raise {S A : Type} (e : exn) : M S A := fun s => mkRes (Raise e) s [].

Definition out_of_fuel {S A : Type} : M S A := fun s => mkRes OutOfFuel s [].

Definition bind {S A B : Type} (m : M S A) (f : A -> M S B) : M S B :=
  fun s =>
    let r := m s in
    match out r with
    | Ok a => let r2 := f a (st r) in mkRes (out r2) (st r2) (tr r ++ tr r2)
    | Raise e => mkRes (Raise e) (st r) (tr r)
    | OutOfFuel => mkRes OutOfFuel (st r) (tr r)
    end.

(** [try: m except <class>: h]: [h e] is [None] when [e] is not of the
    class the clause names (the exception keeps propagating). *)
Definition try_except {S A : Type} (m : M S A) (h : exn -> option (M S A)) : M S A :=
  fun s =>
    let r := m s in
    match out r with
    | Raise e =>
        match h e with
        | Some k => let r2 := k (st r) in mkRes (out r2) (st r2) (tr r ++ tr r2)
        | None => r
        end
    | _ => r
    end.

Definition gets {S A : Type} (f : S -> A) : M S A := fun s => mkRes (Ok (f s)) s [].

Definition modify {S : Type} (f : S -> S) : M S unit := fun s => mkRes (Ok tt) (f s) [].

Definition emit {S : Type} (e : event) : M S unit := fun s => mkRes (Ok tt) s [e].

Definition lift {S A : Type} (o : outcome A) : M S A := fun s => mkRes o s [].

Declare Scope py_scope.
Delimit Scope py_scope with py.
Notation "x <- m ;; k" := (bind m (fun x => k))
  (at level 100, m at next level, right associativity) : py_scope.
Notation "m ;; k" := (bind m (fun _ => k))
  (at level 100, right associativity) : py_scope.
Open Scope py_scope.

(** [for x in l: body(x)] *)
Fixpoint for_each {S A : Type} (l : list A) (body : A -> M S unit) : M S unit :=
  match l with
  | [] => ret tt
  | x :: l' => body x ;; for_each l' body
  end.

Definition logger_debug {S : Type} (m : logmsg) : M S unit := emit (EvLog DEBUG m).
Definition logger_info {S : Type} (m : logmsg) : M S unit := emit (EvLog INFO m).
Definition logger_error {S : Type} (m : logmsg) : M S unit := emit (EvLog ERROR m).

(** ** The dispatcher interface of [ppymilterbase] *)

(** [ppymilterbase.PpyMilterDispatcher]: built once per connection from the
    milter class and the shared context, then asked to [Dispatch] each
    payload. Its behaviour is the collaborator's; the transport only sees
    the reply. *)
Class ppymilterbase : Type := {
  milter_class : Type;
  context : Type;
  dispatcher : Type;
  PpyMilterDispatcher : milter_class -> option context -> dispatcher;
  Dispatch : dispatcher -> bytes -> reply * dispatcher
}.

(** A small milter to run the servers on concrete inputs. It looks at the
    first byte of the payload: 'Q' raises the close signal, 'X' fails, 'N'
    answers nothing, 'E' answers the empty byte string, 'M' answers three
    responses of which the second is empty, anything else is echoed. It
    counts the payloads it has seen. *)
Definition sample_Dispatch (seen : nat) (data : bytes) : reply * nat :=
  (match data with
   | "Q"%byte :: _ => Raises (PpyMilterCloseConnection "quit")
   | "X"%byte :: _ => Raises (OtherException "boom")
   | "N"%byte :: _ => Returns PyNone
   | "E"%byte :: _ => Returns (PyBytes [])
   | "M"%byte :: _ =>
       Returns (PyList [PyBytes ["A"%byte]; PyBytes []; PyBytes ["B"%byte]])
   | [] => Returns PyNone
   | _ => Returns (PyBytes data)
   end, S seen).

Definition sample_milter : ppymilterbase :=
  {| milter_class := unit;
     context := unit;
     dispatcher := nat;
     PpyMilterDispatcher := fun _ _ => O;
     Dispatch := sample_Dispatch |}.

(** Python truth value of a reply: [None], empty [bytes], empty [str] and
    the empty list are false. *)
Definition truthy (v : pyval) : bool :=
  match v with
  | PyNone => false
  | PyBytes [] => false
  | PyStr [] => false
  | PyList [] => false
  | _ => true
  end.

(** The events a trace holds, by kind. *)
Definition written (t : list event) : bytes :=
  concat (omap (fun e => match e with EvWrite d => Some d | _ => None end) t).

Definition dispatched (t : list event) : list bytes :=
  omap (fun e => match e with EvDispatch d _ => Some d | _ => None end) t.

Definition logged (t : list event) : list (loglevel * logmsg) :=
  omap (fun e => match e with EvLog l m => Some (l, m) | _ => None end) t.

(** ** Notions used to state the properties *)

Definition is_close (e : exn) : bool :=
  match e with PpyMilterCloseConnection _ => true | _ => false end.

Definition close_dispatch (ev : event) : bool :=
  match ev with
  | EvDispatch _ (Raises e) => is_close e
  | _ => false
  end.

(** A trace in which [Dispatch] never raised the close signal. *)
Definition quiet (t : list event) : Prop := forallb (fun ev => negb (close_dispatch ev)) t = true.

(** What follows a close signal in a trace: the informational log record
    and the closing of the socket, and nothing else. *)
Definition closes_ok (t : list event) : Prop :=
  forall t1 data reason t2,
    t = t1 ++ EvDispatch data (Raises (PpyMilterCloseConnection reason)) :: t2 ->
    t2 = [EvLog INFO (MsgClosing reason); EvClose].

(** A computation that neither records nor raises a close signal. *)
Definition benign {S A : Type} (m : M S A) : Prop :=
  forall s, quiet (tr (m s)) /\ (forall e, out (m s) = Raise e -> is_close e = false).

(** A payload that fits a frame and carries at least one byte. *)
Definition frame_payload (p : bytes) : Prop := p <> [] /\ len p <= 4294967295.

Definition after {S A} (t : list event) (r : res S A) : res S A :=
  mkRes (out r) (st r) (t ++ tr r).


(** ** [AsyncPpyMilterServer.ConnectionHandler] *)

Module AsyncConnectionHandler.
Section WithDispatcher.
Context {base : ppymilterbase}.

(** The two methods [found_terminator] is rebound to. *)
Inductive callback : Type := read_packetlen_cb | read_milter_data_cb.

(** The handler's attributes, with those of [asynchat.async_chat] and
    [asyncore.dispatcher] that its methods read or write. *)
Record ConnectionHandler : Type := mkHandler {
  addr : ident;
  milter_dispatcher : dispatcher;
  input : list bytes;             (* self.__input *)
  terminator : Z;
  found_terminator : callback;
  ac_in_buffer : bytes;
  connected : bool
}.

Definition set_input (v : list bytes) (c : ConnectionHandler) : ConnectionHandler :=
  mkHandler (addr c) (milter_dispatcher c) v (terminator c)
    (found_terminator c) (ac_in_buffer c) (connected c).

Definition set_milter_dispatcher (d : dispatcher) (c : ConnectionHandler) : ConnectionHandler :=
  mkHandler (addr c) d (input c) (terminator c)
    (found_terminator c) (ac_in_buffer c) (connected c).

Definition set_found_terminator (cb : callback) (c : ConnectionHandler) : ConnectionHandler :=
  mkHandler (addr c) (milter_dispatcher c) (input c) (terminator c)
    cb (ac_in_buffer c) (connected c).

Definition set_ac_in_buffer (b : bytes) (c : ConnectionHandler) : ConnectionHandler :=
  mkHandler (addr c) (milter_dispatcher c) (input c) (terminator c)
    (found_terminator c) b (connected c).

Definition set_connected (b : bool) (c : ConnectionHandler) : ConnectionHandler :=
  mkHandler (addr c) (milter_dispatcher c) (input c) (terminator c)
    (found_terminator c) (ac_in_buffer c) b.

Definition set_terminator_attr (t : Z) (c : ConnectionHandler) : ConnectionHandler :=
  mkHandler (addr c) (milter_dispatcher c) (input c) t
    (found_terminator c) (ac_in_buffer c) (connected c).

Abbreviation Mc := (M ConnectionHandler).

(** [async_chat.set_terminator]: a negative integer is refused. *)
Definition set_terminator (term : Z) : Mc unit :=
  if term <? 0 then raise (OtherException "ValueError")
  else modify (set_terminator_attr term).

(** [ConnectionHandler.__init__] on an accepted socket. *)
Definition __init__ (conn_addr : ident) (mc : milter_class) (ctx : option context)
  : ConnectionHandler :=
  {| addr := conn_addr;
     milter_dispatcher := PpyMilterDispatcher mc ctx;
     input := [];
     terminator := MILTER_LEN_BYTES;
     found_terminator := read_packetlen_cb;
     ac_in_buffer := [];
     connected := true |}.

Definition collect_incoming_data (data : bytes) : Mc unit :=
  modify (fun c => set_input (input c ++ [data]) c).

(** [log_info]: the 'info' type goes to debug, any other to error. *)
Definition log_info (m : logmsg) (type_is_info : bool) : Mc unit :=
  if type_is_info then logger_debug m else logger_error m.

(** [async_chat.push]: the data is queued for the socket. *)
Definition push (data : bytes) : Mc unit := emit (EvWrite data).

(** [asyncore.dispatcher.close]: the channel leaves the socket map and the
    socket is closed. *)
Definition close : Mc unit :=
  modify (set_connected false) ;; emit EvClose.

Definition read_packetlen : Mc unit :=
  buf <- gets (fun c => concat (input c)) ;;
  packetlen <- lift (struct_unpack_I buf) ;;
  modify (set_input []) ;;
  set_terminator packetlen ;;
  modify (set_found_terminator read_milter_data_cb).

Definition __send_response (response : pyval) : Mc unit :=
  match response with
  | PyBytes [] | PyStr [] => raise IndexError
  | PyBytes ((c :: _) as r) | PyStr ((c :: _) as r) =>
      logger_debug (MsgOut c) ;;
      h <- lift (struct_pack_I (len r)) ;;
      push h ;;
      push r
  | PyNone => raise TypeError
  | PyList [] => raise IndexError
  | PyList (_ :: _) => raise TypeError
  end.

Definition call_Dispatch (data : bytes) : Mc pyval :=
  fun c =>
    let rd := Dispatch (milter_dispatcher c) data in
    mkRes (match rd.1 with Returns v => Ok v | Raises e => Raise e end)
          (set_milter_dispatcher rd.2 c) [EvDispatch data rd.1].

(** The [if type(response) == list: ... elif response: ...] statement. *)
Definition send_responses (response : pyval) : Mc unit :=
  match response with
  | PyList rs => for_each rs __send_response
  | _ => if truthy response then __send_response response else ret tt
  end.

Definition read_milter_data : Mc unit :=
  inbuff <- gets (fun c => concat (input c)) ;;
  modify (set_input []) ;;
  logger_debug (MsgIn inbuff) ;;
  try_except
    (response <- call_Dispatch inbuff ;;
     send_responses response ;;
     modify (set_found_terminator read_packetlen_cb) ;;
     set_terminator MILTER_LEN_BYTES)
    (fun e => match e with
              | PpyMilterCloseConnection reason =>
                  Some (logger_info (MsgClosing reason) ;; close)
              | _ => None
              end).

Definition call_found_terminator : Mc unit :=
  cb <- gets found_terminator ;;
  match cb with
  | read_packetlen_cb => read_packetlen
  | read_milter_data_cb => read_milter_data
  end.

(** The [while self.ac_in_buffer:] loop of [async_chat.handle_read] for an
    integer terminator. A terminator of 0 is false in Python, so it takes
    the "no terminator, collect it all" branch. *)
Fixpoint handle_read_loop (fuel : nat) : Mc unit :=
  match fuel with
  | O => out_of_fuel
  | S fuel' =>
      buf <- gets ac_in_buffer ;;
      match buf with
      | [] => ret tt
      | _ =>
          n <- gets terminator ;;
          if n =? 0 then
            collect_incoming_data buf ;;
            modify (set_ac_in_buffer []) ;;
            handle_read_loop fuel'
          else if len buf <? n then
            collect_incoming_data buf ;;
            modify (set_ac_in_buffer []) ;;
            modify (fun c => set_terminator_attr (terminator c - len buf) c) ;;
            handle_read_loop fuel'
          else
            collect_incoming_data (take (Z.to_nat n) buf) ;;
            modify (set_ac_in_buffer (drop (Z.to_nat n) buf)) ;;
            modify (set_terminator_attr 0) ;;
            call_found_terminator ;;
            handle_read_loop fuel'
      end
  end.

(** What [self.socket.recv] may do on a readable socket. *)
Inductive recv_result : Type :=
| recv_data (data : bytes)       (* an empty [data] is the peer's close *)
| recv_disconnected              (* OSError with an errno of _DISCONNECTED *)
| recv_raises (errno : Z).       (* any other OSError *)

(** [asyncore.dispatcher.handle_close], not overridden: the 'warning' goes
    through [log_info], then the channel closes. *)
Definition handle_close : Mc unit :=
  log_info MsgUnhandledClose false ;; close.

(** [asyncore.dispatcher.handle_error], not overridden by the handler. *)
Definition handle_error (e : exn) : Mc unit :=
  who <- gets addr ;;
  log_info (MsgUncaptured who e) false ;;
  handle_close.

(** [asyncore.dispatcher.recv] *)
Definition recv (r : recv_result) : Mc bytes :=
  match r with
  | recv_data [] => emit (EvRecv []) ;; handle_close ;; ret []
  | recv_data d => emit (EvRecv d) ;; ret d
  | recv_disconnected => handle_close ;; ret []
  | recv_raises errno => raise (socket_error errno)
  end.

(** [async_chat.handle_read]: an [OSError] of [recv] goes to
    [handle_error] and ends the call; otherwise the data joins the buffer
    and the loop runs. Every turn of the loop shortens the buffer, so its
    length bounds the number of turns. *)
Definition handle_read (r : recv_result) : Mc unit :=
  got <- try_except (data <- recv r ;; ret (Some data))
           (fun e => match e with
                     | socket_error _ => Some (handle_error e ;; ret None)
                     | _ => None
                     end) ;;
  match got with
  | None => ret tt
  | Some data =>
      modify (fun c => set_ac_in_buffer (ac_in_buffer c ++ data) c) ;;
      n <- gets (fun c => length (ac_in_buffer c)) ;;
      handle_read_loop (S n)
  end.

(** [asyncore.read]: whatever escapes the read handler ends in the
    channel's own [handle_error]. *)
Definition read (r : recv_result) : Mc unit :=
  try_except (handle_read r) (fun e => Some (handle_error e)).

(** The life of one channel in the reactor: a read event is delivered only
    while the channel is in the socket map. *)
Fixpoint serve (rs : list recv_result) : Mc unit :=
  match rs with
  | [] => ret tt
  | r :: rs' =>
      alive <- gets connected ;;
      if alive then read r ;; serve rs' else ret tt
  end.

(** *** Notions used to state the properties of the handler *)

(** What one call of [__send_response] does, apart from the state. *)
Definition sent (response : pyval) : outcome unit * list event :=
  match response with
  | PyBytes (c :: r) | PyStr (c :: r) =>
      match struct_pack_I (len (c :: r)) with
      | Ok h => (Ok tt, [EvLog DEBUG (MsgOut c); EvWrite h; EvWrite (c :: r)])
      | Raise e => (Raise e, [EvLog DEBUG (MsgOut c)])
      | OutOfFuel => (OutOfFuel, [EvLog DEBUG (MsgOut c)])
      end
  | PyBytes [] | PyStr [] | PyList [] => (Raise IndexError, [])
  | PyNone | PyList (_ :: _) => (Raise TypeError, [])
  end.

Fixpoint sent_each (rs : list pyval) : outcome unit * list event :=
  match rs with
  | [] => (Ok tt, [])
  | r :: rs' =>
      match sent r with
      | (Ok _, t) => let '(o, t') := sent_each rs' in (o, t ++ t')
      | (o, t) => (o, t)
      end
  end.

Definition sent_all (response : pyval) : outcome unit * list event :=
  match response with
  | PyList rs => sent_each rs
  | _ => if truthy response then sent response else (Ok tt, [])
  end.

(** The state in which [read_milter_data] leaves the handler, by what
    [Dispatch] answered. *)
Definition dispatched_state (c : ConnectionHandler) : ConnectionHandler :=
  set_milter_dispatcher (Dispatch (milter_dispatcher c) (concat (input c))).2
    (set_input [] c).

Definition rearmed (c : ConnectionHandler) : ConnectionHandler :=
  set_terminator_attr MILTER_LEN_BYTES (set_found_terminator read_packetlen_cb c).

Definition collected (buf : bytes) (c : ConnectionHandler) : ConnectionHandler :=
  set_ac_in_buffer [] (set_input (input c ++ [buf]) c).

Definition cut (c : ConnectionHandler) : ConnectionHandler :=
  let n := Z.to_nat (terminator c) in
  set_terminator_attr 0
    (set_ac_in_buffer (drop n (ac_in_buffer c))
       (set_input (input c ++ [take n (ac_in_buffer c)]) c)).

Definition res_map {A} (f : ConnectionHandler -> ConnectionHandler)
    (r : res ConnectionHandler A) : res ConnectionHandler A :=
  mkRes (out r) (f (st r)) (tr r).

(** Two handlers that differ at most in how [__input] is cut into pieces. *)
Definition same (c1 c2 : ConnectionHandler) : Prop :=
  set_input [] c1 = set_input [] c2 /\ concat (input c1) = concat (input c2).

Definition res_same {A} (r1 r2 : res ConnectionHandler A) : Prop :=
  out r1 = out r2 /\ tr r1 = tr r2 /\
  (forall a, out r1 = Ok a -> same (st r1) (st r2)).

Definition refill (b : bytes) : M ConnectionHandler unit :=
  modify (set_ac_in_buffer b).

(** The three log-and-close events of [handle_error]. *)
Definition error_events (who : ident) (e : exn) : list event :=
  [EvLog ERROR (MsgUncaptured who e); EvLog ERROR MsgUnhandledClose; EvClose].

Definition settled (c : ConnectionHandler) : Prop :=
  ac_in_buffer c = [] /\ 0 <= terminator c.

(** What a peer or an observer of the log can see: everything but the
    boundaries of the reads. *)
Definition observable (t : list event) : list event :=
  List.filter (fun e => match e with EvRecv _ => false | _ => true end) t.

Definition ev_same {A} (r1 r2 : res ConnectionHandler A) : Prop :=
  out r1 = out r2 /\ observable (tr r1) = observable (tr r2) /\
  connected (st r1) = connected (st r2) /\
  (connected (st r1) = true -> same (st r1) (st r2)).

(** The handler between two frames: waiting for a length header. *)
Definition awaiting_length (c : ConnectionHandler) : Prop :=
  found_terminator c = read_packetlen_cb /\ terminator c = MILTER_LEN_BYTES /\
  input c = [] /\ ac_in_buffer c = [].

(** The handler once the payload [p] of a frame is complete and
    [read_milter_data] is about to run, with [rest] still unread. *)
Definition payload_ready (p rest : bytes) (c : ConnectionHandler) : ConnectionHandler :=
  mkHandler (addr c) (milter_dispatcher c) [p] 0 read_milter_data_cb rest (connected c).

(** A dispatcher that never raises and only answers what can be sent. *)
Definition keeps_going : Prop :=
  forall d data, exists v,
    (Dispatch d data).1 = Returns v /\ (sent_all v).1 = Ok tt.

Definition signal_tail (data : bytes) (reason : string) : list event :=
  [EvDispatch data (Raises (PpyMilterCloseConnection reason));
   EvLog INFO (MsgClosing reason); EvClose].

(** A run that the close signal ended: the trace stops right after the
    log record and the close, and the channel has left the socket map. *)
Definition closed_by_signal {A} (r : res ConnectionHandler A) : Prop :=
  (exists t1 data reason, tr r = t1 ++ signal_tail data reason /\ quiet t1) /\
  (forall e, out r <> Raise e) /\ connected (st r) = false /\ terminator (st r) = 0.

Definition signal_ended (t : list event) : Prop :=
  exists t1 data reason, t = t1 ++ signal_tail data reason /\ quiet t1.

End WithDispatcher.
End AsyncConnectionHandler.

(** ** [ThreadedPpyMilterServer.ConnectionHandler] *)

Module ThreadedConnectionHandler.
Section WithDispatcher.
Context {base : ppymilterbase}.

(** What the peer and the network do to the blocking socket: the data
    arrives in chunks, a read error may strike, and each [send] succeeds or
    fails with an [OSError]. *)
Inductive arrival : Type :=
| chunk (data : bytes)
| read_error (errno : Z).

Record socket : Type := mkSocket {
  incoming : list arrival;         (* exhausted: the peer has closed *)
  send_results : list (option Z)   (* [Some errno]: that send raises *)
}.

Record ConnectionHandler : Type := mkHandler {
  self_id : ident;
  request : socket;
  milter_dispatcher : dispatcher
}.

Abbreviation Mh := (M ConnectionHandler).

Definition set_incoming (q : list arrival) (h : ConnectionHandler) : ConnectionHandler :=
  mkHandler (self_id h) (mkSocket q (send_results (request h))) (milter_dispatcher h).

Definition set_send_results (q : list (option Z)) (h : ConnectionHandler) : ConnectionHandler :=
  mkHandler (self_id h) (mkSocket (incoming (request h)) q) (milter_dispatcher h).

Definition set_milter_dispatcher (d : dispatcher) (h : ConnectionHandler) : ConnectionHandler :=
  mkHandler (self_id h) (request h) d.

(** A blocking [recv(bufsize)] on the arrivals [q]: at most [bufsize] bytes
    of the first chunk that holds any, the empty string once the peer has
    closed. *)
Fixpoint socket_recv (bufsize : Z) (q : list arrival) : outcome bytes * list arrival :=
  match q with
  | [] => (Ok [], [])
  | chunk [] :: q' => socket_recv bufsize q'
  | chunk d :: q' =>
      if len d <=? bufsize then (Ok d, q')
      else (Ok (take (Z.to_nat bufsize) d), chunk (drop (Z.to_nat bufsize) d) :: q')
  | read_error errno :: q' => (Raise (socket_error errno), q')
  end.

(** [self.request.recv(bufsize)] *)
Definition request_recv (bufsize : Z) : Mh bytes :=
  fun h =>
    let '(o, q) := socket_recv bufsize (incoming (request h)) in
    mkRes o (set_incoming q h)
          (match o with Ok d => [EvRecv d] | _ => [] end).

(** [self.request.send(data)] *)
Definition request_send (data : bytes) : Mh unit :=
  fun h =>
    match send_results (request h) with
    | Some errno :: q => mkRes (Raise (socket_error errno)) (set_send_results q h) []
    | None :: q => mkRes (Ok tt) (set_send_results q h) [EvWrite data]
    | [] => mkRes (Ok tt) h [EvWrite data]
    end.

(** [setup]: the handler of one accepted request, with its own dispatcher. *)
Definition setup (id : ident) (sock : socket) (mc : milter_class) (ctx : option context)
  : ConnectionHandler :=
  {| self_id := id; request := sock; milter_dispatcher := PpyMilterDispatcher mc ctx |}.

Definition __send_response (response : pyval) : Mh unit :=
  match response with
  | PyBytes [] | PyStr [] => raise IndexError
  | PyBytes ((c :: _) as r) | PyStr ((c :: _) as r) =>
      logger_debug (MsgOut c) ;;
      h <- lift (struct_pack_I (len r)) ;;
      request_send h ;;
      request_send r
  | PyNone => raise TypeError
  | PyList [] => raise IndexError
  | PyList (_ :: _) => raise TypeError
  end.

Definition call_Dispatch (data : bytes) : Mh pyval :=
  fun h =>
    let rd := Dispatch (milter_dispatcher h) data in
    mkRes (match rd.1 with Returns v => Ok v | Raises e => Raise e end)
          (set_milter_dispatcher rd.2 h) [EvDispatch data rd.1].

(** The inner [while read < packetlen:] loop. *)
Fixpoint recv_payload (fuel : nat) (packetlen : Z) (inbuf : list bytes) (read : Z)
  : Mh (list bytes) :=
  match fuel with
  | O => out_of_fuel
  | S fuel' =>
      if read <? packetlen then
        partial_data <- request_recv (packetlen - read) ;;
        recv_payload fuel' packetlen (inbuf ++ [partial_data]) (read + len partial_data)
      else ret inbuf
  end.

Inductive flow : Type := Continue | Break.

(** The [if type(response) == list: ... elif response: ...] statement. *)
Definition send_responses (response : pyval) : Mh unit :=
  match response with
  | PyList rs => for_each rs __send_response
  | _ => if truthy response then __send_response response else ret tt
  end.

(** The [try: ... except PpyMilterCloseConnection] statement of the loop
    body: dispatch, write the responses, or log the close and [break]. *)
Definition respond (data : bytes) : Mh flow :=
  try_except
    (response <- call_Dispatch data ;;
     send_responses response ;;
     ret Continue)
    (fun e => match e with
              | PpyMilterCloseConnection reason =>
                  Some (logger_info (MsgClosing reason) ;; ret Break)
              | _ => None
              end).

(** One turn of [while True:]. *)
Definition handle_turn (fuel : nat) : Mh flow :=
  header <- request_recv MILTER_LEN_BYTES ;;
  packetlen <- lift (struct_unpack_I header) ;;
  inbuf <- recv_payload fuel packetlen [] 0 ;;
  let data := concat inbuf in
  logger_debug (MsgIn data) ;;
  respond data.

Fixpoint handle_loop (fuel : nat) : Mh unit :=
  match fuel with
  | O => out_of_fuel
  | S fuel' =>
      f <- handle_turn fuel' ;;
      match f with
      | Continue => handle_loop fuel'
      | Break => ret tt
      end
  end.

Definition handle (fuel : nat) : Mh unit :=
  try_except (handle_loop fuel)
    (fun e => Some (who <- gets self_id ;; logger_error (MsgUncaptured who e))).

(** [try: m finally: k] *)
Definition try_finally {A : Type} (m : Mh A) (k : Mh unit) : Mh A :=
  fun h =>
    let r := m h in
    match out r with
    | OutOfFuel => r
    | o => let r2 := k (st r) in
           mkRes (match out r2 with Ok _ => o | Raise e => Raise e | OutOfFuel => OutOfFuel end)
                 (st r2) (tr r ++ tr r2)
    end.

(** [socketserver]'s [process_request_thread] around the handler:
    [finish_request] runs [handle], and [shutdown_request] closes the
    request socket whatever happened. *)
Definition process_request_thread (fuel : nat) : Mh unit :=
  try_finally (handle fuel) (emit EvClose).

(** *** Notions used to state the properties of the handler *)

(** How a turn of the loop can end, as far as the close signal goes. *)
Definition turn_ok (r : res ConnectionHandler flow) : Prop :=
  (quiet (tr r) /\ out r <> Ok Break /\ (forall e, out r = Raise e -> is_close e = false)) \/
  (exists t1 data reason,
     tr r = t1 ++ [EvDispatch data (Raises (PpyMilterCloseConnection reason));
                   EvLog INFO (MsgClosing reason)] /\
     quiet t1 /\ out r = Ok Break).

(** How the whole loop can end. *)
Definition loop_ok (r : res ConnectionHandler unit) : Prop :=
  (quiet (tr r) /\ (forall e, out r = Raise e -> is_close e = false)) \/
  (exists t1 data reason,
     tr r = t1 ++ [EvDispatch data (Raises (PpyMilterCloseConnection reason));
                   EvLog INFO (MsgClosing reason)] /\
     quiet t1 /\ out r = Ok tt).

(** The next [n] sends are not scheduled to fail. *)
Fixpoint sends_ok (n : nat) (q : list (option Z)) : Prop :=
  match n, q with
  | O, _ => True
  | S _, [] => True
  | S n', None :: q' => sends_ok n' q'
  | S _, Some _ :: _ => False
  end.

End WithDispatcher.
End ThreadedConnectionHandler.

(** ** Listening sockets *)

Inductive sock_family : Type := AF_INET | AF_INET6 | AF_UNIX.
Inductive sock_type : Type := SOCK_STREAM | SOCK_DGRAM.

(** A socket address: [(host, port)], with the empty host standing for
    every interface (INADDR_ANY), or a path. *)
Inductive sock_addr : Type :=
| host_port (host : string) (port : Z)
| unix_path (path : string).

(** The system calls a server constructor issues on its listening socket. *)
Inductive sockcall : Type :=
| sys_socket (family : sock_family) (type : sock_type)
| sys_setsockopt_reuseaddr
| sys_bind (a : sock_addr)
| sys_listen (backlog : Z).

(** ** [AsyncPpyMilterServer] *)

Module AsyncPpyMilterServer.
Section WithDispatcher.
Context {base : ppymilterbase}.

(** The [sock_info_or_port] argument: a [(sock_family, sock_addr)] tuple or
    a numeric port. *)
Inductive sock_info_or_port : Type :=
| sock_info (family : sock_family) (a : sock_addr)
| port_number (port : Z).

(** The server with the asyncore socket map it lives in: the listener is
    registered while [accepting], the channels are keyed by file
    descriptor. *)
Record server : Type := mkServer {
  the_milter_class : milter_class;
  the_context : option context;
  accepting : bool;
  channels : gmap nat AsyncConnectionHandler.ConnectionHandler;
  syscalls : list sockcall;
  journal : list (option nat * event)   (* [None]: the listener *)
}.

(** [__init__]; [max_queued_connections] is [None] when the caller leaves
    the default. [asyncore.dispatcher.listen] passes the backlog on as it
    is on POSIX systems. *)
Definition __init__ (target : sock_info_or_port) (mc : milter_class)
    (max_queued_connections : option Z) (ctx : option context) : server :=
  let backlog := default 1024 max_queued_connections in
  let '(family, a) :=
    match target with
    | sock_info family a => (family, a)
    | port_number port => (AF_INET, host_port "" port)
    end in
  {| the_milter_class := mc;
     the_context := ctx;
     accepting := true;
     channels := ∅;
     syscalls := [sys_socket family SOCK_STREAM; sys_setsockopt_reuseaddr;
                  sys_bind a; sys_listen backlog];
     journal := [] |}.

(** What [asyncore.dispatcher.accept] gives: a connection, [None] (the
    errors asyncore swallows), or a raised [socket.error]. *)
Inductive accept_result : Type :=
| accepted (fd : nat) (peer : ident)
| accept_none
| accept_raises (errno : Z).

Definition note (who : option nat) (t : list event) (s : server) : server :=
  mkServer (the_milter_class s) (the_context s) (accepting s) (channels s)
    (syscalls s) (journal s ++ map (pair who) t).

Definition set_channels (m : gmap nat AsyncConnectionHandler.ConnectionHandler)
    (s : server) : server :=
  mkServer (the_milter_class s) (the_context s) (accepting s) m
    (syscalls s) (journal s).

(** [self.accept()] *)
Definition accept (a : accept_result) : M server (option (nat * ident)) :=
  match a with
  | accepted fd peer => ret (Some (fd, peer))
  | accept_none => ret None
  | accept_raises errno => raise (socket_error errno)
  end.

Definition handle_accept (a : accept_result) : M server unit :=
  got <- try_except
           (connaddr <- accept a ;;
            match connaddr with
            | None => ret None
            | Some ca => ret (Some ca)
            end)
           (fun e => match e with
                     | socket_error _ =>
                         Some (logger_error (MsgAcceptError e) ;; ret None)
                     | _ => None
                     end) ;;
  match got with
  | None => ret tt
  | Some (conn, peer) =>
      modify (fun s =>
        set_channels
          (<[conn := AsyncConnectionHandler.__init__ peer (the_milter_class s)
                       (the_context s)]> (channels s)) s)
  end.

(** [handle_error] of the server: it returns [False] and leaves the
    listener as it is. *)
Definition handle_error : M server unit := ret tt.

(** The readiness events [asyncore.loop] hands out. *)
Inductive readiness : Type :=
| listener_readable (a : accept_result)
| channel_readable (fd : nat) (r : AsyncConnectionHandler.recv_result).

(** One readiness event of [asyncore.poll]: the object is looked up in the
    socket map and [asyncore.read] runs its read handler; a channel that
    closed is no longer in the map afterwards. *)
Definition poll_event (ev : readiness) (s : server) : server :=
  match ev with
  | listener_readable a =>
      if accepting s then
        let r := try_except (handle_accept a) (fun _ => Some handle_error) s in
        note None (tr r) (st r)
      else s
  | channel_readable fd rr =>
      match channels s !! fd with
      | None => s
      | Some c =>
          let r := AsyncConnectionHandler.read rr c in
          let m := if AsyncConnectionHandler.connected (st r)
                   then <[fd := st r]> (channels s)
                   else delete fd (channels s) in
          note (Some fd) (tr r) (set_channels m s)
      end
  end.

(** [asyncore.loop] over a sequence of readiness events. *)
Definition loop (evs : list readiness) (s : server) : server :=
  fold_left (fun s ev => poll_event ev s) evs s.

End WithDispatcher.
End AsyncPpyMilterServer.

(** ** [ThreadedPpyMilterServer] *)

Module ThreadedPpyMilterServer.
Section WithDispatcher.
Context {base : ppymilterbase}.

(** Class attributes: [allow_reuse_address] is set by the class,
    [request_queue_size] is the one [socketserver.TCPServer] defines. *)
Definition allow_reuse_address : bool := true.
Definition request_queue_size : Z := 5.

Record server : Type := mkServer {
  the_milter_class : milter_class;
  the_context : option context;
  syscalls : list sockcall
}.

(** [socketserver.TCPServer.__init__] with [bind_and_activate] left true:
    the socket, then [server_bind], then [server_activate]. *)
Definition TCPServer__init__ (server_address : sock_addr) : list sockcall :=
  [sys_socket AF_INET SOCK_STREAM]
  ++ (if allow_reuse_address then [sys_setsockopt_reuseaddr] else [])
  ++ [sys_bind server_address]
  ++ [sys_listen request_queue_size].

Definition __init__ (port : Z) (mc : milter_class) (ctx : option context) : server :=
  {| the_milter_class := mc;
     the_context := ctx;
     syscalls := TCPServer__init__ (host_port "" port) |}.

(** The thread started for an accepted request. *)
Definition serve_request (s : server) (id : ident)
    (sock : ThreadedConnectionHandler.socket) (fuel : nat)
  : res ThreadedConnectionHandler.ConnectionHandler unit :=
  ThreadedConnectionHandler.process_request_thread fuel
    (ThreadedConnectionHandler.setup id sock (the_milter_class s) (the_context s)).

End WithDispatcher.
End ThreadedPpyMilterServer.

(** ** Concrete servers and inputs *)

(** The handler of a channel accepted from peer 7, on the sample milter. *)
Definition sample_channel : @AsyncConnectionHandler.ConnectionHandler sample_milter :=
  @AsyncConnectionHandler.__init__ sample_milter 7%nat tt None.

(** The reactor server on port 9999 with the default backlog. *)
Definition sample_server : @AsyncPpyMilterServer.server sample_milter :=
  @AsyncPpyMilterServer.__init__ sample_milter
    (AsyncPpyMilterServer.port_number 9999) tt None None.

Definition sample_threaded_server : @ThreadedPpyMilterServer.server sample_milter :=
  @ThreadedPpyMilterServer.__init__ sample_milter 9999 tt None.

(** A request socket on which [chunks] arrive one after the other, then the
    peer closes; no send fails. *)
Definition sample_socket (chunks : list bytes) : ThreadedConnectionHandler.socket :=
  ThreadedConnectionHandler.mkSocket (map ThreadedConnectionHandler.chunk chunks) [].

(** The thread serving such a socket as handler number 1. *)
Definition sample_thread (chunks : list bytes)
  : res (@ThreadedConnectionHandler.ConnectionHandler sample_milter) unit :=
  @ThreadedPpyMilterServer.serve_request sample_milter sample_threaded_server 1%nat
    (sample_socket chunks) 16.

(** ** Further notions: whole conversations *)

(** A milter that accepts everything: it answers the continue response
    'c' to every payload and counts the payloads it has seen. *)
Definition steady_milter : ppymilterbase :=
  {| milter_class := unit;
     context := unit;
     dispatcher := nat;
     PpyMilterDispatcher := fun _ _ => O;
     Dispatch := fun seen _ => (Returns (PyBytes ["c"%byte]), S seen) |}.


Section Conversation.
Context {base : ppymilterbase}.

(** What a connection logs, dispatches and writes for the payloads [ps],
    one after the other, on a dispatcher that starts as [d]: per payload
    the debug record, the call of [Dispatch] and what sending its reply
    emits. *)
Fixpoint replies (d : dispatcher) (ps : list bytes) : list event :=
  match ps with
  | [] => []
  | p :: ps' =>
      let rd := Dispatch d p in
      [EvLog DEBUG (MsgIn p); EvDispatch p rd.1] ++
      match rd.1 with
      | Returns v => (AsyncConnectionHandler.sent_all v).2
      | Raises _ => []
      end ++ replies rd.2 ps'
  end.

(** The dispatcher once it has been handed [ps]. *)
Definition dispatcher_after (d : dispatcher) (ps : list bytes) : dispatcher :=
  fold_left (fun d p => (Dispatch d p).2) ps d.

(** The reactor handler at a turn of asynchat's loop: while a length header
    is awaited, [__input] holds the bytes of it that have arrived and the
    terminator counts those still missing. Between two reads nothing is
    left in asynchat's buffer either. *)
Definition framing (c : AsyncConnectionHandler.ConnectionHandler) : Prop :=
  match AsyncConnectionHandler.found_terminator c with
  | AsyncConnectionHandler.read_packetlen_cb =>
      1 <= AsyncConnectionHandler.terminator c /\
      len (concat (AsyncConnectionHandler.input c)) + AsyncConnectionHandler.terminator c
        = MILTER_LEN_BYTES
  | AsyncConnectionHandler.read_milter_data_cb =>
      0 <= AsyncConnectionHandler.terminator c
  end.

Definition framed (c : AsyncConnectionHandler.ConnectionHandler) : Prop :=
  AsyncConnectionHandler.ac_in_buffer c = [] /\ framing c.

End Conversation.

(** ** Further notions: the blocking socket *)

(** The chunks still to arrive once [n] bytes have been received from
    [ds], one [recv] at a time, each asking for what is still missing. *)
Fixpoint skip (n : Z) (ds : list bytes) : list bytes :=
  if n <=? 0 then ds
  else match ds with
       | [] => []
       | d :: ds' =>
           if len d <=? n then skip (n - len d) ds'
           else drop (Z.to_nat n) d :: ds'
       end.

(** The next [recv(4)] returns four bytes: the first chunk that holds any
    byte holds at least four. *)
Fixpoint header_ready (ds : list bytes) : bool :=
  match ds with
  | [] => false
  | [] :: ds' => header_ready ds'
  | d :: _ => MILTER_LEN_BYTES <=? len d
  end.

(** No length header of the frames of [ps] is cut by the boundary
    between two chunks of [ds]. *)
Fixpoint headers_whole (ps : list bytes) (ds : list bytes) : bool :=
  match ps with
  | [] => true
  | p :: ps' =>
      header_ready ds && headers_whole ps' (skip (len p) (skip MILTER_LEN_BYTES ds))
  end.

(** No [send] on the request socket is going to fail. *)
Definition sends_succeed {base : ppymilterbase}
    (h : ThreadedConnectionHandler.ConnectionHandler) : Prop :=
  Forall (fun r => r = None)
    (ThreadedConnectionHandler.send_results (ThreadedConnectionHandler.request h)).

(** Two handlers that differ at most in what is still to arrive. *)
Definition same_but_incoming {base : ppymilterbase}
    (h h' : ThreadedConnectionHandler.ConnectionHandler) : Prop :=
  ThreadedConnectionHandler.self_id h' = ThreadedConnectionHandler.self_id h /\
  ThreadedConnectionHandler.milter_dispatcher h' =
    ThreadedConnectionHandler.milter_dispatcher h /\
  ThreadedConnectionHandler.send_results (ThreadedConnectionHandler.request h') =
    ThreadedConnectionHandler.send_results (ThreadedConnectionHandler.request h).

(** Two handlers that differ at most in the sends still to come. *)
Definition same_but_sends {base : ppymilterbase}
    (h h' : ThreadedConnectionHandler.ConnectionHandler) : Prop :=
  ThreadedConnectionHandler.self_id h' = ThreadedConnectionHandler.self_id h /\
  ThreadedConnectionHandler.milter_dispatcher h' =
    ThreadedConnectionHandler.milter_dispatcher h /\
  ThreadedConnectionHandler.incoming (ThreadedConnectionHandler.request h') =
    ThreadedConnectionHandler.incoming (ThreadedConnectionHandler.request h).

(** ** Further notions: the reactor as a whole *)

(** Every channel in the socket map is connected and between two frames
    or inside one. *)
Definition channels_framed {base : ppymilterbase}
    (s : AsyncPpyMilterServer.server) : Prop :=
  forall fd c, AsyncPpyMilterServer.channels s !! fd = Some c ->
    AsyncConnectionHandler.connected c = true /\ framed c.

(** ** Running the module as a program *)

Module Main.
Section WithDispatcher.
Context {base : ppymilterbase}.

(** [ppymilterbase.PpyMilter], and Python's [int] on a command-line
    argument ([None]: it raises [ValueError]). *)
Variable PpyMilter : milter_class.
Variable int : string -> option Z.

(** [port = 9999], then [try: port = int(sys.argv[1])] with
    [except Exception: pass]: a missing argument ([IndexError]) and one
    that is not a number leave the default. *)
Definition port (argv : list string) : Z :=
  match argv with
  | _ :: a :: _ =>
      match int a with
      | Some n => n
      | None => 9999
      end
  | _ => 9999
  end.

(** [server = AsyncPpyMilterServer(port, ppymilterbase.PpyMilter)] and
    [asyncore.loop()]. *)
Definition main (argv : list string) (evs : list AsyncPpyMilterServer.readiness)
  : AsyncPpyMilterServer.server :=
  AsyncPpyMilterServer.loop evs
    (AsyncPpyMilterServer.__init__ (AsyncPpyMilterServer.port_number (port argv))
       PpyMilter None None).

End WithDispatcher.
End Main.

(** * Properties *)

(** ** [struct] *)

Lemma byte_to_of_Z z : byte_to_Z (byte_of_Z z) = z mod 256.
Proof.
  unfold byte_to_Z, byte_of_Z.
  assert (H : (Z.to_N (z mod 256) < 256)%N).
  { pose proof (Z.mod_pos_bound z 256). lia. }
  destruct (Byte.of_N (Z.to_N (z mod 256))) as [b|] eqn:E.
  - apply Byte.to_of_N in E. rewrite E.
    pose proof (Z.mod_pos_bound z 256). lia.
  - exfalso. revert E H. generalize (Z.to_N (z mod 256)). intros n E H.
    apply Byte.of_N_None_iff in E. lia.
Qed.

Lemma byte_to_Z_range b : 0 <= byte_to_Z b < 256.
Proof. unfold byte_to_Z. pose proof (Byte.to_N_bounded b). lia. Qed.

Lemma lor_shiftl_add a x k :
  0 <= k -> 0 <= x < 2 ^ k -> Z.lor (Z.shiftl a k) x = a * 2 ^ k + x.
Proof.
  intros Hk Hx.
  rewrite <- Z.lxor_lor, <- Z.add_nocarry_lxor, Z.shiftl_mul_pow2; auto.
  all: apply Z.bits_inj'; intros i Hi; rewrite Z.land_spec, Z.bits_0.
  all: destruct (Z.lt_ge_cases i k) as [Hlt|Hge].
  all: try (rewrite Z.shiftl_spec_low by lia; reflexivity).
  all: destruct (Z.eq_dec x 0) as [->|Hx0]; [rewrite Z.bits_0; apply andb_false_r|].
  all: rewrite (Z.bits_above_log2 x i); [apply andb_false_r|lia|].
  all: apply Z.log2_lt_pow2; try lia.
  all: eapply Z.lt_le_trans; [apply Hx|apply Z.pow_le_mono_r; lia].
Qed.

Lemma struct_unpack_pack n h :
  struct_pack_I n = Ok h -> length h = 4%nat /\ struct_unpack_I h = Ok n.
Proof.
  unfold struct_pack_I. destruct (_ && _) eqn:E; [|discriminate].
  intros [= <-]. split; [reflexivity|].
  apply andb_true_iff in E as [E1 E2].
  apply Z.leb_le in E1, E2.
  unfold struct_unpack_I. f_equal.
  rewrite !byte_to_of_Z.
  rewrite !lor_shiftl_add; try lia.
  - rewrite !Z.shiftr_div_pow2 by lia.
    change (2 ^ 24) with 16777216. change (2 ^ 16) with 65536. change (2 ^ 8) with 256.
    Z.to_euclidean_division_equations. lia.
  - pose proof (Z.mod_pos_bound n 256). lia.
  - rewrite lor_shiftl_add; try lia.
    + pose proof (Z.mod_pos_bound n 256). pose proof (Z.mod_pos_bound (Z.shiftr n 8) 256). 
      change (2 ^ 16) with 65536. change (2 ^ 8) with 256. lia.
    + pose proof (Z.mod_pos_bound n 256). lia.
  - rewrite !lor_shiftl_add; try lia.
    + pose proof (Z.mod_pos_bound n 256). pose proof (Z.mod_pos_bound (Z.shiftr n 8) 256).
      pose proof (Z.mod_pos_bound (Z.shiftr n 16) 256).
      change (2 ^ 24) with 16777216. change (2 ^ 16) with 65536. change (2 ^ 8) with 256. lia.
    + pose proof (Z.mod_pos_bound n 256). lia.
    + rewrite lor_shiftl_add; try lia.
      * pose proof (Z.mod_pos_bound n 256). pose proof (Z.mod_pos_bound (Z.shiftr n 8) 256). 
      change (2 ^ 16) with 65536. change (2 ^ 8) with 256. lia.
      * pose proof (Z.mod_pos_bound n 256). lia.
Qed.

Lemma len_nonneg {A} (l : list A) : 0 <= len l.
Proof. unfold len. lia. Qed.

Lemma len_cons {A} (x : A) l : len (x :: l) = 1 + len l.
Proof. unfold len. cbn [length]. lia. Qed.

Lemma len_app {A} (l1 l2 : list A) : len (l1 ++ l2) = len l1 + len l2.
Proof. unfold len. rewrite length_app. lia. Qed.

Lemma encode_frame_eq p :
  len p <= 4294967295 ->
  exists h, struct_pack_I (len p) = Ok h /\ length h = 4%nat /\
            struct_unpack_I h = Ok (len p) /\ encode_frame p = h ++ p.
Proof.
  intros Hl. unfold encode_frame.
  destruct (struct_pack_I (len p)) as [h| |] eqn:E.
  - destruct (struct_unpack_pack _ _ E) as [H4 Hu]. exists h. auto.
  - unfold struct_pack_I in E. pose proof (len_nonneg p).
    destruct (Z.leb_spec 0 (len p)); [|lia].
    destruct (Z.leb_spec (len p) 4294967295); [|lia]. discriminate.
  - unfold struct_pack_I in E. destruct (_ && _); discriminate.
Qed.

(** ** Traces and the close signal *)

Lemma quiet_app t1 t2 : quiet (t1 ++ t2) <-> quiet t1 /\ quiet t2.
Proof. unfold quiet. rewrite forallb_app. apply andb_true_iff. Qed.

Lemma quiet_nil : quiet [].
Proof. reflexivity. Qed.

Lemma quiet_closes_ok t : quiet t -> closes_ok t.
Proof.
  intros Hq t1 data reason t2 ->. apply quiet_app in Hq as [_ Hq].
  discriminate Hq.
Qed.

Lemma closed_closes_ok t1 data reason :
  quiet t1 ->
  closes_ok (t1 ++ [EvDispatch data (Raises (PpyMilterCloseConnection reason));
                    EvLog INFO (MsgClosing reason); EvClose]).
Proof.
  induction t1 as [|x t1 IH]; intros Hq u1 data' reason' u2 E.
  - destruct u1 as [|y u1]; cbn in E.
    + injection E as <- <- <-. reflexivity.
    + injection E as _ E. destruct u1 as [|y1 [|y2 [|y3 u1]]]; discriminate E.
  - apply (quiet_app [x] t1) in Hq as [Hx Hq].
    destruct u1 as [|y u1]; cbn in E.
    + injection E as -> _. discriminate Hx.
    + injection E as _ E. apply (IH Hq _ _ _ _ E).
Qed.

Lemma benign_ret {S A} (a : A) : benign (@ret S A a).
Proof. intros s. split; [reflexivity|discriminate]. Qed.

Lemma benign_gets {S A} (f : S -> A) : benign (gets f).
Proof. intros s. split; [reflexivity|discriminate]. Qed.

Lemma benign_modify {S} (f : S -> S) : benign (modify f).
Proof. intros s. split; [reflexivity|discriminate]. Qed.

Lemma benign_emit {S} ev : close_dispatch ev = false -> benign (@emit S ev).
Proof. intros H s. split; [cbn; unfold quiet; cbn; rewrite H; reflexivity|discriminate]. Qed.

Lemma benign_raise {S A} e : is_close e = false -> benign (@raise S A e).
Proof. intros H s. split; [reflexivity|]. cbn. intros e' [= <-]. exact H. Qed.

Lemma benign_lift {S A} (o : outcome A) :
  (forall e, o = Raise e -> is_close e = false) -> benign (@lift S A o).
Proof. intros H s. split; [reflexivity|exact H]. Qed.

Lemma benign_bind {S A B} (m : M S A) (k : A -> M S B) :
  benign m -> (forall a, benign (k a)) -> benign (bind m k).
Proof.
  intros Hm Hk s. unfold bind. destruct (Hm s) as [Hq Hr].
  destruct (out (m s)) as [a|e|] eqn:E; cbn.
  - destruct (Hk a (st (m s))) as [Hq' Hr']. split; [|exact Hr'].
    apply quiet_app. split; assumption.
  - split; [exact Hq|]. intros e' [= <-]. apply Hr. reflexivity.
  - split; [exact Hq|discriminate].
Qed.

Lemma benign_for_each {S A} (l : list A) (body : A -> M S unit) :
  (forall x, benign (body x)) -> benign (for_each l body).
Proof.
  intros H. induction l as [|x l IH]; cbn [for_each].
  - apply benign_ret.
  - apply benign_bind; [apply H|intros _; exact IH].
Qed.

Lemma benign_out_of_fuel {S A} : benign (@out_of_fuel S A).
Proof. intros s. split; [reflexivity|discriminate]. Qed.

Lemma struct_pack_raises n e : struct_pack_I n = Raise e -> e = struct_error.
Proof. unfold struct_pack_I. destruct (_ && _); congruence. Qed.

Lemma struct_pack_fuel n : struct_pack_I n <> OutOfFuel.
Proof. unfold struct_pack_I. destruct (_ && _); congruence. Qed.

Lemma struct_unpack_raises b e : struct_unpack_I b = Raise e -> e = struct_error.
Proof. destruct b as [|b3 [|b2 [|b1 [|b0 [|]]]]]; cbn; congruence. Qed.

Lemma struct_unpack_fuel b : struct_unpack_I b <> OutOfFuel.
Proof. destruct b as [|b3 [|b2 [|b1 [|b0 [|]]]]]; discriminate. Qed.

Lemma written_app t1 t2 : written (t1 ++ t2) = written t1 ++ written t2.
Proof. unfold written. rewrite omap_app, concat_app. reflexivity. Qed.

(** ** The monad, step by step *)

Lemma bind_ret_l {S A B} (a : A) (f : A -> M S B) s : bind (ret a) f s = f a s.
Proof. reflexivity. Qed.

Lemma bind_assoc {S A B C} (m : M S A) (f : A -> M S B) (g : B -> M S C) s :
  bind (bind m f) g s = bind m (fun a => bind (f a) g) s.
Proof.
  unfold bind. cbn.
  destruct (out (m s)) as [a| |]; cbn; try reflexivity.
  destruct (out (f a (st (m s)))) as [b| |]; cbn; try reflexivity.
  rewrite app_assoc. reflexivity.
Qed.

Lemma bind_after {S A B} (m : M S A) (k : A -> M S B) c a :
  out (m c) = Ok a -> bind m k c = after (tr (m c)) (k a (st (m c))).
Proof. intros H. unfold bind, after. rewrite H. reflexivity. Qed.

Lemma bind_stops {S A B} (m : M S A) (k : A -> M S B) c :
  (forall a, out (m c) <> Ok a) ->
  out (bind m k c) = match out (m c) with Ok _ => OutOfFuel | Raise e => Raise e | OutOfFuel => OutOfFuel end
  /\ tr (bind m k c) = tr (m c) /\ st (bind m k c) = st (m c).
Proof.
  intros H. unfold bind. destruct (out (m c)) as [a| |] eqn:E; cbn; auto.
  destruct (H a eq_refl).
Qed.

Lemma bind_raise {S A B} (m : M S A) (k : A -> M S B) s e :
  out (m s) = Raise e -> bind m k s = mkRes (Raise e) (st (m s)) (tr (m s)).
Proof. intros H. unfold bind. rewrite H. reflexivity. Qed.

Lemma bind_fuel {S A B} (m : M S A) (k : A -> M S B) s :
  out (m s) = OutOfFuel -> bind m k s = mkRes OutOfFuel (st (m s)) (tr (m s)).
Proof. intros H. unfold bind. rewrite H. reflexivity. Qed.

Lemma bind_ext {S A B} (m m' : M S A) (k : A -> M S B) s s' :
  m s = m' s' -> bind m k s = bind m' k s'.
Proof. intros H. unfold bind. rewrite H. reflexivity. Qed.

Lemma after_nil {S A} (r : res S A) : after [] r = r.
Proof. reflexivity. Qed.

Lemma res_eta {S A} (r : res S A) o :
  out r = o -> r = mkRes o (st r) (tr r).
Proof. intros <-. reflexivity. Qed.





Module AsyncFacts.
Import AsyncConnectionHandler.
Section S.
Context {base : ppymilterbase}.

Lemma send_response_sent v c :
  __send_response v c = mkRes (sent v).1 c (sent v).2.
Proof.
  destruct v as [|[|b r]|[|b r]|[|x l]]; try reflexivity.
  all: cbn; unfold bind, lift; cbn; destruct (struct_pack_I _); reflexivity.
Qed.

Lemma for_each_sent rs c :
  for_each rs __send_response c = mkRes (sent_each rs).1 c (sent_each rs).2.
Proof.
  induction rs as [|r rs IH]; [reflexivity|].
  cbn. unfold bind. rewrite send_response_sent. cbn.
  destruct (sent r) as [[u| |] t]; cbn; try reflexivity.
  rewrite IH. destruct (sent_each rs); reflexivity.
Qed.

Lemma send_responses_sent v c :
  send_responses v c = mkRes (sent_all v).1 c (sent_all v).2.
Proof.
  destruct v as [|b|b|rs]; unfold send_responses, sent_all; try reflexivity.
  1,2: destruct b; try reflexivity; apply send_response_sent.
  apply for_each_sent.
Qed.

Lemma sent_raises v e : (sent v).1 = Raise e -> is_close e = false.
Proof.
  destruct v as [|[|b r]|[|b r]|[|x l]]; cbn; try (intros [= <-]; reflexivity).
  all: destruct (struct_pack_I _) eqn:E; cbn; try discriminate.
  all: intros [= <-]; apply struct_pack_raises in E; subst; reflexivity.
Qed.

Lemma sent_each_raises rs e : (sent_each rs).1 = Raise e -> is_close e = false.
Proof.
  induction rs as [|r rs IH]; cbn; [discriminate|].
  destruct (sent r) as [[u|e'|] t] eqn:E; cbn; try discriminate.
  - destruct (sent_each rs); cbn in *. exact IH.
  - intros [= <-]. apply (sent_raises r). rewrite E. reflexivity.
Qed.

Lemma sent_all_raises v e : (sent_all v).1 = Raise e -> is_close e = false.
Proof.
  destruct v as [|b|b|rs]; unfold sent_all; try discriminate.
  1,2: destruct b; unfold truthy; try discriminate; apply sent_raises.
  apply sent_each_raises.
Qed.

Lemma read_milter_data_eq c :
  read_milter_data c =
  let data := concat (input c) in
  let r := (Dispatch (milter_dispatcher c) data).1 in
  let c1 := dispatched_state c in
  let pre := [EvLog DEBUG (MsgIn data); EvDispatch data r] in
  match r with
  | Raises (PpyMilterCloseConnection reason) =>
      mkRes (Ok tt) (set_connected false c1)
        (pre ++ [EvLog INFO (MsgClosing reason); EvClose])
  | Raises e => mkRes (Raise e) c1 pre
  | Returns v =>
      match (sent_all v).1 with
      | Ok _ => mkRes (Ok tt) (rearmed c1) (pre ++ (sent_all v).2)
      | Raise e => mkRes (Raise e) c1 (pre ++ (sent_all v).2)
      | OutOfFuel => mkRes OutOfFuel c1 (pre ++ (sent_all v).2)
      end
  end.
Proof.
  unfold read_milter_data, dispatched_state.
  unfold try_except, bind, gets, modify, logger_debug, emit, call_Dispatch.
  cbn -[send_responses].
  set (rd := Dispatch (milter_dispatcher c) (concat (input c))).
  destruct rd as [[v|e] d]; cbn -[send_responses].
  - rewrite send_responses_sent. cbn.
    destruct (sent_all v) as [[u|e|] t] eqn:E; cbn; try reflexivity.
    { rewrite app_nil_r. reflexivity. }
    pose proof (sent_all_raises v e) as H. rewrite E in H.
    specialize (H eq_refl). destruct e; try discriminate; reflexivity.
  - destruct e; reflexivity.
Qed.

Lemma loop_nil f c :
  ac_in_buffer c = [] -> handle_read_loop (S f) c = mkRes (Ok tt) c [].
Proof. intros H. cbn. unfold bind, gets. cbn. rewrite H. reflexivity. Qed.

Lemma loop_collect_all f c :
  ac_in_buffer c <> [] -> terminator c = 0 ->
  handle_read_loop (S f) c = handle_read_loop f (collected (ac_in_buffer c) c).
Proof.
  intros Hb Ht. cbn. unfold bind at 1, gets at 1. cbn.
  destruct (ac_in_buffer c) as [|b buf] eqn:E; [congruence|].
  unfold bind at 1, gets at 1. cbn. rewrite Ht. cbn.
  reflexivity.
Qed.

Lemma loop_short f c :
  ac_in_buffer c <> [] -> terminator c <> 0 -> len (ac_in_buffer c) < terminator c ->
  handle_read_loop (S f) c =
  handle_read_loop f (set_terminator_attr (terminator c - len (ac_in_buffer c))
                        (collected (ac_in_buffer c) c)).
Proof.
  intros Hb Ht Hl. cbn. unfold bind at 1, gets at 1. cbn.
  destruct (ac_in_buffer c) as [|b buf] eqn:E; [congruence|].
  unfold bind at 1, gets at 1. cbn.
  destruct (Z.eqb_spec (terminator c) 0); [congruence|].
  destruct (Z.ltb_spec (len (b :: buf)) (terminator c)); [|lia].
  reflexivity.
Qed.

Lemma loop_cut f c :
  ac_in_buffer c <> [] -> terminator c <> 0 -> terminator c <= len (ac_in_buffer c) ->
  handle_read_loop (S f) c = (call_found_terminator ;; handle_read_loop f) (cut c).
Proof.
  intros Hb Ht Hl. cbn. unfold bind at 1, gets at 1. cbn.
  destruct (ac_in_buffer c) as [|b buf] eqn:E; [congruence|].
  unfold bind at 1, gets at 1. cbn.
  destruct (Z.eqb_spec (terminator c) 0); [congruence|].
  destruct (Z.ltb_spec (len (b :: buf)) (terminator c)); [lia|].
  unfold cut. rewrite E. reflexivity.
Qed.

Lemma struct_unpack_nonneg b n : struct_unpack_I b = Ok n -> 0 <= n.
Proof.
  destruct b as [|b3 [|b2 [|b1 [|b0 [|]]]]]; try discriminate.
  intros [= <-].
  pose proof (byte_to_Z_range b3). pose proof (byte_to_Z_range b2).
  pose proof (byte_to_Z_range b1). pose proof (byte_to_Z_range b0).
  repeat (apply Z.lor_nonneg; split); try apply Z.shiftl_nonneg; lia.
Qed.

Lemma read_packetlen_eq c :
  read_packetlen c =
  match struct_unpack_I (concat (input c)) with
  | Ok n => mkRes (Ok tt)
              (set_found_terminator read_milter_data_cb
                 (set_terminator_attr n (set_input [] c))) []
  | Raise e => mkRes (Raise e) c []
  | OutOfFuel => mkRes OutOfFuel c []
  end.
Proof.
  unfold read_packetlen, bind, gets, lift, modify, set_terminator. cbn.
  destruct (struct_unpack_I (concat (input c))) as [n|e|] eqn:E; cbn; try reflexivity.
  apply struct_unpack_nonneg in E.
  destruct (Z.ltb_spec n 0); [lia|]. reflexivity.
Qed.

Lemma call_found_terminator_eq c :
  call_found_terminator c =
  match found_terminator c with
  | read_packetlen_cb => read_packetlen c
  | read_milter_data_cb => read_milter_data c
  end.
Proof.
  unfold call_found_terminator, bind, gets. cbn -[read_packetlen read_milter_data].
  destruct (found_terminator c); cbn -[read_packetlen read_milter_data];
    reflexivity.
Qed.

Lemma found_terminator_buffer b c :
  call_found_terminator (set_ac_in_buffer b c) =
  res_map (set_ac_in_buffer b) (call_found_terminator c).
Proof.
  rewrite !call_found_terminator_eq. cbn -[read_packetlen read_milter_data].
  destruct (found_terminator c); cbn -[read_packetlen read_milter_data].
  - rewrite !read_packetlen_eq. cbn.
    destruct (struct_unpack_I (concat (input c))); reflexivity.
  - rewrite !read_milter_data_eq. cbn.
    destruct (Dispatch (milter_dispatcher c) (concat (input c))) as [[v|e] d]; cbn.
    + destruct (sent_all v) as [[u|e|] t]; reflexivity.
    + destruct e; reflexivity.
Qed.

Lemma same_refl c : same c c.
Proof. split; reflexivity. Qed.

Lemma res_same_refl {A} (r : res ConnectionHandler A) : res_same r r.
Proof. repeat split. Qed.

Lemma same_fields c1 c2 :
  same c1 c2 ->
  addr c1 = addr c2 /\ milter_dispatcher c1 = milter_dispatcher c2 /\
  terminator c1 = terminator c2 /\ found_terminator c1 = found_terminator c2 /\
  ac_in_buffer c1 = ac_in_buffer c2 /\ connected c1 = connected c2.
Proof.
  intros [H _]. destruct c1, c2. cbn in H. injection H as -> -> -> -> -> ->.
  repeat split.
Qed.

Lemma same_intro c1 c2 :
  addr c1 = addr c2 -> milter_dispatcher c1 = milter_dispatcher c2 ->
  terminator c1 = terminator c2 -> found_terminator c1 = found_terminator c2 ->
  ac_in_buffer c1 = ac_in_buffer c2 -> connected c1 = connected c2 ->
  concat (input c1) = concat (input c2) -> same c1 c2.
Proof.
  destruct c1, c2; cbn. intros -> -> -> -> -> -> H. split; [reflexivity|exact H].
Qed.

Lemma found_terminator_same c1 c2 :
  same c1 c2 -> res_same (call_found_terminator c1) (call_found_terminator c2).
Proof.
  intros Hs. pose proof (same_fields _ _ Hs) as (Ha & Hd & Ht & Hf & Hb & Hc).
  destruct Hs as [Hs Hi].
  rewrite !call_found_terminator_eq, <- Hf.
  destruct (found_terminator c1).
  - rewrite !read_packetlen_eq, <- Hi.
    destruct (struct_unpack_I (concat (input c1))); cbn;
      repeat split; try discriminate.
    + unfold set_found_terminator, set_terminator_attr; cbn. congruence.
  - rewrite !read_milter_data_eq. unfold dispatched_state. cbn.
    rewrite <- Hi, <- Hd, <- Hs. apply res_same_refl.
Qed.

Lemma loop_unfold f c :
  handle_read_loop (S f) c =
  match ac_in_buffer c with
  | [] => mkRes (Ok tt) c []
  | _ =>
      if terminator c =? 0 then handle_read_loop f (collected (ac_in_buffer c) c)
      else if len (ac_in_buffer c) <? terminator c then
        handle_read_loop f
          (set_terminator_attr (terminator c - len (ac_in_buffer c))
             (collected (ac_in_buffer c) c))
      else (call_found_terminator ;; handle_read_loop f) (cut c)
  end.
Proof.
  destruct (ac_in_buffer c) as [|b buf] eqn:E.
  - apply loop_nil, E.
  - assert (Hne : ac_in_buffer c <> []) by congruence.
    rewrite <- E.
    destruct (Z.eqb_spec (terminator c) 0) as [H0|H0].
    + apply loop_collect_all; assumption.
    + destruct (Z.ltb_spec (len (ac_in_buffer c)) (terminator c)).
      * apply loop_short; assumption.
      * apply loop_cut; assumption.
Qed.

Lemma found_terminator_inv c a :
  out (call_found_terminator c) = Ok a -> 0 <= terminator c ->
  0 <= terminator (st (call_found_terminator c)) /\
  ac_in_buffer (st (call_found_terminator c)) = ac_in_buffer c.
Proof.
  rewrite call_found_terminator_eq. destruct (found_terminator c).
  - rewrite read_packetlen_eq.
    destruct (struct_unpack_I (concat (input c))) as [n|e|] eqn:E; cbn;
      try discriminate.
    intros _ _. split; [|reflexivity]. eapply struct_unpack_nonneg, E.
  - rewrite read_milter_data_eq. cbn.
    destruct (Dispatch (milter_dispatcher c) (concat (input c))) as [[v|e] d]; cbn.
    + destruct (sent_all v) as [[u|e|] t]; cbn; try discriminate.
      intros _ _. split; [unfold MILTER_LEN_BYTES; lia|reflexivity].
    + destruct e; cbn; try discriminate. intros _ H. split; [exact H|reflexivity].
Qed.

Lemma cut_buffer c :
  ac_in_buffer (cut c) = drop (Z.to_nat (terminator c)) (ac_in_buffer c).
Proof. reflexivity. Qed.

Lemma cut_terminator c : terminator (cut c) = 0.
Proof. reflexivity. Qed.

(** Fuel beyond the length of the buffer changes nothing. *)
Lemma loop_fuel f : forall f' c,
  0 <= terminator c ->
  (length (ac_in_buffer c) < f)%nat -> (length (ac_in_buffer c) < f')%nat ->
  handle_read_loop f c = handle_read_loop f' c.
Proof.
  induction f as [|f IH]; intros f' c Ht Hf Hf'; [lia|].
  destruct f' as [|f']; [lia|].
  rewrite !loop_unfold.
  destruct (ac_in_buffer c) as [|b buf] eqn:E; [reflexivity|].
  cbn [length] in Hf, Hf'.
  destruct (Z.eqb_spec (terminator c) 0) as [H0|H0].
  { apply IH; cbn; [lia|lia|lia]. }
  destruct (Z.ltb_spec (len (b :: buf)) (terminator c)) as [Hl|Hl].
  { apply IH; cbn; lia. }
  unfold bind.
  destruct (out (call_found_terminator (cut c))) as [a| |] eqn:Eo; try reflexivity.
  destruct (found_terminator_inv _ _ Eo) as [Ht' Hb']. { rewrite cut_terminator. lia. }
  assert (Hlen : (length (ac_in_buffer (st (call_found_terminator (cut c)))) <= length buf)%nat).
  { rewrite Hb', cut_buffer, E, length_drop. cbn [length]. 
    rewrite len_cons in Hl. pose proof (len_nonneg buf). lia. }
  rewrite (IH f'); [reflexivity|assumption|lia|lia].
Qed.

Lemma loop_ok_buffer f : forall c a,
  out (handle_read_loop f c) = Ok a -> ac_in_buffer (st (handle_read_loop f c)) = [].
Proof.
  induction f as [|f IH]; intros c a; [discriminate|].
  rewrite loop_unfold.
  destruct (ac_in_buffer c) as [|b buf] eqn:E; [intros _; exact E|].
  destruct (terminator c =? 0); [apply IH|].
  destruct (len (b :: buf) <? terminator c); [apply IH|].
  unfold bind.
  destruct (out (call_found_terminator (cut c))); cbn; try discriminate.
  apply IH.
Qed.

(** With no terminator, or one beyond the buffer, the loop only collects. *)
Lemma loop_collects f c :
  (length (ac_in_buffer c) < f)%nat ->
  terminator c = 0 \/ len (ac_in_buffer c) < terminator c ->
  handle_read_loop f c =
  mkRes (Ok tt)
    (match ac_in_buffer c with
     | [] => c
     | buf => set_terminator_attr (Z.max 0 (terminator c - len buf)) (collected buf c)
     end) [].
Proof.
  intros Hf Ht. destruct f as [|f]; [lia|].
  rewrite loop_unfold.
  destruct (ac_in_buffer c) as [|b buf] eqn:E; [reflexivity|].
  cbn [length] in Hf. destruct f as [|f]; [lia|].
  pose proof (len_nonneg (b :: buf)) as Hn. rewrite len_cons in Hn.
  destruct (Z.eqb_spec (terminator c) 0) as [H0|H0].
  - rewrite loop_unfold. cbn. rewrite H0.
    replace (Z.max 0 (0 - len (b :: buf))) with 0 by (rewrite len_cons; lia).
    destruct c; cbn in *; subst; reflexivity.
  - destruct Ht as [Ht|Ht]; [contradiction|].
    destruct (Z.ltb_spec (len (b :: buf)) (terminator c)); [|lia].
    rewrite loop_unfold. cbn.
    replace (Z.max 0 (terminator c - len (b :: buf)))
      with (terminator c - len (b :: buf)) by lia.
    reflexivity.
Qed.

Lemma res_same_trans {A} (r1 r2 r3 : res ConnectionHandler A) :
  res_same r1 r2 -> res_same r2 r3 -> res_same r1 r3.
Proof.
  intros (Ho & Ht & Hs) (Ho' & Ht' & Hs'). split; [congruence|].
  split; [congruence|].
  intros x Hx. destruct (Hs x Hx) as [H1 H2].
  rewrite Ho in Hx. destruct (Hs' x Hx) as [H3 H4]. split; congruence.
Qed.

Lemma collected_same buf c1 c2 : same c1 c2 -> same (collected buf c1) (collected buf c2).
Proof.
  intros H. pose proof (same_fields _ _ H) as (Ha & Hd & Ht & Hf & Hb & Hc).
  destruct H as [_ Hi]. apply same_intro; cbn; try assumption; try reflexivity.
  rewrite !concat_app. congruence.
Qed.

Lemma set_terminator_same t c1 c2 :
  same c1 c2 -> same (set_terminator_attr t c1) (set_terminator_attr t c2).
Proof.
  intros H. pose proof (same_fields _ _ H) as (Ha & Hd & Ht & Hf & Hb & Hc).
  destruct H as [_ Hi]. apply same_intro; cbn; assumption || reflexivity.
Qed.

Lemma cut_same c1 c2 : same c1 c2 -> same (cut c1) (cut c2).
Proof.
  intros H. pose proof (same_fields _ _ H) as (Ha & Hd & Ht & Hf & Hb & Hc).
  destruct H as [_ Hi]. apply same_intro; cbn; try assumption; try reflexivity.
  - congruence.
  - rewrite !concat_app. congruence.
Qed.

(** The loop does not see how [__input] is cut into pieces. *)
Lemma loop_same f : forall c1 c2,
  same c1 c2 -> res_same (handle_read_loop f c1) (handle_read_loop f c2).
Proof.
  induction f as [|f IH]; intros c1 c2 H.
  { split; [reflexivity|split; [reflexivity|discriminate]]. }
  pose proof (same_fields _ _ H) as (Ha & Hd & Ht & Hf & Hb & Hc).
  rewrite !loop_unfold, <- Hb, <- Ht.
  destruct (ac_in_buffer c1) as [|b buf].
  { split; [reflexivity|split; [reflexivity|intros; exact H]]. }
  destruct (terminator c1 =? 0).
  { apply IH, collected_same, H. }
  destruct (len (b :: buf) <? terminator c1).
  { apply IH, set_terminator_same, collected_same, H. }
  unfold bind.
  destruct (found_terminator_same _ _ (cut_same _ _ H)) as (Ho & Htr & Hs).
  rewrite <- Ho, <- Htr.
  destruct (out (call_found_terminator (cut c1))) as [a| |] eqn:E.
  - destruct (IH _ _ (Hs a eq_refl)) as (Ho' & Htr' & Hs').
    split; [exact Ho'|split; [cbn; f_equal; exact Htr'|exact Hs']].
  - split; [reflexivity|split; [reflexivity|discriminate]].
  - split; [reflexivity|split; [reflexivity|discriminate]].
Qed.

Lemma res_same_after {A} t (r1 r2 : res ConnectionHandler A) :
  res_same r1 r2 -> res_same (after t r1) (after t r2).
Proof.
  intros (Ho & Ht & Hs). split; [exact Ho|]. split; [cbn; f_equal; exact Ht|exact Hs].
Qed.

(** A callback followed by the loop, from two handlers that are the same. *)
Lemma found_then_loop_same c1 c2 F1 F2 :
  same c1 c2 -> 0 <= terminator c1 ->
  (length (ac_in_buffer c1) < F1)%nat -> (length (ac_in_buffer c1) < F2)%nat ->
  res_same ((call_found_terminator ;; handle_read_loop F1) c1)
           ((call_found_terminator ;; handle_read_loop F2) c2).
Proof.
  intros Hs Ht H1 H2.
  destruct (found_terminator_same _ _ Hs) as (Ho & Htr & Hst).
  destruct (out (call_found_terminator c1)) as [a| |] eqn:E.
  - rewrite (bind_after _ _ c1 a E).
    rewrite (bind_after _ _ c2 a) by congruence. rewrite <- Htr.
    apply res_same_after.
    destruct (found_terminator_inv _ _ E Ht) as [Ht' Hb'].
    rewrite (loop_fuel F1 F2); try assumption; try (rewrite Hb'; assumption).
    apply loop_same, (Hst a eq_refl).
  - unfold bind. rewrite <- Ho, E. cbn.
    split; [reflexivity|split; [exact Htr|discriminate]].
  - unfold bind. rewrite <- Ho, E. cbn.
    split; [reflexivity|split; [exact Htr|discriminate]].
Qed.

Lemma bind_refill {A} b (k : M ConnectionHandler A) c :
  (refill b ;; k) c = k (set_ac_in_buffer b c).
Proof. reflexivity. Qed.

Lemma set_buffer_twice b b' c :
  set_ac_in_buffer b (set_ac_in_buffer b' c) = set_ac_in_buffer b c.
Proof. reflexivity. Qed.

Ltac fields :=
  cbn [ac_in_buffer set_ac_in_buffer terminator set_terminator_attr collected
       set_input input addr milter_dispatcher found_terminator connected cut
       set_found_terminator set_connected set_milter_dispatcher
       out st tr].

Ltac solve_same :=
  apply same_intro; fields;
  first [ reflexivity
        | rewrite ?app_nil_r; reflexivity
        | rewrite !concat_app; cbn [concat]; rewrite ?app_nil_r, <- ?app_assoc;
          reflexivity
        | idtac ].

(** Running the loop on [b1 ++ b2] is running it on [b1], then on [b2]. *)
Lemma loop_split f1 : forall b1 b2 c F F2,
  0 <= terminator c ->
  (length b1 < f1)%nat -> (length (b1 ++ b2) < F)%nat -> (length b2 < F2)%nat ->
  res_same (handle_read_loop F (set_ac_in_buffer (b1 ++ b2) c))
           ((handle_read_loop f1 ;; refill b2 ;; handle_read_loop F2)
              (set_ac_in_buffer b1 c)).
Proof.
  induction f1 as [|f1 IH]; intros b1 b2 c F F2 Ht H1 HF H2; [lia|].
  destruct b1 as [|x b1].
  { (* nothing in the first part *)
    rewrite bind_after with (a := tt) by (rewrite loop_unfold; reflexivity).
    rewrite loop_unfold. cbn [app ac_in_buffer set_ac_in_buffer].
    unfold after, bind, refill, modify. cbn.
    rewrite (loop_fuel F F2); [apply res_same_refl| | |]; cbn; auto. }
  assert (HB : (1 <= length (x :: b1))%nat) by (cbn; lia).
  remember (x :: b1) as B eqn:EB.
  assert (HBne : B <> []) by (subst B; discriminate).
  assert (HBBne : B ++ b2 <> []) by (subst B; discriminate).
  rewrite length_app in HF.
  destruct (Z.eq_dec (terminator c) 0) as [H0|H0];
    [|destruct (Z.lt_ge_cases (len (B ++ b2)) (terminator c)) as [Hsh|Hge]].
  - (* no terminator: everything is collected *)
    rewrite loop_collects; [|fields; rewrite length_app; lia|fields; auto].
    rewrite bind_after with (a := tt);
      [|rewrite loop_collects; [reflexivity|fields; lia|fields; auto]].
    rewrite loop_collects; [|fields; lia|fields; auto].
    unfold after, bind, refill, modify. cbn [out st tr app]. fields.
    destruct B as [|y B]; [congruence|]. cbn [app]. fields.
    rewrite H0. change (Z.max 0 (0 - len (y :: B))) with 0.
    rewrite loop_collects; [|fields; lia|fields; auto].
    cbn [out st tr app].
    split; [reflexivity|]. split; [reflexivity|]. intros _ _.
    destruct b2 as [|z b2]; fields; solve_same.
  - (* the terminator lies beyond both parts *)
    rewrite len_app in Hsh. pose proof (len_nonneg b2) as Hb2.
    assert (HlB : len B = Z.of_nat (length B)) by reflexivity.
    rewrite loop_collects; [|fields; rewrite length_app; lia|fields; rewrite len_app; auto].
    rewrite bind_after with (a := tt);
      [|rewrite loop_collects; [reflexivity|fields; lia|fields; right; lia]].
    rewrite loop_collects; [|fields; lia|fields; right; lia].
    unfold after, bind, refill, modify. cbn [out st tr app]. fields.
    destruct B as [|y B]; [congruence|]. cbn [app]. fields.
    rewrite loop_collects; [|fields; lia|fields; right; lia].
    cbn [out st tr app].
    split; [reflexivity|]. split; [reflexivity|]. intros _ _.
    fields.
    destruct b2 as [|z b2]; fields; solve_same.
    change (y :: B ++ z :: b2) with ((y :: B) ++ z :: b2). rewrite len_app. lia.
  - (* the terminator falls inside *)
    rewrite len_app in Hge. pose proof (len_nonneg b2) as Hb2.
    assert (HlB : len B = Z.of_nat (length B)) by reflexivity.
    assert (Hlb2 : len b2 = Z.of_nat (length b2)) by reflexivity.
    destruct F as [|F]; [lia|].
    rewrite loop_cut; fields; auto; [|rewrite len_app; lia].
    destruct (Z.le_gt_cases (terminator c) (len B)) as [Hin|Hout].
    + (* inside the first part *)
      assert (Hn : (Z.to_nat (terminator c) <= length B)%nat) by lia.
      rewrite (bind_ext (handle_read_loop (S f1))
                 (call_found_terminator ;; handle_read_loop f1) _
                 (set_ac_in_buffer B c) (cut (set_ac_in_buffer B c)))
        by (apply loop_cut; fields; auto).
      rewrite bind_assoc.
      set (X := set_terminator_attr 0
                  (set_input (input c ++ [take (Z.to_nat (terminator c)) B]) c)).
      replace (cut (set_ac_in_buffer (B ++ b2) c))
        with (set_ac_in_buffer (drop (Z.to_nat (terminator c)) B ++ b2) X).
      2:{ unfold cut, X. fields. rewrite take_app_le, drop_app_le by lia. reflexivity. }
      replace (cut (set_ac_in_buffer B c))
        with (set_ac_in_buffer (drop (Z.to_nat (terminator c)) B) X) by reflexivity.
      destruct (out (call_found_terminator X)) as [a| |] eqn:E.
      * destruct (found_terminator_inv _ _ E) as [Ht' _]; [cbn; lia|].
        rewrite !(bind_after call_found_terminator _ _ a)
          by (rewrite found_terminator_buffer; exact E).
        rewrite !found_terminator_buffer. cbn [res_map out st tr].
        apply res_same_after.
        apply IH; try assumption.
        -- rewrite length_drop. lia.
        -- rewrite length_app, length_drop. lia.
      * rewrite !(bind_raise call_found_terminator _ _ e)
          by (rewrite found_terminator_buffer; exact E).
        rewrite !found_terminator_buffer.
        split; [reflexivity|split; [reflexivity|discriminate]].
      * rewrite !(bind_fuel call_found_terminator)
          by (rewrite found_terminator_buffer; exact E).
        rewrite !found_terminator_buffer.
        split; [reflexivity|split; [reflexivity|discriminate]].
    + (* inside the second part *)
      rewrite (bind_after (handle_read_loop (S f1)) _ (set_ac_in_buffer B c) tt);
        [|rewrite loop_collects; [reflexivity|fields; lia|fields; right; lia]].
      rewrite (loop_collects (S f1)); [|fields; lia|fields; right; lia].
      cbn [out st tr]. rewrite after_nil, bind_refill. fields.
      destruct B as [|y B]; [congruence|]. remember (y :: B) as B' eqn:EB'.
      rewrite Z.max_r by lia.
      destruct F2 as [|F2]; [lia|].
      assert (Hb2ne : b2 <> []).
      { intros ->. cbn in Hlb2. lia. }
      rewrite (loop_cut F2); fields; auto; [|lia|lia].
      assert (Hk : Z.to_nat (terminator c) = (length B' + Z.to_nat (terminator c - len B'))%nat) by lia.
      apply found_then_loop_same.
      * apply same_intro; fields; try reflexivity.
        -- rewrite Hk, drop_app_add'; reflexivity.
        -- rewrite !concat_app. cbn. rewrite !app_nil_r, <- !app_assoc. f_equal.
           rewrite Hk, take_app_add'; reflexivity.
      * fields. lia.
      * fields. rewrite length_drop, length_app. lia.
      * fields. rewrite length_drop, length_app. lia.
Qed.

Lemma sent_fuel v : (sent v).1 <> OutOfFuel.
Proof.
  destruct v as [|[|b r]|[|b r]|[|x l]]; cbn; try discriminate.
  all: destruct (struct_pack_I _) eqn:E; cbn; try discriminate.
  all: destruct (struct_pack_fuel _ E).
Qed.

Lemma sent_each_fuel rs : (sent_each rs).1 <> OutOfFuel.
Proof.
  induction rs as [|r rs IH]; cbn; [discriminate|].
  pose proof (sent_fuel r) as H.
  destruct (sent r) as [[u|e|] t]; cbn in *; try discriminate; try congruence.
  destruct (sent_each rs); cbn in *. exact IH.
Qed.

Lemma sent_all_fuel v : (sent_all v).1 <> OutOfFuel.
Proof.
  destruct v as [|b|b|rs]; unfold sent_all; try discriminate.
  1,2: destruct b; unfold truthy; try discriminate; apply sent_fuel.
  apply sent_each_fuel.
Qed.

(** What a callback leaves untouched or keeps true. *)
Lemma found_terminator_keeps c :
  let r := call_found_terminator c in
  addr (st r) = addr c /\ out r <> OutOfFuel /\
  (forall a, out r = Ok a -> terminator c = 0 ->
     connected (st r) = connected c \/
     (connected (st r) = false /\ terminator (st r) = 0)).
Proof.
  cbn zeta. rewrite call_found_terminator_eq. destruct (found_terminator c).
  - rewrite read_packetlen_eq.
    pose proof (struct_unpack_fuel (concat (input c))) as Hf.
    destruct (struct_unpack_I (concat (input c))) as [n|e|]; cbn;
      repeat split; try discriminate; try congruence; auto.
  - rewrite read_milter_data_eq. cbn zeta.
    destruct (Dispatch (milter_dispatcher c) (concat (input c))) as [[v|e] d]; cbn.
    + pose proof (sent_all_fuel v) as Hf.
      destruct (sent_all v) as [[u|e|] t]; cbn in *;
        repeat split; try discriminate; try congruence; auto.
    + destruct e; cbn; repeat split; try discriminate; auto.
Qed.

Lemma loop_addr f : forall c, addr (st (handle_read_loop f c)) = addr c.
Proof.
  induction f as [|f IH]; intros c; [reflexivity|].
  rewrite loop_unfold.
  destruct (ac_in_buffer c) as [|b buf]; [reflexivity|].
  destruct (terminator c =? 0); [rewrite IH; reflexivity|].
  destruct (len (b :: buf) <? terminator c); [rewrite IH; reflexivity|].
  destruct (found_terminator_keeps (cut c)) as (Ha & _ & _).
  unfold bind. destruct (out (call_found_terminator (cut c))); cbn [out st tr]; try exact Ha.
  rewrite IH. exact Ha.
Qed.

Lemma loop_no_fuel f : forall c,
  0 <= terminator c -> (length (ac_in_buffer c) < f)%nat ->
  out (handle_read_loop f c) <> OutOfFuel.
Proof.
  induction f as [|f IH]; intros c Ht Hf; [lia|].
  rewrite loop_unfold.
  destruct (ac_in_buffer c) as [|b buf] eqn:E; [discriminate|].
  cbn [length] in Hf. pose proof (len_nonneg buf) as Hn.
  destruct (Z.eqb_spec (terminator c) 0) as [H0|H0].
  { apply IH; fields; cbn [length]; lia. }
  destruct (Z.ltb_spec (len (b :: buf)) (terminator c)) as [Hl|Hl].
  { apply IH; fields; cbn [length]; lia. }
  destruct (found_terminator_keeps (cut c)) as (_ & Hnf & _).
  unfold bind.
  destruct (out (call_found_terminator (cut c))) as [a| |] eqn:Eo; cbn [out st tr];
    try discriminate; try congruence.
  destruct (found_terminator_inv _ _ Eo) as [Ht' Hb']; [fields; lia|].
  apply IH; [exact Ht'|].
  rewrite Hb'. fields. rewrite E, length_drop. cbn [length].
  rewrite len_cons in Hl. unfold len in *. lia.
Qed.

Lemma loop_terminator f : forall c a,
  out (handle_read_loop f c) = Ok a -> 0 <= terminator c ->
  0 <= terminator (st (handle_read_loop f c)).
Proof.
  induction f as [|f IH]; intros c a; [discriminate|].
  rewrite loop_unfold.
  destruct (ac_in_buffer c) as [|b buf] eqn:E; [intros _ H; exact H|].
  destruct (Z.eqb_spec (terminator c) 0) as [H0|H0].
  { intros H Ht. eapply IH; [exact H|fields; lia]. }
  destruct (Z.ltb_spec (len (b :: buf)) (terminator c)) as [Hl|Hl].
  { intros H Ht. eapply IH; [exact H|fields; lia]. }
  unfold bind.
  destruct (out (call_found_terminator (cut c))) as [a'| |] eqn:Eo; cbn [out st tr];
    try discriminate.
  intros H Ht. destruct (found_terminator_inv _ _ Eo) as [Ht' _]; [fields; lia|].
  eapply IH; eassumption.
Qed.

(** A handler that the loop itself closed has no terminator left. *)
Lemma loop_closed f : forall c a,
  out (handle_read_loop f c) = Ok a ->
  (connected c = false -> terminator c = 0) ->
  connected (st (handle_read_loop f c)) = false ->
  terminator (st (handle_read_loop f c)) = 0.
Proof.
  induction f as [|f IH]; intros c a; [discriminate|].
  rewrite loop_unfold.
  destruct (ac_in_buffer c) as [|b buf] eqn:E; [intros _ H; exact H|].
  destruct (Z.eqb_spec (terminator c) 0) as [H0|H0].
  { intros H Hq. eapply IH; [exact H|fields; auto]. }
  destruct (Z.ltb_spec (len (b :: buf)) (terminator c)) as [Hl|Hl].
  { intros H Hq. eapply IH; [exact H|fields]. intros Hc. specialize (Hq Hc). lia. }
  unfold bind.
  destruct (out (call_found_terminator (cut c))) as [a'| |] eqn:Eo; cbn [out st tr];
    try discriminate.
  intros H Hq. eapply IH; [exact H|].
  destruct (found_terminator_keeps (cut c)) as (_ & _ & Hk).
  destruct (Hk a' Eo eq_refl) as [Hc|[Hc Ht]].
  - intros Hc'. rewrite Hc in Hc'. fields. cbn in Hc'. specialize (Hq Hc'). lia.
  - intros _. exact Ht.
Qed.

Lemma handle_error_eq e c :
  handle_error e c = mkRes (Ok tt) (set_connected false c) (error_events (addr c) e).
Proof. reflexivity. Qed.

(** A read event that brings data: the loop runs on the grown buffer,
    and whatever it raises ends in [handle_error]. *)
Lemma read_data d c :
  d <> [] ->
  read (recv_data d) c =
  let r := handle_read_loop (S (length (ac_in_buffer c ++ d)))
             (set_ac_in_buffer (ac_in_buffer c ++ d) c) in
  match out r with
  | Raise e =>
      mkRes (Ok tt) (set_connected false (st r))
        (EvRecv d :: tr r ++ error_events (addr (st r)) e)
  | _ => after [EvRecv d] r
  end.
Proof.
  intros Hd. destruct d as [|x d]; [congruence|].
  unfold read, handle_read, try_except, bind, recv, gets, modify, emit, ret.
  cbn -[handle_read_loop error_events].
  set (r := handle_read_loop _ _).
  destruct (out r) as [a|e|] eqn:E; cbn -[handle_read_loop error_events];
    rewrite ?E; try reflexivity.
  all: unfold after; rewrite E; reflexivity.
Qed.

Lemma read_data_settled d c :
  d <> [] -> settled c ->
  read (recv_data d) c =
  let r := handle_read_loop (S (length d)) (set_ac_in_buffer d c) in
  match out r with
  | Raise e =>
      mkRes (Ok tt) (set_connected false (st r))
        (EvRecv d :: tr r ++ error_events (addr c) e)
  | _ => after [EvRecv d] r
  end.
Proof.
  intros Hd [Hb Ht]. rewrite read_data by assumption. rewrite Hb. cbn [app].
  cbn zeta. rewrite loop_addr. reflexivity.
Qed.

Lemma read_data_ok d c :
  d <> [] -> settled c ->
  out (read (recv_data d) c) = Ok tt /\
  (connected (st (read (recv_data d) c)) = true -> settled (st (read (recv_data d) c))).
Proof.
  intros Hd Hs. rewrite read_data_settled by assumption. cbn zeta.
  destruct Hs as [Hb Ht].
  pose proof (loop_no_fuel (S (length d)) (set_ac_in_buffer d c)) as Hnf.
  destruct (out (handle_read_loop (S (length d)) (set_ac_in_buffer d c)))
    as [[]|e|] eqn:E; cbn [out st after].
  - split; [exact E|]. intros _. split.
    + eapply loop_ok_buffer, E.
    + eapply loop_terminator; [exact E|exact Ht].
  - split; [reflexivity|]. cbn. discriminate.
  - exfalso. apply Hnf; fields; auto.
Qed.

Lemma serve_cons r rs c :
  connected c = true -> serve (r :: rs) c = (read r ;; serve rs) c.
Proof.
  intros H. cbn [serve]. unfold bind at 1, gets. cbn [out st tr]. rewrite H.
  reflexivity.
Qed.

Lemma serve_closed rs c :
  connected c = false -> serve rs c = mkRes (Ok tt) c [].
Proof.
  intros H. destruct rs as [|r rs]; [reflexivity|].
  cbn [serve]. unfold bind, gets. cbn [out st tr]. rewrite H. reflexivity.
Qed.

Lemma observable_app t1 t2 : observable (t1 ++ t2) = observable t1 ++ observable t2.
Proof. apply List.filter_app. Qed.

Lemma observable_recv d t : observable (EvRecv d :: t) = observable t.
Proof. reflexivity. Qed.

Ltac observe :=
  cbn [after out st tr app];
  repeat rewrite ?observable_app, ?observable_recv, ?app_nil_r, <- ?app_assoc;
  try reflexivity.

Lemma ev_same_refl {A} (r : res ConnectionHandler A) : ev_same r r.
Proof. repeat split. Qed.

Lemma ev_same_trans {A} (r1 r2 r3 : res ConnectionHandler A) :
  ev_same r1 r2 -> ev_same r2 r3 -> ev_same r1 r3.
Proof.
  intros (Ho & Ht & Hc & Hs) (Ho' & Ht' & Hc' & Hs').
  split; [congruence|]. split; [congruence|]. split; [congruence|].
  intros H. specialize (Hs H). rewrite Hc in H. specialize (Hs' H).
  destruct Hs, Hs'. split; congruence.
Qed.

Lemma ev_same_after {A} t (r1 r2 : res ConnectionHandler A) :
  ev_same r1 r2 -> ev_same (after t r1) (after t r2).
Proof.
  intros (Ho & Ht & Hc & Hs). split; [exact Ho|].
  split; [cbn; rewrite !observable_app; congruence|]. split; assumption.
Qed.

Lemma serve_one d c :
  d <> [] -> settled c -> connected c = true ->
  serve [recv_data d] c = read (recv_data d) c.
Proof.
  intros Hd Hs Hc. rewrite serve_cons by assumption.
  destruct (read_data_ok d c Hd Hs) as [Ho _].
  rewrite (bind_after _ _ _ tt Ho). unfold after. cbn [serve ret out st tr].
  rewrite app_nil_r. symmetry. apply res_eta, Ho.
Qed.

(** Two reads in a row are seen as one read of the joined data. *)
Lemma serve_merge d1 d2 c :
  d1 <> [] -> d2 <> [] -> settled c -> connected c = true ->
  ev_same (serve [recv_data d1; recv_data d2] c) (serve [recv_data (d1 ++ d2)] c).
Proof.
  intros H1 H2 Hs Hc.
  assert (H12 : d1 ++ d2 <> []) by (destruct d1; [congruence|discriminate]).
  rewrite (serve_one (d1 ++ d2)) by assumption.
  rewrite serve_cons by assumption.
  destruct (read_data_ok d1 c H1 Hs) as [Ho1 Hs1].
  rewrite (bind_after _ _ _ tt Ho1).
  rewrite (read_data_settled (d1 ++ d2)) by assumption. cbn zeta.
  revert Ho1 Hs1. rewrite (read_data_settled d1) by assumption. cbn zeta.
  pose proof (loop_split (S (length d1)) d1 d2 c (S (length (d1 ++ d2)))
                (S (length d2)) (proj2 Hs) (Nat.lt_succ_diag_r _)
                (Nat.lt_succ_diag_r _) (Nat.lt_succ_diag_r _)) as (HO & HT & HS).
  pose proof (loop_no_fuel (S (length d1)) (set_ac_in_buffer d1 c)
                (proj2 Hs) (Nat.lt_succ_diag_r _)) as Hnf1.
  set (L := handle_read_loop (S (length (d1 ++ d2))) (set_ac_in_buffer (d1 ++ d2) c)) in *.
  set (r1 := handle_read_loop (S (length d1)) (set_ac_in_buffer d1 c)) in *.
  destruct (out r1) as [[]|e|] eqn:E1; [| |congruence].
  - (* the first read went through *)
    intros _ Hs1. cbn [after out st tr] in Hs1 |- *.
    rewrite (bind_after _ _ _ tt E1), bind_refill in HO, HT, HS.
    cbn [after out st tr] in HO, HT, HS. fold r1 in HO, HT, HS.
    assert (Hb1 : ac_in_buffer (st r1) = []) by (eapply loop_ok_buffer, E1).
    destruct (connected (st r1)) eqn:Ec1.
    + (* and the channel is still open: the second read is delivered *)
      specialize (Hs1 eq_refl).
      rewrite (serve_one d2) by assumption.
      rewrite (read_data_settled d2) by assumption. cbn zeta.
      assert (Ha1 : addr (st r1) = addr c) by (unfold r1; rewrite loop_addr; reflexivity).
      rewrite Ha1.
      set (r2 := handle_read_loop (S (length d2)) (set_ac_in_buffer d2 (st r1))) in *.
      rewrite HO.
      destruct (out r2) as [[]|e|] eqn:E2.
      * split; [cbn [after out st tr]; congruence|]. split.
        { cbn [after out st tr]. rewrite HT. observe. }
        cbn [after out st tr].
        pose proof (HS tt HO) as Hsm. pose proof (same_fields _ _ Hsm) as (_&_&_&_&_&Hcn).
        split; [symmetry; exact Hcn|]. intros _.
        destruct Hsm as [Ha Hb]. split; [symmetry; exact Ha|symmetry; exact Hb].
      * split; [cbn [after out st tr]; congruence|]. split.
        { cbn [after out st tr]. rewrite HT. observe. }
        cbn [after out st tr]. split; [reflexivity|discriminate].
      * exfalso. eapply (loop_no_fuel (S (length d2)) (set_ac_in_buffer d2 (st r1)));
          [apply Hs1|fields; lia|exact E2].
    + (* the channel closed during the first read: nothing more arrives *)
      rewrite serve_closed by exact Ec1. cbn [out st tr].
      assert (Ht0 : terminator (st r1) = 0).
      { eapply loop_closed; [exact E1| |exact Ec1]. fields. congruence. }
      rewrite (loop_collects (S (length d2)) (set_ac_in_buffer d2 (st r1)))
        in HO, HT, HS by (fields; first [lia|left; exact Ht0]).
      cbn [out st tr] in HO, HT, HS. rewrite HO.
      split; [cbn [after out st tr]; congruence|]. split.
      { cbn [after out st tr]. rewrite HT. observe. }
      pose proof (HS tt HO) as Hsm. pose proof (same_fields _ _ Hsm) as (_&_&_&_&_&Hcn).
      cbn [after out st tr].
      assert (Hcl : connected (st L) = false).
      { rewrite Hcn. destruct d2; fields; exact Ec1. }
      split; [congruence|]. rewrite Ec1. discriminate.
  - (* the first read raised: the channel is closed by [handle_error] *)
    intros _ _. cbn [out st tr].
    rewrite serve_closed by reflexivity. cbn [after out st tr].
    rewrite (bind_raise _ _ _ e E1) in HO, HT. cbn [out st tr] in HO, HT.
    rewrite HO. split; [cbn [after out st tr]; congruence|]. split.
    { cbn [out st tr]. rewrite HT. observe. }
    cbn [out st tr]. split; [reflexivity|discriminate].
Qed.

Lemma concat_nonempty (ds : list bytes) :
  ds <> [] -> Forall (fun d => d <> []) ds -> concat ds <> [].
Proof.
  intros Hne H. destruct H as [|d ds Hd _]; [congruence|].
  cbn. destruct d; [congruence|discriminate].
Qed.

(** However the reads cut the byte stream, the channel does what it does
    when the whole stream arrives in one read. *)
Lemma serve_chunks ds : forall c,
  ds <> [] -> Forall (fun d => d <> []) ds -> settled c -> connected c = true ->
  ev_same (serve (map recv_data ds) c) (serve [recv_data (concat ds)] c).
Proof.
  induction ds as [|d ds IH]; intros c Hne Hall Hs Hc; [congruence|].
  inversion Hall as [|? ? Hd Hall']; subst.
  destruct ds as [|d' ds].
  { cbn [concat map]. rewrite app_nil_r. apply ev_same_refl. }
  assert (Hne' : d' :: ds <> []) by discriminate.
  pose proof (concat_nonempty _ Hne' Hall') as Hcat.
  eapply ev_same_trans; [|apply (serve_merge d (concat (d' :: ds))); assumption].
  cbn [map]. rewrite !serve_cons by assumption.
  destruct (read_data_ok d c Hd Hs) as [Ho Hs1].
  rewrite !(bind_after _ _ _ tt Ho). apply ev_same_after.
  destruct (connected (st (read (recv_data d) c))) eqn:Ec.
  - apply (IH _ Hne' Hall' (Hs1 eq_refl) Ec).
  - rewrite !serve_closed by exact Ec. apply ev_same_refl.
Qed.

Lemma awaiting_length_init peer mc ctx : awaiting_length (__init__ peer mc ctx).
Proof. repeat split. Qed.

Lemma awaiting_length_settled c : awaiting_length c -> settled c.
Proof. intros (_ & Ht & _ & Hb). split; [exact Hb|rewrite Ht; unfold MILTER_LEN_BYTES; lia]. Qed.

(** From a length header to the complete payload, in two turns of the loop. *)
Lemma loop_frame f p rest c :
  awaiting_length c -> p <> [] -> len p <= 4294967295 ->
  handle_read_loop (S (S f)) (set_ac_in_buffer (encode_frame p ++ rest) c) =
  (read_milter_data ;; handle_read_loop f) (payload_ready p rest c).
Proof.
  intros (Hf & Ht & Hi & Hb) Hp Hl.
  destruct (encode_frame_eq p Hl) as (h & Hh & Hh4 & Hu & He).
  rewrite He, <- app_assoc.
  destruct h as [|b3 [|b2 [|b1 [|b0 [|]]]]]; try discriminate Hh4.
  destruct c as [a d i t cb b conn]. cbn in Hf, Ht, Hi, Hb. subst i t cb b.
  assert (Hp1 : 1 <= len p).
  { destruct p; [congruence|]. rewrite len_cons. pose proof (len_nonneg p). lia. }
  rewrite loop_cut; fields.
  2:{ discriminate. }
  2:{ discriminate. }
  2:{ change ([b3; b2; b1; b0] ++ p ++ rest) with ([b3; b2; b1; b0] ++ (p ++ rest)).
      rewrite len_app. pose proof (len_nonneg (p ++ rest)).
      change (len [b3; b2; b1; b0]) with 4. unfold MILTER_LEN_BYTES. lia. }
  unfold cut. fields. change (Z.to_nat MILTER_LEN_BYTES) with 4%nat.
  cbn [app firstn skipn]. rewrite take_0, drop_0.
  rewrite (bind_after _ _ _ tt).
  2:{ rewrite call_found_terminator_eq. fields. rewrite read_packetlen_eq. fields.
      cbn [concat app]. rewrite Hu. reflexivity. }
  rewrite call_found_terminator_eq. fields. rewrite read_packetlen_eq. fields.
  cbn [concat app]. rewrite Hu. fields. rewrite after_nil.
  rewrite loop_cut; fields.
  - unfold cut, payload_ready. fields.
    replace (Z.to_nat (len p)) with (length p) by (unfold len; lia).
    rewrite take_app_length, drop_app_length. reflexivity.
  - destruct p; [congruence|discriminate].
  - lia.
  - rewrite len_app. pose proof (len_nonneg rest). lia.
Qed.

Lemma dispatched_app t1 t2 : dispatched (t1 ++ t2) = dispatched t1 ++ dispatched t2.
Proof. unfold dispatched. apply omap_app. Qed.

Lemma dispatched_observable t : dispatched (observable t) = dispatched t.
Proof.
  induction t as [|e t IH]; [reflexivity|].
  unfold dispatched, observable in *.
  destruct e; cbn; rewrite ?IH; reflexivity.
Qed.

Lemma sent_dispatched v : dispatched (sent v).2 = [].
Proof.
  destruct v as [|[|b r]|[|b r]|[|x l]]; cbn; try reflexivity.
  all: destruct (struct_pack_I _); reflexivity.
Qed.

Lemma sent_each_dispatched rs : dispatched (sent_each rs).2 = [].
Proof.
  induction rs as [|r rs IH]; [reflexivity|]. cbn [sent_each].
  pose proof (sent_dispatched r) as H.
  destruct (sent r) as [[u|e|] t]; cbn [fst snd] in *; try exact H.
  destruct (sent_each rs) as [o t']. cbn [fst snd] in *.
  rewrite dispatched_app, H, IH. reflexivity.
Qed.

Lemma sent_all_dispatched v : dispatched (sent_all v).2 = [].
Proof.
  destruct v as [|b|b|rs]; unfold sent_all; try reflexivity.
  1,2: destruct b; unfold truthy; try reflexivity; apply sent_dispatched.
  apply sent_each_dispatched.
Qed.

(** [read_milter_data] dispatches the joined input, once. *)
Lemma read_milter_data_dispatched c :
  dispatched (tr (read_milter_data c)) = [concat (input c)].
Proof.
  rewrite read_milter_data_eq. cbn zeta.
  destruct (Dispatch (milter_dispatcher c) (concat (input c))) as [[v|e] d]; cbn [fst snd].
  - pose proof (sent_all_dispatched v) as H.
    destruct (sent_all v) as [[u|e|] t]; cbn [fst snd out st tr] in *.
    all: rewrite dispatched_app, H; reflexivity.
  - destruct e; reflexivity.
Qed.

Lemma read_milter_data_buffer c :
  ac_in_buffer (st (read_milter_data c)) = ac_in_buffer c.
Proof.
  rewrite read_milter_data_eq. cbn zeta.
  destruct (Dispatch (milter_dispatcher c) (concat (input c))) as [[v|e] d]; cbn [fst snd].
  - destruct (sent_all v) as [[u|e|] t]; reflexivity.
  - destruct e; reflexivity.
Qed.

Lemma read_milter_data_addr c : addr (st (read_milter_data c)) = addr c.
Proof.
  rewrite read_milter_data_eq. cbn zeta.
  destruct (Dispatch (milter_dispatcher c) (concat (input c))) as [[v|e] d]; cbn [fst snd].
  - destruct (sent_all v) as [[u|e|] t]; reflexivity.
  - destruct e; reflexivity.
Qed.

(** One frame with a payload, in a single read. *)
Lemma serve_frame p c :
  awaiting_length c -> connected c = true -> p <> [] -> len p <= 4294967295 ->
  dispatched (tr (serve [recv_data (encode_frame p)] c)) = [p].
Proof.
  intros Ha Hc Hp Hl.
  destruct (encode_frame_eq p Hl) as (h & Hh & Hh4 & Hu & He).
  assert (Hne : encode_frame p <> []).
  { rewrite He. destruct h; [discriminate Hh4|discriminate]. }
  rewrite serve_one, read_data_settled; auto using awaiting_length_settled.
  cbn zeta.
  assert (Hlen : exists f, length (encode_frame p) = S (S f)).
  { rewrite He, length_app, Hh4. cbn. eauto. }
  destruct Hlen as [f Hf]. rewrite Hf.
  rewrite <- (app_nil_r (encode_frame p)).
  rewrite (loop_frame (S f)) by assumption.
  pose proof (read_milter_data_dispatched (payload_ready p [] c)) as Hd.
  pose proof (read_milter_data_buffer (payload_ready p [] c)) as Hb.
  cbn [payload_ready input concat ac_in_buffer] in Hd, Hb. rewrite app_nil_r in Hd.
  unfold bind.
  destruct (out (read_milter_data (payload_ready p [] c))); cbn [out st tr after app].
  - rewrite loop_nil by exact Hb. cbn [out st tr].
    change (dispatched (tr (read_milter_data (payload_ready p [] c)) ++ []) = [p]).
    rewrite app_nil_r. exact Hd.
  - change (dispatched (tr (read_milter_data (payload_ready p [] c)) ++
                        error_events (addr c) e) = [p]).
    rewrite dispatched_app, Hd. reflexivity.
  - exact Hd.
Qed.

(** Round trip on the reactor side: a frame with a payload of 1 to 2^32-1
    bytes is dispatched as it was encoded, however the reads cut it. *)
Theorem async_frame_round_trip p ds c :
  awaiting_length c -> connected c = true ->
  p <> [] -> len p <= 4294967295 ->
  Forall (fun d => d <> []) ds -> concat ds = encode_frame p ->
  dispatched (tr (serve (map recv_data ds) c)) = [p].
Proof.
  intros Ha Hc Hp Hl Hall Hcat.
  assert (Hne : ds <> []).
  { intros ->. cbn in Hcat. destruct (encode_frame_eq p Hl) as (h & _ & Hh4 & _ & He).
    rewrite He in Hcat. destruct h; discriminate. }
  destruct (serve_chunks ds c Hne Hall (awaiting_length_settled _ Ha) Hc) as (_ & Ht & _).
  rewrite <- dispatched_observable, Ht, dispatched_observable, Hcat.
  apply serve_frame; assumption.
Qed.

Lemma loop_frames ps : forall c f,
  keeps_going -> awaiting_length c -> Forall frame_payload ps ->
  (length (concat (map encode_frame ps)) < f)%nat ->
  let r := handle_read_loop f (set_ac_in_buffer (concat (map encode_frame ps)) c) in
  out r = Ok tt /\ dispatched (tr r) = ps /\ awaiting_length (st r) /\
  connected (st r) = connected c.
Proof.
  induction ps as [|p ps IH]; intros c f Hk Ha Hall Hf; cbn zeta.
  { destruct f as [|f]; [lia|]. cbn [map concat]. rewrite loop_nil by reflexivity.
    cbn [out st tr]. destruct Ha as (H1 & H2 & H3 & H4). repeat split; assumption. }
  inversion Hall as [|? ? [Hp Hl] Hall']; subst.
  cbn [map concat] in *.
  destruct (encode_frame_eq p Hl) as (h & _ & Hh4 & _ & He).
  assert (Hlen : (4 <= length (encode_frame p))%nat).
  { rewrite He, length_app, Hh4. lia. }
  rewrite length_app in Hf.
  destruct f as [|[|f]]; [lia|lia|].
  rewrite loop_frame by assumption.
  set (c1 := payload_ready p (concat (map encode_frame ps)) c).
  pose proof (read_milter_data_eq c1) as E. cbn zeta in E.
  destruct (Hk (milter_dispatcher c1) (concat (input c1))) as (v & Hv & Hs).
  rewrite Hv, Hs in E.
  rewrite (bind_after _ _ _ tt) by (rewrite E; reflexivity).
  rewrite E. cbn [out st tr].
  set (c2 := set_ac_in_buffer [] (rearmed (dispatched_state c1))).
  change (rearmed (dispatched_state c1))
    with (set_ac_in_buffer (concat (map encode_frame ps)) c2).
  assert (Ha2 : awaiting_length c2) by (repeat split).
  destruct (IH c2 f Hk Ha2 Hall') as (Ho & Hd & Hst & Hc); [lia|].
  cbn [after out st tr]. split; [exact Ho|]. split; [|split; [exact Hst|exact Hc]].
  rewrite !dispatched_app, Hd, (sent_all_dispatched v). cbn.
  destruct Ha as (_ & _ & Hi & _). rewrite app_nil_r. reflexivity.
Qed.

(** Frames with payloads, back to back, are dispatched one by one and in
    order, however the reads cut the stream, as long as the dispatcher
    keeps the connection going. *)
Theorem async_frames_in_order ps ds c :
  keeps_going -> awaiting_length c -> connected c = true ->
  Forall frame_payload ps -> ps <> [] ->
  Forall (fun d => d <> []) ds -> concat ds = concat (map encode_frame ps) ->
  dispatched (tr (serve (map recv_data ds) c)) = ps.
Proof.
  intros Hk Ha Hc Hall Hps Hds Hcat.
  assert (Hne : concat (map encode_frame ps) <> []).
  { destruct Hall as [|p ps [Hp Hl] _]; [congruence|]. cbn.
    destruct (encode_frame_eq p Hl) as (h & _ & Hh4 & _ & He). rewrite He.
    destruct h; [discriminate Hh4|discriminate]. }
  assert (Hdne : ds <> []) by (intros ->; cbn in Hcat; congruence).
  destruct (serve_chunks ds c Hdne Hds (awaiting_length_settled _ Ha) Hc) as (_ & Ht & _).
  rewrite <- dispatched_observable, Ht, dispatched_observable, Hcat.
  rewrite serve_one, read_data_settled; auto using awaiting_length_settled.
  cbn zeta.
  destruct (loop_frames ps c (S (length (concat (map encode_frame ps)))) Hk Ha Hall)
    as (Ho & Hd & _); [lia|].
  rewrite Ho. cbn [after tr app]. exact Hd.
Qed.

(** *** After the close signal *)

Lemma sent_quiet v : quiet (sent v).2.
Proof.
  destruct v as [|[|b r]|[|b r]|[|x l]]; cbn; try reflexivity.
  all: destruct (struct_pack_I _); reflexivity.
Qed.

Lemma sent_each_quiet rs : quiet (sent_each rs).2.
Proof.
  induction rs as [|r rs IH]; [reflexivity|]. cbn [sent_each].
  pose proof (sent_quiet r) as H.
  destruct (sent r) as [[u|e|] t]; cbn [fst snd] in *; try exact H.
  destruct (sent_each rs) as [o t']. cbn [fst snd] in *. apply quiet_app. split; assumption.
Qed.

Lemma sent_all_quiet v : quiet (sent_all v).2.
Proof.
  destruct v as [|b|b|rs]; unfold sent_all; try reflexivity.
  1,2: destruct b; unfold truthy; try reflexivity; apply sent_quiet.
  apply sent_each_quiet.
Qed.

Lemma read_milter_data_trace c :
  terminator c = 0 ->
  quiet (tr (read_milter_data c)) \/ closed_by_signal (read_milter_data c).
Proof.
  intros Ht. rewrite read_milter_data_eq. cbn zeta.
  destruct (Dispatch (milter_dispatcher c) (concat (input c))) as [[v|e] d]; cbn [fst snd].
  - left. pose proof (sent_all_quiet v) as H.
    destruct (sent_all v) as [[u|e|] t]; cbn [fst snd out st tr] in *.
    all: apply (quiet_app [_; _] t); split; [reflexivity|exact H].
  - destruct e; try (left; reflexivity).
    right. split; [|split; [discriminate|split; [reflexivity|exact Ht]]].
    exists [EvLog DEBUG (MsgIn (concat (input c)))], (concat (input c)), reason.
    split; reflexivity.
Qed.

Lemma read_packetlen_quiet c : tr (read_packetlen c) = [].
Proof.
  rewrite read_packetlen_eq. destruct (struct_unpack_I _); reflexivity.
Qed.

(** Without a terminator the loop only collects: it records nothing. *)
Lemma loop_no_terminator f : forall c,
  terminator c = 0 ->
  tr (handle_read_loop f c) = [] /\ (forall e, out (handle_read_loop f c) <> Raise e) /\
  connected (st (handle_read_loop f c)) = connected c /\
  terminator (st (handle_read_loop f c)) = 0.
Proof.
  induction f as [|f IH]; intros c Ht.
  { repeat split; try discriminate. exact Ht. }
  rewrite loop_unfold.
  destruct (ac_in_buffer c) as [|b buf]; [repeat split; try discriminate; exact Ht|].
  rewrite Ht. cbn [Z.eqb]. apply (IH (collected (b :: buf) c)). exact Ht.
Qed.

Lemma closed_by_signal_after {A} t (r : res ConnectionHandler A) :
  quiet t -> closed_by_signal r -> closed_by_signal (after t r).
Proof.
  intros Hq ((t1 & data & reason & Ht & Hq1) & Hr & Hc & Hz).
  split; [|split; [exact Hr|split; [exact Hc|exact Hz]]].
  exists (t ++ t1), data, reason. cbn [after tr]. rewrite Ht, app_assoc.
  split; [reflexivity|]. apply quiet_app. split; assumption.
Qed.

Lemma loop_trace f : forall c,
  quiet (tr (handle_read_loop f c)) \/ closed_by_signal (handle_read_loop f c).
Proof.
  induction f as [|f IH]; intros c; [left; reflexivity|].
  rewrite loop_unfold.
  destruct (ac_in_buffer c) as [|b buf]; [left; reflexivity|].
  destruct (terminator c =? 0); [apply IH|].
  destruct (len (b :: buf) <? terminator c); [apply IH|].
  assert (Hcb : quiet (tr (call_found_terminator (cut c))) \/
                closed_by_signal (call_found_terminator (cut c))).
  { rewrite call_found_terminator_eq. destruct (found_terminator (cut c)).
    - left. rewrite read_packetlen_quiet. reflexivity.
    - apply read_milter_data_trace. reflexivity. }
  destruct Hcb as [Hq|Hcl].
  - destruct (out (call_found_terminator (cut c))) as [a| |] eqn:E.
    + rewrite (bind_after _ _ _ a E).
      destruct (IH (st (call_found_terminator (cut c)))) as [Hq'|Hcl'].
      * left. cbn [after tr]. apply quiet_app. split; assumption.
      * right. apply closed_by_signal_after; assumption.
    + left. rewrite (bind_raise _ _ _ e E). exact Hq.
    + left. rewrite (bind_fuel _ _ _ E). exact Hq.
  - destruct Hcl as (Htail & Hr & Hc & Hz).
    destruct (loop_no_terminator f _ Hz) as (Ht' & Hr' & Hc' & Hz').
    right. unfold bind, closed_by_signal.
    destruct (out (call_found_terminator (cut c))) as [a|e|] eqn:E; cbn [out st tr].
    + rewrite Ht', app_nil_r. split; [exact Htail|].
      split; [exact Hr'|]. split; [congruence|exact Hz'].
    + destruct (Hr e eq_refl).
    + split; [exact Htail|]. split; [discriminate|]. split; assumption.
Qed.

Lemma signal_ended_closes_ok t : signal_ended t -> closes_ok t.
Proof. intros (t1 & data & reason & -> & Hq). apply closed_closes_ok, Hq. Qed.

Lemma signal_ended_not_quiet t : signal_ended t -> quiet t -> False.
Proof.
  intros (t1 & data & reason & -> & _) Hq. apply quiet_app in Hq as [_ Hq].
  discriminate Hq.
Qed.

(** [handle_read], by what the socket delivers. *)
Lemma handle_read_eq r c :
  handle_read r c =
  match r with
  | recv_raises errno =>
      mkRes (Ok tt) (set_connected false c) (error_events (addr c) (socket_error errno))
  | recv_data (x :: d) =>
      after [EvRecv (x :: d)]
        (handle_read_loop (S (length (ac_in_buffer c ++ x :: d)))
           (set_ac_in_buffer (ac_in_buffer c ++ x :: d) c))
  | recv_data [] =>
      after [EvRecv []; EvLog ERROR MsgUnhandledClose; EvClose]
        (handle_read_loop (S (length (ac_in_buffer c ++ [])))
           (set_ac_in_buffer (ac_in_buffer c ++ []) (set_connected false c)))
  | recv_disconnected =>
      after [EvLog ERROR MsgUnhandledClose; EvClose]
        (handle_read_loop (S (length (ac_in_buffer c ++ [])))
           (set_ac_in_buffer (ac_in_buffer c ++ []) (set_connected false c)))
  end.
Proof.
  destruct r as [[|x d]| |errno]; reflexivity.
Qed.

Lemma handle_read_trace r c :
  quiet (tr (handle_read r c)) \/ closed_by_signal (handle_read r c).
Proof.
  rewrite handle_read_eq.
  destruct r as [[|x d]| |errno]; try (left; reflexivity).
  all: match goal with |- context [after ?t (handle_read_loop ?f ?s)] =>
         destruct (loop_trace f s) as [Hq|Hc];
         [left; cbn [after tr]; apply quiet_app; split; [reflexivity|exact Hq]
         |right; apply closed_by_signal_after; [reflexivity|exact Hc]] end.
Qed.

Lemma read_trace r c :
  quiet (tr (read r c)) \/ closed_by_signal (read r c).
Proof.
  unfold read, try_except.
  destruct (handle_read_trace r c) as [Hq|Hc].
  - destruct (out (handle_read r c)) as [a|e|] eqn:E; auto.
    left. cbn [out st tr]. apply quiet_app. split; [exact Hq|reflexivity].
  - destruct Hc as (Ht & Hr & Hc & Hz).
    destruct (out (handle_read r c)) as [a|e|] eqn:E.
    + right. split; [exact Ht|]. split; [rewrite E; discriminate|]. split; assumption.
    + destruct (Hr e eq_refl).
    + right. split; [exact Ht|]. split; [rewrite E; discriminate|]. split; assumption.
Qed.

Lemma serve_trace rs : forall c,
  quiet (tr (serve rs c)) \/
  (signal_ended (tr (serve rs c)) /\ connected (st (serve rs c)) = false).
Proof.
  induction rs as [|r rs IH]; intros c; [left; reflexivity|].
  destruct (connected c) eqn:Ec; [|rewrite serve_closed by exact Ec; left; reflexivity].
  rewrite serve_cons by exact Ec.
  destruct (read_trace r c) as [Hq|((t1 & data & reason & Ht & Hq1) & Hr & Hc & Hz)].
  - destruct (out (read r c)) as [a| |] eqn:E.
    + rewrite (bind_after _ _ _ a E). cbn [after out st tr].
      destruct (IH (st (read r c))) as [Hq'|[(t1 & data & reason & Ht & Hq1) Hc]].
      * left. apply quiet_app. split; assumption.
      * right. split; [|exact Hc]. exists (tr (read r c) ++ t1), data, reason.
        rewrite Ht, app_assoc. split; [reflexivity|]. apply quiet_app. split; assumption.
    + left. rewrite (bind_raise _ _ _ e E). exact Hq.
    + left. rewrite (bind_fuel _ _ _ E). exact Hq.
  - right. unfold bind.
    destruct (out (read r c)) as [a|e|] eqn:E; cbn [out st tr].
    + rewrite serve_closed by exact Hc. cbn [out st tr]. rewrite app_nil_r.
      split; [|exact Hc]. exists t1, data, reason. split; assumption.
    + destruct (Hr e eq_refl).
    + split; [|exact Hc]. exists t1, data, reason. split; assumption.
Qed.

(** Reactor side of the close semantics. *)
Lemma async_close_signal rs c t1 data reason t2 :
  tr (serve rs c) =
    t1 ++ EvDispatch data (Raises (PpyMilterCloseConnection reason)) :: t2 ->
  t2 = [EvLog INFO (MsgClosing reason); EvClose] /\ connected (st (serve rs c)) = false.
Proof.
  intros E. destruct (serve_trace rs c) as [Hq|[He Hc]].
  - rewrite E in Hq. apply quiet_app in Hq as [_ Hq]. discriminate Hq.
  - split; [|exact Hc]. eapply signal_ended_closes_ok; eassumption.
Qed.

(** *** Writing responses *)

Lemma sent_payload p :
  frame_payload p ->
  (sent (PyBytes p)).1 = Ok tt /\ written (sent (PyBytes p)).2 = encode_frame p /\
  (sent (PyStr p)).1 = Ok tt /\ written (sent (PyStr p)).2 = encode_frame p.
Proof.
  intros [Hp Hl]. destruct (encode_frame_eq p Hl) as (h & Hh & _ & _ & He).
  destruct p as [|b p]; [congruence|]. cbn [sent]. rewrite Hh, He. cbn.
  rewrite !app_nil_r. auto.
Qed.

Lemma sent_each_payloads ps :
  Forall frame_payload ps ->
  (sent_each (map PyBytes ps)).1 = Ok tt /\
  written (sent_each (map PyBytes ps)).2 = concat (map encode_frame ps).
Proof.
  induction 1 as [|p ps Hp _ [IHo IHw]]; [split; reflexivity|].
  cbn [map sent_each concat].
  destruct (sent_payload p Hp) as (Ho & Hw & _).
  destruct (sent (PyBytes p)) as [o t]. cbn [fst snd] in Ho, Hw. subst o.
  destruct (sent_each (map PyBytes ps)) as [o' t']. cbn [fst snd] in *.
  split; [exact IHo|]. rewrite written_app, Hw, IHw. reflexivity.
Qed.

(** The handler after a reply that was sent: armed for the next header. *)
Lemma read_milter_data_sent c v :
  (Dispatch (milter_dispatcher c) (concat (input c))).1 = Returns v ->
  (sent_all v).1 = Ok tt ->
  let r := read_milter_data c in
  out r = Ok tt /\ written (tr r) = written (sent_all v).2 /\
  found_terminator (st r) = read_packetlen_cb /\
  terminator (st r) = MILTER_LEN_BYTES /\ input (st r) = [] /\
  connected (st r) = connected c.
Proof.
  intros Hv Hs. cbn zeta. rewrite read_milter_data_eq. cbn zeta.
  rewrite Hv, Hs. cbn [out st tr]. repeat split.
Qed.

(** *** Failures *)


Lemma handle_read_addr r c : addr (st (handle_read r c)) = addr c.
Proof.
  rewrite handle_read_eq. destruct r as [[|x d]| |errno]; cbn [after st];
    rewrite ?loop_addr; reflexivity.
Qed.


(** Whatever the read handler raises ends in the channel's own
    [handle_error]: logged under the channel's identity, then closed. *)
Lemma read_failure r c e :
  out (handle_read r c) = Raise e ->
  read r c = mkRes (Ok tt) (set_connected false (st (handle_read r c)))
               (tr (handle_read r c) ++ error_events (addr c) e).
Proof.
  intros E. unfold read, try_except. rewrite E, handle_error_eq, handle_read_addr.
  reflexivity.
Qed.


Lemma read_io_error errno c :
  read (recv_raises errno) c =
  mkRes (Ok tt) (set_connected false c) (error_events (addr c) (socket_error errno)).
Proof. reflexivity. Qed.

(** *** A frame in one read, end to end *)




(** *** The frame of length zero *)

Lemma loop_empty_frame f more c :
  awaiting_length c -> (length more < f)%nat ->
  let r := handle_read_loop (S f) (set_ac_in_buffer (encode_frame [] ++ more) c) in
  out r = Ok tt /\ tr r = [] /\ terminator (st r) = 0 /\
  found_terminator (st r) = read_milter_data_cb /\ connected (st r) = connected c.
Proof.
  intros (Hf & Ht & Hi & Hb) Hlen. cbn zeta.
  destruct c as [a d i t cb b conn]. cbn in Hf, Ht, Hi, Hb. subst i t cb b.
  change (encode_frame []) with [x00; x00; x00; x00].
  rewrite loop_cut; fields.
  2:{ discriminate. }
  2:{ discriminate. }
  2:{ change ([x00; x00; x00; x00] ++ more) with ([x00; x00; x00; x00] ++ more).
      rewrite len_app. pose proof (len_nonneg more).
      change (len [x00; x00; x00; x00]) with 4. unfold MILTER_LEN_BYTES. lia. }
  unfold cut. fields. change (Z.to_nat MILTER_LEN_BYTES) with 4%nat.
  cbn [app firstn skipn]. rewrite take_0, drop_0.
  rewrite (bind_after _ _ _ tt) by reflexivity.
  rewrite call_found_terminator_eq. fields. rewrite read_packetlen_eq. fields.
  cbn [concat app]. change (struct_unpack_I [x00; x00; x00; x00]) with (Ok 0).
  fields. rewrite after_nil.
  rewrite loop_collects; fields; [|exact Hlen|left; reflexivity].
  destruct more; repeat split.
Qed.

Lemma serve_empty_frame more c :
  awaiting_length c -> connected c = true ->
  let r := serve [recv_data (encode_frame [] ++ more)] c in
  dispatched (tr r) = [] /\ terminator (st r) = 0 /\
  found_terminator (st r) = read_milter_data_cb /\ connected (st r) = true.
Proof.
  intros Ha Hc. cbn zeta.
  assert (Hne : encode_frame [] ++ more <> []) by discriminate.
  rewrite serve_one, read_data_settled; auto using awaiting_length_settled.
  cbn zeta.
  destruct (loop_empty_frame (length (encode_frame [] ++ more)) more c Ha)
    as (Ho & Ht & Hz & Hf & Hcn).
  { rewrite length_app. change (encode_frame []) with [x00; x00; x00; x00].
    cbn [length]. lia. }
  rewrite Ho. unfold after. cbn [out st tr]. rewrite Ht.
  repeat split; try assumption. congruence.
Qed.

(** A frame of length zero is never completed: the terminator 0 sends
    [handle_read] into its collect-everything branch, where it stays,
    whatever arrives later and however the reads cut the stream. *)
Theorem async_empty_frame_stalls ds more c :
  awaiting_length c -> connected c = true ->
  Forall (fun d => d <> []) ds -> concat ds = encode_frame [] ++ more ->
  let r := serve (map recv_data ds) c in
  dispatched (tr r) = [] /\ terminator (st r) = 0 /\
  found_terminator (st r) = read_milter_data_cb /\ connected (st r) = true.
Proof.
  intros Ha Hc Hall Hcat. cbn zeta.
  assert (Hne : ds <> []) by (intros ->; discriminate Hcat).
  destruct (serve_chunks ds c Hne Hall (awaiting_length_settled _ Ha) Hc)
    as (_ & Ht & Hcn & Hs).
  rewrite Hcat in Ht, Hcn, Hs.
  destruct (serve_empty_frame more c Ha Hc) as (Hd & Hz & Hf & Hc').
  rewrite Hc' in Hcn. specialize (Hs Hcn).
  destruct (same_fields _ _ Hs) as (_ & _ & Hz' & Hf' & _ & _).
  rewrite <- dispatched_observable, Ht, dispatched_observable.
  repeat split; congruence.
Qed.

Lemma send_response_payload c p :
  frame_payload p ->
  let r := __send_response (PyBytes p) c in
  out r = Ok tt /\ st r = c /\ written (tr r) = encode_frame p.
Proof.
  intros Hp. cbn zeta. rewrite send_response_sent. cbn [out st tr].
  destruct (sent_payload p Hp) as (Ho & Hw & _). repeat split; assumption.
Qed.


(** A single reply on the reactor side. *)
Lemma read_milter_data_single c v :
  (Dispatch (milter_dispatcher c) (concat (input c))).1 = Returns v ->
  (match v with PyList _ => False | _ => True end) ->
  let r := read_milter_data c in
  (truthy v = false ->
     out r = Ok tt /\ written (tr r) = [] /\
     found_terminator (st r) = read_packetlen_cb /\
     terminator (st r) = MILTER_LEN_BYTES /\ input (st r) = []) /\
  (forall p, frame_payload p -> v = PyBytes p \/ v = PyStr p ->
     out r = Ok tt /\ written (tr r) = encode_frame p /\
     found_terminator (st r) = read_packetlen_cb /\
     terminator (st r) = MILTER_LEN_BYTES /\ input (st r) = []).
Proof.
  intros Hv Hnl. cbn zeta. split.
  - intros Ht.
    assert (Hs : sent_all v = (Ok tt, [])).
    { destruct v as [|b|b|rs]; [reflexivity| | |destruct Hnl];
        unfold sent_all; rewrite Ht; reflexivity. }
    destruct (read_milter_data_sent c v Hv) as (Ho & Hw & Hf & Hz & Hi & _).
    { rewrite Hs. reflexivity. }
    rewrite Hs in Hw. repeat split; assumption.
  - intros p Hp Hvp.
    destruct (sent_payload p Hp) as (Ho1 & Hw1 & Ho2 & Hw2).
    assert (Htr : truthy v = true).
    { destruct Hp as [Hp _]. destruct p; [congruence|]. destruct Hvp; subst; reflexivity. }
    assert (Hs : (sent_all v).1 = Ok tt /\ written (sent_all v).2 = encode_frame p).
    { destruct Hvp; subst v; unfold sent_all; rewrite Htr; split; assumption. }
    destruct Hs as [Hso Hsw].
    destruct (read_milter_data_sent c v Hv Hso) as (Ho & Hw & Hf & Hz & Hi & _).
    rewrite Hsw in Hw. repeat split; assumption.
Qed.

End S.
End AsyncFacts.

Module ThreadedFacts.
Import ThreadedConnectionHandler.
Section S.
Context {base : ppymilterbase}.

Lemma request_recv_benign n : benign (request_recv n).
Proof.
  intros h. unfold request_recv.
  destruct (socket_recv n (incoming (request h))) as [o q] eqn:E. cbn [out st tr].
  split; [destruct o; reflexivity|].
  intros e ->. revert E. generalize (incoming (request h)).
  intros l. induction l as [|[[|x d]|errno] l IH]; cbn; try discriminate; auto.
  - destruct (len (x :: d) <=? n); discriminate.
  - intros [= <- _]. reflexivity.
Qed.

Lemma request_send_benign data : benign (request_send data).
Proof.
  intros h. unfold request_send.
  destruct (send_results (request h)) as [|[errno|] q]; cbn [out st tr].
  - split; [reflexivity|discriminate].
  - split; [reflexivity|]. intros e [= <-]. reflexivity.
  - split; [reflexivity|discriminate].
Qed.

Lemma struct_pack_benign n : benign (@lift ConnectionHandler _ (struct_pack_I n)).
Proof. apply benign_lift. intros e H. apply struct_pack_raises in H. subst. reflexivity. Qed.

Lemma send_response_benign v : benign (__send_response v).
Proof.
  destruct v as [|[|b r]|[|b r]|[|x l]]; cbn [__send_response];
    try (apply benign_raise; reflexivity).
  all: apply benign_bind; [apply benign_emit; reflexivity|intros _].
  all: apply benign_bind; [apply struct_pack_benign|intros h].
  all: apply benign_bind; [apply request_send_benign|intros _; apply request_send_benign].
Qed.

Lemma send_responses_benign v : benign (send_responses v).
Proof.
  destruct v as [|b|b|rs]; unfold send_responses.
  - apply benign_ret.
  - destruct (truthy (PyBytes b)); [apply send_response_benign|apply benign_ret].
  - destruct (truthy (PyStr b)); [apply send_response_benign|apply benign_ret].
  - apply benign_for_each, send_response_benign.
Qed.

Lemma recv_payload_benign fuel : forall packetlen inbuf read,
  benign (recv_payload fuel packetlen inbuf read).
Proof.
  induction fuel as [|fuel IH]; intros packetlen inbuf read; cbn [recv_payload].
  - apply benign_out_of_fuel.
  - destruct (read <? packetlen); [|apply benign_ret].
    apply benign_bind; [apply request_recv_benign|intros d; apply IH].
Qed.

(** The [try] statement of the loop body, by what [Dispatch] answered. *)
Lemma respond_eq data h :
  respond data h =
  let rd := Dispatch (milter_dispatcher h) data in
  let h1 := set_milter_dispatcher rd.2 h in
  match rd.1 with
  | Raises (PpyMilterCloseConnection reason) =>
      mkRes (Ok Break) h1 [EvDispatch data rd.1; EvLog INFO (MsgClosing reason)]
  | Raises e => mkRes (Raise e) h1 [EvDispatch data rd.1]
  | Returns v =>
      let s := send_responses v h1 in
      mkRes (match out s with
             | Ok _ => Ok Continue
             | Raise e => Raise e
             | OutOfFuel => OutOfFuel
             end) (st s) (EvDispatch data rd.1 :: tr s)
  end.
Proof.
  unfold respond, try_except, bind, call_Dispatch, ret.
  cbn -[send_responses].
  set (rd := Dispatch (milter_dispatcher h) data).
  destruct rd as [[v|e] d]; cbn -[send_responses].
  - destruct (send_responses_benign v (set_milter_dispatcher d h)) as [_ Hr].
    destruct (out (send_responses v (set_milter_dispatcher d h))) as [u|e|] eqn:E;
      cbn -[send_responses]; try reflexivity.
    + rewrite app_nil_r. reflexivity.
    + specialize (Hr e eq_refl). destruct e; try discriminate; reflexivity.
  - destruct e; reflexivity.
Qed.

Lemma respond_turn_ok data h : turn_ok (respond data h).
Proof.
  rewrite respond_eq. cbn zeta.
  destruct (Dispatch (milter_dispatcher h) data) as [[v|e] d]; cbn [fst snd].
  - left. destruct (send_responses_benign v (set_milter_dispatcher d h)) as [Hq Hr].
    split; [apply (quiet_app [_]); split; [reflexivity|exact Hq]|].
    destruct (out (send_responses v (set_milter_dispatcher d h))); cbn [out];
      split; try discriminate.
    intros e' [= <-]. apply Hr. reflexivity.
  - destruct e; try (left; split; [reflexivity|split; [discriminate|]];
                     intros e' [= <-]; reflexivity).
    right. exists [], data, reason. repeat split.
Qed.

Lemma turn_ok_bind {A} (m : M ConnectionHandler A) (k : A -> M ConnectionHandler flow) :
  benign m -> (forall a s, turn_ok (k a s)) -> forall s, turn_ok (bind m k s).
Proof.
  intros Hm Hk s. unfold bind. destruct (Hm s) as [Hq Hr].
  destruct (out (m s)) as [a|e|] eqn:E; cbn [out st tr].
  - destruct (Hk a (st (m s))) as [(Hq' & Hb & Hr')|(t1 & data & reason & Ht & Hq1 & Ho)].
    + left. split; [apply quiet_app; split; assumption|]. split; assumption.
    + right. exists (tr (m s) ++ t1), data, reason. rewrite Ht, app_assoc.
      split; [reflexivity|]. split; [apply quiet_app; split; assumption|exact Ho].
  - left. split; [exact Hq|]. split; [discriminate|].
    intros e' [= <-]. apply Hr. reflexivity.
  - left. split; [exact Hq|]. split; discriminate.
Qed.

Lemma handle_turn_ok fuel h : turn_ok (handle_turn fuel h).
Proof.
  unfold handle_turn.
  apply turn_ok_bind; [apply request_recv_benign|intros header s].
  apply turn_ok_bind; [|intros packetlen s'].
  { apply benign_lift. intros e H. apply struct_unpack_raises in H. subst. reflexivity. }
  apply turn_ok_bind; [apply recv_payload_benign|intros inbuf s''].
  apply turn_ok_bind; [apply benign_emit; reflexivity|intros _ s3].
  apply respond_turn_ok.
Qed.

Lemma handle_loop_ok fuel : forall h, loop_ok (handle_loop fuel h).
Proof.
  induction fuel as [|fuel IH]; intros h; cbn [handle_loop].
  { left. split; [reflexivity|discriminate]. }
  unfold bind.
  destruct (handle_turn_ok fuel h) as [(Hq & Hb & Hr)|(t1 & data & reason & Ht & Hq1 & Ho)].
  - destruct (out (handle_turn fuel h)) as [[|]|e|] eqn:E; cbn [out st tr].
    + destruct (IH (st (handle_turn fuel h)))
        as [(Hq' & Hr')|(t1 & data & reason & Ht & Hq1 & Ho)].
      * left. split; [apply quiet_app; split; assumption|exact Hr'].
      * right. exists (tr (handle_turn fuel h) ++ t1), data, reason.
        rewrite Ht, app_assoc. split; [reflexivity|].
        split; [apply quiet_app; split; assumption|exact Ho].
    + congruence.
    + left. split; [exact Hq|]. intros e' [= <-]. apply Hr. reflexivity.
    + left. split; [exact Hq|discriminate].
  - rewrite Ho. cbn [out st tr]. right. exists t1, data, reason.
    rewrite app_nil_r. repeat split; assumption.
Qed.

Lemma handle_eq fuel h :
  handle fuel h =
  let r := handle_loop fuel h in
  match out r with
  | Raise e => mkRes (Ok tt) (st r) (tr r ++ [EvLog ERROR (MsgUncaptured (self_id (st r)) e)])
  | _ => r
  end.
Proof.
  unfold handle, try_except. cbn zeta.
  destruct (out (handle_loop fuel h)); reflexivity.
Qed.

Lemma process_request_thread_eq fuel h :
  process_request_thread fuel h =
  let r := handle fuel h in
  match out r with
  | OutOfFuel => r
  | o => mkRes o (st r) (tr r ++ [EvClose])
  end.
Proof.
  unfold process_request_thread, try_finally. cbn zeta.
  destruct (out (handle fuel h)); reflexivity.
Qed.

Lemma process_request_thread_trace fuel h :
  tr (process_request_thread fuel h) =
  let r := handle_loop fuel h in
  match out r with
  | Ok _ => tr r ++ [EvClose]
  | Raise e => tr r ++ [EvLog ERROR (MsgUncaptured (self_id (st r)) e); EvClose]
  | OutOfFuel => tr r
  end.
Proof.
  rewrite process_request_thread_eq, handle_eq. cbn zeta.
  destruct (out (handle_loop fuel h)) as [a|e|] eqn:E; cbn [out st tr]; rewrite ?E;
    cbn [out st tr]; rewrite <- ?app_assoc; reflexivity.
Qed.

Lemma process_request_thread_out fuel h :
  out (process_request_thread fuel h) =
  match out (handle_loop fuel h) with
  | OutOfFuel => OutOfFuel
  | _ => Ok tt
  end.
Proof.
  rewrite process_request_thread_eq, handle_eq. cbn zeta.
  destruct (out (handle_loop fuel h)) as [[]|e|] eqn:E; cbn [out st tr]; rewrite ?E;
    reflexivity.
Qed.

(** Threaded side of the close semantics. *)
Lemma threaded_close_signal fuel h t1 data reason t2 :
  tr (process_request_thread fuel h) =
    t1 ++ EvDispatch data (Raises (PpyMilterCloseConnection reason)) :: t2 ->
  t2 = [EvLog INFO (MsgClosing reason); EvClose] /\
  out (process_request_thread fuel h) = Ok tt.
Proof.
  rewrite process_request_thread_trace, process_request_thread_out. cbn zeta.
  destruct (handle_loop_ok fuel h) as [(Hq & Hr)|(u1 & d & rs & Ht & Hq1 & Ho)].
  - intros E. exfalso.
    assert (Hall : quiet (t1 ++ EvDispatch data (Raises (PpyMilterCloseConnection reason)) :: t2)).
    { rewrite <- E. destruct (out (handle_loop fuel h));
        repeat (apply quiet_app; split); try assumption; reflexivity. }
    apply quiet_app in Hall as [_ Hall]. discriminate Hall.
  - rewrite Ho, Ht, <- app_assoc. cbn [app].
    intros E. split; [|reflexivity].
    eapply (closed_closes_ok u1 d rs Hq1). exact E.
Qed.

(** *** Writing responses on the blocking socket *)

Lemma request_send_ok data h n :
  sends_ok (S n) (send_results (request h)) ->
  out (request_send data h) = Ok tt /\ tr (request_send data h) = [EvWrite data] /\
  sends_ok n (send_results (request (st (request_send data h)))).
Proof.
  unfold request_send. destruct h as [id [inc [|[errno|] q]] d]; cbn.
  - intros _. repeat split. destruct n; exact I.
  - intros [].
  - intros H. repeat split. exact H.
Qed.

Lemma two_sends hd r h n :
  sends_ok (S (S n)) (send_results (request h)) ->
  let x := (request_send hd ;; request_send r) h in
  out x = Ok tt /\ tr x = [EvWrite hd; EvWrite r] /\
  sends_ok n (send_results (request (st x))).
Proof.
  intros Hs. cbn zeta.
  destruct (request_send_ok hd h (S n) Hs) as (Ho1 & Ht1 & Hs1).
  destruct (request_send_ok r _ n Hs1) as (Ho2 & Ht2 & Hs2).
  rewrite (bind_after _ _ _ tt Ho1). unfold after. cbn [out st tr].
  rewrite Ho2, Ht1, Ht2. repeat split. exact Hs2.
Qed.

Lemma send_response_eq b p hd h :
  struct_pack_I (len (b :: p)) = Ok hd ->
  __send_response (PyBytes (b :: p)) h =
    after [EvLog DEBUG (MsgOut b)] ((request_send hd ;; request_send (b :: p)) h) /\
  __send_response (PyStr (b :: p)) h =
    after [EvLog DEBUG (MsgOut b)] ((request_send hd ;; request_send (b :: p)) h).
Proof.
  intros Hh. cbn [__send_response].
  rewrite (bind_after (logger_debug (MsgOut b)) _ h tt eq_refl).
  cbn [logger_debug emit out st tr].
  rewrite (bind_after (lift (struct_pack_I (len (b :: p)))) _ h hd Hh).
  cbn [lift out st tr]. rewrite after_nil. split; reflexivity.
Qed.

Lemma send_response_ok p h n :
  frame_payload p -> sends_ok (S (S n)) (send_results (request h)) ->
  (out (__send_response (PyBytes p) h) = Ok tt /\
   written (tr (__send_response (PyBytes p) h)) = encode_frame p /\
   sends_ok n (send_results (request (st (__send_response (PyBytes p) h))))) /\
  (out (__send_response (PyStr p) h) = Ok tt /\
   written (tr (__send_response (PyStr p) h)) = encode_frame p /\
   sends_ok n (send_results (request (st (__send_response (PyStr p) h))))).
Proof.
  intros [Hp Hl] Hs. destruct (encode_frame_eq p Hl) as (hd & Hh & _ & _ & He).
  destruct p as [|b p]; [congruence|].
  destruct (send_response_eq b p hd h Hh) as [-> ->].
  destruct (two_sends hd (b :: p) h n Hs) as (Ho & Ht & Hs').
  unfold after. cbn [out st tr]. rewrite Ho, Ht, He.
  unfold written. cbn. rewrite app_nil_r. repeat split; exact Hs'.
Qed.


Lemma for_each_send_ok ps : forall h n,
  Forall frame_payload ps ->
  sends_ok (2 * length ps + n) (send_results (request h)) ->
  let r := for_each (map PyBytes ps) __send_response h in
  out r = Ok tt /\ written (tr r) = concat (map encode_frame ps) /\
  sends_ok n (send_results (request (st r))).
Proof.
  induction ps as [|p ps IH]; intros h n Hall Hs; cbn zeta.
  { cbn. repeat split. exact Hs. }
  inversion Hall as [|? ? Hp Hall']; subst.
  cbn [map for_each concat].
  replace (2 * length (p :: ps) + n)%nat with (S (S (2 * length ps + n))) in Hs
    by (cbn [length]; lia).
  destruct (send_response_ok p h _ Hp Hs) as [(Ho & Hw & Hs') _].
  rewrite (bind_after _ _ _ tt Ho). unfold after. cbn [out st tr].
  destruct (IH _ n Hall' Hs') as (Ho' & Hw' & Hs'').
  rewrite written_app, Hw, Hw'. repeat split; assumption.
Qed.

(** A single reply on the blocking socket. *)
Lemma respond_single data h v :
  (Dispatch (milter_dispatcher h) data).1 = Returns v ->
  (match v with PyList _ => False | _ => True end) ->
  let r := respond data h in
  (truthy v = false -> out r = Ok Continue /\ written (tr r) = []) /\
  (forall p, frame_payload p -> v = PyBytes p \/ v = PyStr p ->
     sends_ok 2 (send_results (request h)) ->
     out r = Ok Continue /\ written (tr r) = encode_frame p).
Proof.
  intros Hv Hnl. cbn zeta. rewrite respond_eq. cbn zeta. rewrite Hv.
  split.
  - intros Ht. destruct v as [|b|b|rs]; [| | |destruct Hnl];
      unfold send_responses; rewrite ?Ht; cbn; split; reflexivity.
  - intros p Hp Hvp Hs.
    assert (Htr : truthy v = true).
    { destruct Hp as [Hp _]. destruct p; [congruence|]. destruct Hvp; subst; reflexivity. }
    set (h1 := set_milter_dispatcher _ h).
    assert (Hs1 : sends_ok 2 (send_results (request h1))) by exact Hs.
    destruct (send_response_ok p h1 0 Hp Hs1) as [(Ho & Hw & _) (Ho' & Hw' & _)].
    destruct Hvp; subst v; unfold send_responses; rewrite Htr; cbn [out st tr].
    + rewrite Ho. split; [reflexivity|].
      change (written ([EvDispatch data (Returns (PyBytes p))] ++
                       tr (__send_response (PyBytes p) h1)) = encode_frame p).
      rewrite written_app, Hw. reflexivity.
    + rewrite Ho'. split; [reflexivity|].
      change (written ([EvDispatch data (Returns (PyStr p))] ++
                       tr (__send_response (PyStr p) h1)) = encode_frame p).
      rewrite written_app, Hw'. reflexivity.
Qed.

(** *** Failures *)










(** *** A frame in one chunk, end to end *)

Lemma request_recv_eq n h :
  request_recv n h =
  let oq := socket_recv n (incoming (request h)) in
  mkRes oq.1 (set_incoming oq.2 h) (match oq.1 with Ok d => [EvRecv d] | _ => [] end).
Proof. unfold request_recv. destruct (socket_recv _ _). reflexivity. Qed.




End S.
End ThreadedFacts.

Module ReactorFacts.
Import AsyncPpyMilterServer.
Section S.
Context {base : ppymilterbase}.

Lemma poll_channel fd rr s c :
  channels s !! fd = Some c ->
  poll_event (channel_readable fd rr) s =
  let r := AsyncConnectionHandler.read rr c in
  note (Some fd) (tr r)
    (set_channels (if AsyncConnectionHandler.connected (st r)
                   then <[fd := st r]> (channels s)
                   else delete fd (channels s)) s).
Proof. intros H. unfold poll_event. rewrite H. reflexivity. Qed.

Lemma poll_channel_gone fd rr s :
  channels s !! fd = None -> poll_event (channel_readable fd rr) s = s.
Proof. intros H. unfold poll_event. rewrite H. reflexivity. Qed.



Lemma poll_accept_error s errno :
  accepting s = true ->
  poll_event (listener_readable (accept_raises errno)) s =
  note None [EvLog ERROR (MsgAcceptError (socket_error errno))] s.
Proof. intros H. unfold poll_event. rewrite H. reflexivity. Qed.

Lemma poll_accepted s fd peer :
  accepting s = true ->
  poll_event (listener_readable (accepted fd peer)) s =
  set_channels
    (<[fd := AsyncConnectionHandler.__init__ peer (the_milter_class s) (the_context s)]>
       (channels s))
    (note None [] s).
Proof.
  intros H. unfold poll_event. rewrite H.
  unfold note, set_channels. cbn. rewrite !app_nil_r. reflexivity.
Qed.

End S.
End ReactorFacts.

(** ** The properties of the specification *)

(** C1. Round trip through the reactor's decoder. It holds for payloads of
    1 to 2^32-1 bytes ([AsyncFacts.async_frame_round_trip]); at the payload
    of length 0 the code departs from it. The frame of the empty payload is
    00 00 00 00; fed whole or one byte at a time, it is never handed to
    [Dispatch], the handler is left with terminator 0 in
    [read_milter_data] mode, and a frame that follows is swallowed. *)
Theorem empty_frame_is_never_decoded :
  encode_frame [] = [x00; x00; x00; x00] /\
  (let r := AsyncConnectionHandler.serve [AsyncConnectionHandler.recv_data (encode_frame [])] sample_channel in
   dispatched (tr r) = [] /\ AsyncConnectionHandler.terminator (st r) = 0 /\
   AsyncConnectionHandler.found_terminator (st r) = AsyncConnectionHandler.read_milter_data_cb) /\
  dispatched (tr (AsyncConnectionHandler.serve (map (fun b => AsyncConnectionHandler.recv_data [b]) (encode_frame []))
                    sample_channel)) = [] /\
  dispatched (tr (AsyncConnectionHandler.serve [AsyncConnectionHandler.recv_data (encode_frame []);
                           AsyncConnectionHandler.recv_data (encode_frame ["A"%byte])]
                    sample_channel)) = [].
Proof. vm_compute. repeat split. Qed.

(** C2. Frames back to back are dispatched in order whatever the chunking.
    On the reactor this holds for frames with payloads
    ([AsyncFacts.async_frames_in_order]). The threaded handler reads the
    header with a single [recv(4)]: the frame 00 00 00 01 'A' is dispatched
    when it arrives whole, but when the header arrives in two reads
    [struct.unpack] fails on the first two bytes and the connection is
    closed before anything is dispatched. *)
Theorem split_header_ends_the_threaded_connection :
  dispatched (tr (sample_thread [[x00; x00; x00; x01; "A"%byte]])) = [["A"%byte]] /\
  (let r := sample_thread [[x00; x00]; [x00; x01; "A"%byte]] in
   dispatched (tr r) = [] /\ out r = Ok tt /\
   tr r = [EvRecv [x00; x00]; EvLog ERROR (MsgUncaptured 1%nat struct_error); EvClose]).
Proof. vm_compute. repeat split. Qed.

(** C3. Scenario B: the frame of b"ABC" followed by the frame of b"". The
    threaded handler dispatches both payloads; the reactor handler
    dispatches b"ABC" only and never b"". *)
Theorem empty_frame_after_ABC :
  let stream := encode_frame ["A"%byte; "B"%byte; "C"%byte] ++ encode_frame [] in
  dispatched (tr (sample_thread [stream])) = [["A"%byte; "B"%byte; "C"%byte]; []] /\
  dispatched (tr (AsyncConnectionHandler.serve [AsyncConnectionHandler.recv_data stream] sample_channel)) =
    [["A"%byte; "B"%byte; "C"%byte]].
Proof. vm_compute. repeat split. Qed.

(** C4. Close semantics. In every run of a reactor channel and of a
    handler thread, what follows a [Dispatch] that raised the close signal
    is the informational log record of the reason and the closing of the
    socket, and nothing else: no read, no write, no further dispatch. *)
Theorem close_signal_ends_the_connection {base : ppymilterbase} :
  (forall rs c t1 data reason t2,
     tr (AsyncConnectionHandler.serve rs c) =
       t1 ++ EvDispatch data (Raises (PpyMilterCloseConnection reason)) :: t2 ->
     t2 = [EvLog INFO (MsgClosing reason); EvClose] /\
     AsyncConnectionHandler.connected (st (AsyncConnectionHandler.serve rs c)) = false) /\
  (forall fuel h t1 data reason t2,
     tr (ThreadedConnectionHandler.process_request_thread fuel h) =
       t1 ++ EvDispatch data (Raises (PpyMilterCloseConnection reason)) :: t2 ->
     t2 = [EvLog INFO (MsgClosing reason); EvClose] /\
     out (ThreadedConnectionHandler.process_request_thread fuel h) = Ok tt).
Proof.
  split.
  - intros rs c t1 data reason t2. apply AsyncFacts.async_close_signal.
  - intros fuel h t1 data reason t2. apply ThreadedFacts.threaded_close_signal.
Qed.

Lemma close_signal_ends_the_connection_witness :
  let stream := encode_frame ["Q"%byte] ++ encode_frame ["A"%byte] in
  let quit := EvDispatch ["Q"%byte] (Raises (PpyMilterCloseConnection "quit")) in
  let tail := [EvLog INFO (MsgClosing "quit"); EvClose] in
  (tr (AsyncConnectionHandler.serve [AsyncConnectionHandler.recv_data stream] sample_channel) =
     [EvRecv stream; EvLog DEBUG (MsgIn ["Q"%byte])] ++ quit :: tail /\
   tr (sample_thread [stream]) =
     [EvRecv [x00; x00; x00; x01]; EvRecv ["Q"%byte]; EvLog DEBUG (MsgIn ["Q"%byte])] ++
     quit :: tail) /\
  (tail = [EvLog INFO (MsgClosing "quit"); EvClose] /\
   AsyncConnectionHandler.connected (st (AsyncConnectionHandler.serve [AsyncConnectionHandler.recv_data stream] sample_channel)) = false) /\
  (tail = [EvLog INFO (MsgClosing "quit"); EvClose] /\
   out (sample_thread [stream]) = Ok tt).
Proof.
  cbv zeta.
  assert (Ha : tr (AsyncConnectionHandler.serve [AsyncConnectionHandler.recv_data (encode_frame ["Q"%byte] ++ encode_frame ["A"%byte])]
                     sample_channel) =
               [EvRecv (encode_frame ["Q"%byte] ++ encode_frame ["A"%byte]);
                EvLog DEBUG (MsgIn ["Q"%byte])] ++
               EvDispatch ["Q"%byte] (Raises (PpyMilterCloseConnection "quit")) ::
               [EvLog INFO (MsgClosing "quit"); EvClose])
    by (vm_compute; reflexivity).
  assert (Ht : tr (sample_thread [encode_frame ["Q"%byte] ++ encode_frame ["A"%byte]]) =
               [EvRecv [x00; x00; x00; x01]; EvRecv ["Q"%byte];
                EvLog DEBUG (MsgIn ["Q"%byte])] ++
               EvDispatch ["Q"%byte] (Raises (PpyMilterCloseConnection "quit")) ::
               [EvLog INFO (MsgClosing "quit"); EvClose])
    by (vm_compute; reflexivity).
  split; [split; [exact Ha|exact Ht]|]. split.
  - exact (proj1 (@close_signal_ends_the_connection sample_milter) _ _ _ _ _ _ Ha).
  - exact (proj2 (@close_signal_ends_the_connection sample_milter) _ _ _ _ _ _ Ht).
Defined.

(** C5. Many responses. A list of payloads that each carry at least one
    byte is written as that many frames, in order
    ([AsyncFacts.sent_each_payloads], [ThreadedFacts.for_each_send_ok]).
    When an element is empty the code departs from the claim: for the
    reply [b"A", b"", b"B"] both variants write the frame of b"A" alone,
    then [IndexError] from the debug log line of [__send_response] ends the
    connection. *)
Theorem empty_response_in_a_list_cuts_the_fan_out :
  (let r := AsyncConnectionHandler.serve
              [AsyncConnectionHandler.recv_data (encode_frame ["M"%byte])]
              sample_channel in
   written (tr r) = encode_frame ["A"%byte] /\
   AsyncConnectionHandler.connected (st r) = false /\
   In (EvLog ERROR (MsgUncaptured 7%nat IndexError)) (tr r)) /\
  (let r := sample_thread [encode_frame ["M"%byte]] in
   written (tr r) = encode_frame ["A"%byte] /\
   In (EvLog ERROR (MsgUncaptured 1%nat IndexError)) (tr r) /\
   In EvClose (tr r)) /\
  encode_frame ["A"%byte] ++ encode_frame [] ++ encode_frame ["B"%byte] <>
    encode_frame ["A"%byte].
Proof.
  split; [|split].
  - vm_compute. repeat split. right. right. right. right. right. right. left. reflexivity.
  - vm_compute. repeat split.
    + do 7 right. left. reflexivity.
    + do 8 right. left. reflexivity.
  - vm_compute. discriminate.
Qed.

(** C6, as the claim states it, fails at the empty payload: when
    [Dispatch] answers b"" nothing is written, although the frame of b""
    is 00 00 00 00. *)
Lemma empty_single_response_counterexample :
  ~ (written (tr (AsyncConnectionHandler.serve
                    [AsyncConnectionHandler.recv_data (encode_frame ["E"%byte])]
                    sample_channel)) = encode_frame []) /\
  ~ (written (tr (sample_thread [encode_frame ["E"%byte]])) = encode_frame []).
Proof. split; vm_compute; discriminate. Qed.

(** C6, amended. For a single reply (a value that is not a list): when it
    is a byte string or a text of 1 to 2^32-1 bytes, exactly its frame is
    written and the connection goes back to reading a length header; when
    it is false in Python's sense, that is [None] or an empty byte string
    or text, nothing is written and reading resumes all the same. *)
Theorem single_response_is_framed_unless_empty {base : ppymilterbase} :
  (forall v, match v with
             | PyList _ => True
             | _ => truthy v = false <-> v = PyNone \/ v = PyBytes [] \/ v = PyStr []
             end) /\
  (forall c v,
     (Dispatch (AsyncConnectionHandler.milter_dispatcher c)
        (concat (AsyncConnectionHandler.input c))).1 = Returns v ->
     (match v with PyList _ => False | _ => True end) ->
     let r := AsyncConnectionHandler.read_milter_data c in
     (truthy v = false ->
        out r = Ok tt /\ written (tr r) = [] /\
        AsyncConnectionHandler.found_terminator (st r) =
          AsyncConnectionHandler.read_packetlen_cb /\
        AsyncConnectionHandler.terminator (st r) = MILTER_LEN_BYTES /\
        AsyncConnectionHandler.input (st r) = []) /\
     (forall p, frame_payload p -> v = PyBytes p \/ v = PyStr p ->
        out r = Ok tt /\ written (tr r) = encode_frame p /\
        AsyncConnectionHandler.found_terminator (st r) =
          AsyncConnectionHandler.read_packetlen_cb /\
        AsyncConnectionHandler.terminator (st r) = MILTER_LEN_BYTES /\
        AsyncConnectionHandler.input (st r) = [])) /\
  (forall data h v,
     (Dispatch (ThreadedConnectionHandler.milter_dispatcher h) data).1 = Returns v ->
     (match v with PyList _ => False | _ => True end) ->
     let r := ThreadedConnectionHandler.respond data h in
     (truthy v = false ->
        out r = Ok ThreadedConnectionHandler.Continue /\ written (tr r) = []) /\
     (forall p, frame_payload p -> v = PyBytes p \/ v = PyStr p ->
        ThreadedConnectionHandler.sends_ok 2
          (ThreadedConnectionHandler.send_results
             (ThreadedConnectionHandler.request h)) ->
        out r = Ok ThreadedConnectionHandler.Continue /\
        written (tr r) = encode_frame p)).
Proof.
  split; [|split].
  - intros [|[|b p]|[|b p]|rs]; try exact I; cbn [truthy]; split; intros H;
      try discriminate; auto;
      destruct H as [H|[H|H]]; try discriminate; reflexivity.
  - intros c v. apply AsyncFacts.read_milter_data_single.
  - intros data h v. apply ThreadedFacts.respond_single.
Qed.

Lemma single_response_is_framed_unless_empty_witness :
  let c := @AsyncConnectionHandler.payload_ready sample_milter ["A"%byte] [] sample_channel in
  let h := @ThreadedConnectionHandler.setup sample_milter 1%nat (sample_socket []) tt None in
  let v := PyBytes ["A"%byte] in
  frame_payload ["A"%byte] /\
  (@Dispatch sample_milter (AsyncConnectionHandler.milter_dispatcher c)
     (concat (AsyncConnectionHandler.input c))).1 = Returns v /\
  (@Dispatch sample_milter (ThreadedConnectionHandler.milter_dispatcher h)
     ["A"%byte]).1 = Returns v /\
  (out (AsyncConnectionHandler.read_milter_data c) = Ok tt /\
   written (tr (AsyncConnectionHandler.read_milter_data c)) = encode_frame ["A"%byte] /\
   AsyncConnectionHandler.found_terminator (st (AsyncConnectionHandler.read_milter_data c)) =
     AsyncConnectionHandler.read_packetlen_cb /\
   AsyncConnectionHandler.terminator (st (AsyncConnectionHandler.read_milter_data c)) =
     MILTER_LEN_BYTES /\
   AsyncConnectionHandler.input (st (AsyncConnectionHandler.read_milter_data c)) = []) /\
  (out (ThreadedConnectionHandler.respond ["A"%byte] h) =
     Ok ThreadedConnectionHandler.Continue /\
   written (tr (ThreadedConnectionHandler.respond ["A"%byte] h)) =
     encode_frame ["A"%byte]).
Proof.
  cbv zeta.
  assert (Hp : frame_payload ["A"%byte]).
  { split; [discriminate|vm_compute; discriminate]. }
  split; [exact Hp|]. split; [reflexivity|]. split; [reflexivity|].
  destruct (@single_response_is_framed_unless_empty sample_milter) as (_ & Ha & Ht).
  split.
  - apply (proj2 (Ha (@AsyncConnectionHandler.payload_ready sample_milter ["A"%byte] []
                        sample_channel)
                    (PyBytes ["A"%byte]) eq_refl I) ["A"%byte] Hp).
    left. reflexivity.
  - apply (proj2 (Ht ["A"%byte]
                    (@ThreadedConnectionHandler.setup sample_milter 1%nat
                       (sample_socket []) tt None)
                    (PyBytes ["A"%byte]) eq_refl I) ["A"%byte] Hp).
    + left. reflexivity.
    + exact I.
Defined.



(** C8. A failing [accept]. When [accept] raises a socket error the
    listener logs it at error level and stays registered with the same
    channels; the next connection is accepted, gets a handler of its own
    that waits for a length header, and its read events are handled. *)
Theorem accept_error_keeps_the_listener {base : ppymilterbase}
    (s : AsyncPpyMilterServer.server) (errno : Z) (fd : nat) (peer : ident) :
  AsyncPpyMilterServer.accepting s = true ->
  let s1 := AsyncPpyMilterServer.poll_event
              (AsyncPpyMilterServer.listener_readable
                 (AsyncPpyMilterServer.accept_raises errno)) s in
  let s2 := AsyncPpyMilterServer.poll_event
              (AsyncPpyMilterServer.listener_readable
                 (AsyncPpyMilterServer.accepted fd peer)) s1 in
  let fresh := AsyncConnectionHandler.__init__ peer
                 (AsyncPpyMilterServer.the_milter_class s)
                 (AsyncPpyMilterServer.the_context s) in
  AsyncPpyMilterServer.accepting s1 = true /\
  AsyncPpyMilterServer.channels s1 = AsyncPpyMilterServer.channels s /\
  AsyncPpyMilterServer.journal s1 =
    AsyncPpyMilterServer.journal s ++
    [(None, EvLog ERROR (MsgAcceptError (socket_error errno)))] /\
  AsyncPpyMilterServer.accepting s2 = true /\
  AsyncPpyMilterServer.channels s2 !! fd = Some fresh /\
  AsyncConnectionHandler.awaiting_length fresh /\
  forall rr,
    AsyncPpyMilterServer.journal
      (AsyncPpyMilterServer.poll_event (AsyncPpyMilterServer.channel_readable fd rr) s2) =
    AsyncPpyMilterServer.journal s2 ++
    map (pair (Some fd)) (tr (AsyncConnectionHandler.read rr fresh)).
Proof.
  intros Hacc. cbv zeta.
  pose proof (ReactorFacts.poll_accept_error s errno Hacc) as E1.
  set (s1 := AsyncPpyMilterServer.poll_event _ s) in *.
  assert (Hacc1 : AsyncPpyMilterServer.accepting s1 = true) by (rewrite E1; exact Hacc).
  pose proof (ReactorFacts.poll_accepted s1 fd peer Hacc1) as E2.
  set (s2 := AsyncPpyMilterServer.poll_event _ s1) in *.
  assert (Hmc : AsyncPpyMilterServer.the_milter_class s1 =
                AsyncPpyMilterServer.the_milter_class s) by (rewrite E1; reflexivity).
  assert (Hctx : AsyncPpyMilterServer.the_context s1 =
                 AsyncPpyMilterServer.the_context s) by (rewrite E1; reflexivity).
  rewrite Hmc, Hctx in E2.
  assert (Hfd : AsyncPpyMilterServer.channels s2 !! fd =
                Some (AsyncConnectionHandler.__init__ peer
                        (AsyncPpyMilterServer.the_milter_class s)
                        (AsyncPpyMilterServer.the_context s))).
  { rewrite E2. apply lookup_insert_eq. }
  split; [exact Hacc1|]. split; [rewrite E1; reflexivity|].
  split; [rewrite E1; reflexivity|].
  split; [rewrite E2; exact Hacc1|]. split; [exact Hfd|].
  split; [apply AsyncFacts.awaiting_length_init|].
  intros rr. rewrite (ReactorFacts.poll_channel fd rr s2 _ Hfd). reflexivity.
Qed.

Lemma accept_error_keeps_the_listener_witness :
  AsyncPpyMilterServer.accepting sample_server = true /\
  AsyncPpyMilterServer.channels
    (AsyncPpyMilterServer.poll_event
       (AsyncPpyMilterServer.listener_readable (AsyncPpyMilterServer.accepted 3%nat 7%nat))
       (AsyncPpyMilterServer.poll_event
          (AsyncPpyMilterServer.listener_readable (AsyncPpyMilterServer.accept_raises 24))
          sample_server)) !! 3%nat = Some sample_channel.
Proof.
  split; [reflexivity|].
  exact (proj1 (proj2 (proj2 (proj2 (proj2
    (@accept_error_keeps_the_listener sample_milter sample_server 24 3%nat 7%nat
       eq_refl)))))).
Defined.

(** C9, as the claim states it, fails for the threaded server: its
    listening socket is given [socketserver]'s request queue size, not
    1024. *)
Lemma threaded_backlog_counterexample :
  ~ In (sys_listen 1024) (ThreadedPpyMilterServer.syscalls sample_threaded_server) /\
  In (sys_listen 5) (ThreadedPpyMilterServer.syscalls sample_threaded_server).
Proof.
  split.
  - intros H. repeat (destruct H as [H|H]; [discriminate H|]). exact H.
  - right. right. right. left. reflexivity.
Qed.

(** C9, amended. Given a bare port, both servers create a TCP socket,
    enable address reuse, bind to every interface on that port and listen.
    The reactor server listens with the backlog it was given, 1024 when
    none was; the threaded server has no backlog argument and listens with
    the request queue size 5 that [socketserver.TCPServer] defines. *)
Theorem servers_bind_reuse_and_listen {base : ppymilterbase}
    (port : Z) (mc : milter_class) (ctx : option context) :
  AsyncPpyMilterServer.syscalls
    (AsyncPpyMilterServer.__init__ (AsyncPpyMilterServer.port_number port) mc None ctx) =
    [sys_socket AF_INET SOCK_STREAM; sys_setsockopt_reuseaddr;
     sys_bind (host_port "" port); sys_listen 1024] /\
  (forall backlog,
     AsyncPpyMilterServer.syscalls
       (AsyncPpyMilterServer.__init__ (AsyncPpyMilterServer.port_number port) mc
          (Some backlog) ctx) =
       [sys_socket AF_INET SOCK_STREAM; sys_setsockopt_reuseaddr;
        sys_bind (host_port "" port); sys_listen backlog]) /\
  ThreadedPpyMilterServer.syscalls (ThreadedPpyMilterServer.__init__ port mc ctx) =
    [sys_socket AF_INET SOCK_STREAM; sys_setsockopt_reuseaddr;
     sys_bind (host_port "" port); sys_listen 5].
Proof. repeat split. Qed.



(** ** Whole conversations on the reactor *)


Module ReactorRuns.
Import AsyncConnectionHandler AsyncFacts.
Section S.
Context {base : ppymilterbase}.

Ltac fields :=
  cbn [ac_in_buffer set_ac_in_buffer terminator set_terminator_attr collected
       set_input input addr milter_dispatcher found_terminator connected cut
       set_found_terminator set_connected set_milter_dispatcher rearmed
       dispatched_state payload_ready out st tr].

(** *** A handler whose terminator is 0 *)

Lemma read_inert d c :
  d <> [] -> ac_in_buffer c = [] -> terminator c = 0 ->
  read (recv_data d) c = mkRes (Ok tt) (set_input (input c ++ [d]) c) [EvRecv d].
Proof.
  intros Hd Hb Ht.
  rewrite read_data_settled; [|exact Hd|split; [exact Hb|lia]]. cbn zeta.
  rewrite loop_collects; fields; [|lia|left; exact Ht].
  destruct d as [|x d]; [congruence|]. cbn [out]. unfold after. fields.
  destruct c as [a dd i t cb b conn]. cbn in Hb, Ht. subst b t.
  unfold collected. fields. reflexivity.
Qed.

Lemma serve_inert ds : forall c,
  Forall (fun d => d <> []) ds ->
  ac_in_buffer c = [] -> terminator c = 0 -> connected c = true ->
  serve (map recv_data ds) c =
    mkRes (Ok tt) (set_input (input c ++ ds) c) (map EvRecv ds).
Proof.
  induction ds as [|d ds IH]; intros c Hall Hb Ht Hc.
  - cbn. rewrite app_nil_r. destruct c; reflexivity.
  - inversion Hall as [|? ? Hd Hall']; subst.
    cbn [map]. rewrite serve_cons by exact Hc.
    rewrite (bind_after _ _ _ tt) by (rewrite read_inert by assumption; reflexivity).
    rewrite read_inert by assumption. fields.
    rewrite IH; try assumption; fields; try assumption.
    unfold after. fields. rewrite <- app_assoc. reflexivity.
Qed.


(** *** The header of length zero *)

Lemma loop_zero_header f more c :
  awaiting_length c -> (length more < f)%nat ->
  let r := handle_read_loop (S f) (set_ac_in_buffer ([x00; x00; x00; x00] ++ more) c) in
  out r = Ok tt /\ tr r = [] /\ terminator (st r) = 0 /\
  connected (st r) = connected c /\ concat (input (st r)) = more /\
  ac_in_buffer (st r) = [].
Proof.
  intros (Hf & Ht & Hi & Hb) Hlen. cbn zeta.
  destruct c as [a d i t cb b conn]. cbn in Hf, Ht, Hi, Hb. subst i t cb b.
  rewrite loop_cut; fields.
  2:{ discriminate. }
  2:{ discriminate. }
  2:{ rewrite len_app. pose proof (len_nonneg more).
      change (len [x00; x00; x00; x00]) with 4. unfold MILTER_LEN_BYTES. lia. }
  unfold cut. fields. change (Z.to_nat MILTER_LEN_BYTES) with 4%nat.
  cbn [app firstn skipn]. rewrite take_0, drop_0.
  rewrite (bind_after _ _ _ tt) by reflexivity.
  rewrite call_found_terminator_eq. fields. rewrite read_packetlen_eq. fields.
  cbn [concat app]. change (struct_unpack_I [x00; x00; x00; x00]) with (Ok 0).
  fields. rewrite after_nil.
  rewrite loop_collects; fields; [|exact Hlen|left; reflexivity].
  destruct more; repeat split.
  unfold collected. fields. cbn [app concat]. rewrite app_nil_r. reflexivity.
Qed.

Lemma serve_zero_header more c :
  awaiting_length c -> connected c = true ->
  let r := serve [recv_data ([x00; x00; x00; x00] ++ more)] c in
  out r = Ok tt /\ observable (tr r) = [] /\ terminator (st r) = 0 /\
  connected (st r) = true /\ concat (input (st r)) = more.
Proof.
  intros Ha Hc. cbn zeta.
  assert (Hne : [x00; x00; x00; x00] ++ more <> []) by discriminate.
  rewrite serve_one, read_data_settled; auto using awaiting_length_settled.
  cbn zeta.
  destruct (loop_zero_header (length ([x00; x00; x00; x00] ++ more)) more c Ha)
    as (Ho & Ht & Hz & Hcn & Hi & _).
  { rewrite length_app. cbn [length]. lia. }
  rewrite Ho. unfold after. cbn [out st tr]. rewrite Ht.
  repeat split; try assumption. congruence.
Qed.

Lemma zero_header_chunks ds more c :
  awaiting_length c -> connected c = true ->
  Forall (fun d => d <> []) ds -> concat ds = [x00; x00; x00; x00] ++ more ->
  let r := serve (map recv_data ds) c in
  out r = Ok tt /\ observable (tr r) = [] /\ connected (st r) = true /\
  terminator (st r) = 0 /\ concat (input (st r)) = more.
Proof.
  intros Ha Hc Hall Hcat. cbn zeta.
  assert (Hne : ds <> []) by (intros ->; discriminate Hcat).
  destruct (serve_chunks ds c Hne Hall (awaiting_length_settled _ Ha) Hc)
    as (Ho & Ht & Hcn & Hs).
  rewrite Hcat in Ho, Ht, Hcn, Hs.
  destruct (serve_zero_header more c Ha Hc) as (Ho' & Hd & Hz & Hc' & Hi).
  rewrite Hc' in Hcn. specialize (Hs Hcn).
  destruct (same_fields _ _ Hs) as (_ & _ & Hz' & _ & _ & _).
  destruct Hs as [_ Hi'].
  repeat split; congruence.
Qed.


(** *** The framing invariant *)


Lemma framing_init c : awaiting_length c -> framed c.
Proof.
  intros (Hf & Ht & Hi & Hb). split; [exact Hb|]. unfold framing.
  rewrite Hf, Ht, Hi. split; [unfold MILTER_LEN_BYTES; lia|reflexivity].
Qed.

Lemma framing_nonneg c : framing c -> 0 <= terminator c.
Proof. unfold framing. destruct (found_terminator c); lia. Qed.

Lemma len_concat_snoc (i : list bytes) (b : bytes) :
  len (concat (i ++ [b])) = len (concat i) + len b.
Proof.
  rewrite concat_app. cbn [concat]. rewrite app_nil_r. apply len_app.
Qed.


Lemma found_framing c a :
  framing c -> terminator c <> 0 -> terminator c <= len (ac_in_buffer c) ->
  out (call_found_terminator (cut c)) = Ok a ->
  framing (st (call_found_terminator (cut c))).
Proof.
  intros Hfr Hn Hle. pose proof (framing_nonneg c Hfr) as H0.
  rewrite call_found_terminator_eq.
  destruct c as [ad d i t cb b conn]. unfold framing in Hfr. unfold cut.
  cbn [found_terminator terminator input ac_in_buffer set_terminator_attr
       set_ac_in_buffer set_input] in *.
  destruct cb.
  - rewrite read_packetlen_eq. fields.
    destruct (struct_unpack_I (concat (i ++ [take (Z.to_nat t) b]))) as [n| |] eqn:E;
      try discriminate.
    intros _. unfold framing. fields. eapply struct_unpack_nonneg. exact E.
  - rewrite read_milter_data_eq. cbn zeta.
    destruct (Dispatch _ _) as [[v|e] d']; cbn [fst snd].
    + destruct (sent_all v) as [[u|e|] tv]; cbn [fst snd]; try discriminate.
      intros _. unfold framing. fields.
      split; [unfold MILTER_LEN_BYTES; lia|reflexivity].
    + destruct e; try discriminate.
Qed.

Lemma loop_framing f : forall c a,
  framing c -> out (handle_read_loop f c) = Ok a ->
  framing (st (handle_read_loop f c)).
Proof.
  induction f as [|f IH]; intros c a Hfr; [discriminate|].
  rewrite loop_unfold.
  destruct (ac_in_buffer c) as [|x b] eqn:Eb; [intros _; exact Hfr|].
  rewrite <- Eb.
  assert (Hlb : 1 <= len (ac_in_buffer c)).
  { rewrite Eb, len_cons. pose proof (len_nonneg b). lia. }
  destruct (terminator c =? 0) eqn:E0.
  { apply Z.eqb_eq in E0. apply IH. revert Hfr.
    destruct c as [ad d i t cb bb conn]. unfold framing, collected. cbn in *.
    subst t. destruct cb; lia. }
  apply Z.eqb_neq in E0.
  destruct (len (ac_in_buffer c) <? terminator c) eqn:E1.
  { apply Z.ltb_lt in E1. apply IH. revert Hfr E1 Hlb.
    destruct c as [ad d i t cb bb conn]. unfold framing, collected. cbn.
    destruct cb; [|lia]. rewrite len_concat_snoc. lia. }
  apply Z.ltb_ge in E1.
  destruct (out (call_found_terminator (cut c))) as [u|e|] eqn:Ec.
  - rewrite (bind_after _ _ _ u) by exact Ec. unfold after. cbn [out st].
    apply IH. eapply found_framing; eauto.
  - rewrite (bind_raise _ _ _ e) by exact Ec. discriminate.
  - rewrite bind_fuel by exact Ec. discriminate.
Qed.


Lemma framing_buffer b c : framing (set_ac_in_buffer b c) <-> framing c.
Proof. destruct c. reflexivity. Qed.

Lemma read_eq r c :
  read r c =
  match out (handle_read r c) with
  | Raise e =>
      mkRes (Ok tt) (set_connected false (st (handle_read r c)))
        (tr (handle_read r c) ++ error_events (addr c) e)
  | _ => handle_read r c
  end.
Proof.
  destruct (out (handle_read r c)) as [u|e|] eqn:E.
  - unfold read, try_except. rewrite E. reflexivity.
  - apply read_failure. exact E.
  - unfold read, try_except. rewrite E. reflexivity.
Qed.

(** A read that brings data to a handler between two reads. *)
Lemma read_framed_data x d c :
  framed c ->
  let r := handle_read_loop (S (length (x :: d))) (set_ac_in_buffer (x :: d) c) in
  out r <> OutOfFuel /\
  read (recv_data (x :: d)) c =
    match out r with
    | Raise e =>
        mkRes (Ok tt) (set_connected false (st r))
          (EvRecv (x :: d) :: tr r ++ error_events (addr c) e)
    | _ => after [EvRecv (x :: d)] r
    end /\
  (forall a, out r = Ok a -> framed (st r)).
Proof.
  intros [Hb Hfr]. cbn zeta. split; [|split].
  - apply loop_no_fuel; fields; [|lia]. apply framing_nonneg, Hfr.
  - apply read_data_settled; [discriminate|].
    split; [exact Hb|apply framing_nonneg, Hfr].
  - intros a Ho. split.
    + eapply loop_ok_buffer, Ho.
    + eapply loop_framing; [|exact Ho]. apply framing_buffer, Hfr.
Qed.

(** The peer closes, or the connection is reset: the close is logged
    through [log_info] at error level and the channel closes. What was
    buffered of an unfinished frame is dropped. *)
Lemma read_peer_close c :
  ac_in_buffer c = [] ->
  read (recv_data []) c =
    mkRes (Ok tt) (set_connected false c)
      [EvRecv []; EvLog ERROR MsgUnhandledClose; EvClose] /\
  read recv_disconnected c =
    mkRes (Ok tt) (set_connected false c) [EvLog ERROR MsgUnhandledClose; EvClose].
Proof.
  intros Hb. rewrite !read_eq, !handle_read_eq, Hb. cbn [app length].
  rewrite !loop_nil by reflexivity.
  unfold after. cbn [out st tr app].
  destruct c as [ad d i t cb b conn]. cbn in Hb. subst b. split; reflexivity.
Qed.

(** The invariant holds between any two reads of a channel that is still
    in the socket map. *)
Lemma read_framed r c :
  framed c -> connected (st (read r c)) = true -> framed (st (read r c)).
Proof.
  intros Hfr. destruct r as [[|x d]| |errno].
  - rewrite (proj1 (read_peer_close c (proj1 Hfr))). discriminate.
  - destruct (read_framed_data x d c Hfr) as (Hnf & -> & Hok).
    destruct (out (handle_read_loop _ _)) as [u|e|] eqn:E.
    + intros _. unfold after. cbn [st]. eapply Hok. reflexivity.
    + discriminate.
    + congruence.
  - rewrite (proj2 (read_peer_close c (proj1 Hfr))). discriminate.
  - rewrite read_io_error. discriminate.
Qed.

Lemma read_total r c : framed c -> out (read r c) = Ok tt.
Proof.
  intros Hfr. destruct r as [[|x d]| |errno].
  - rewrite (proj1 (read_peer_close c (proj1 Hfr))). reflexivity.
  - destruct (read_framed_data x d c Hfr) as (Hnf & -> & Hok).
    destruct (out (handle_read_loop _ _)) as [[]|e|] eqn:E.
    + unfold after. cbn [out]. exact E.
    + reflexivity.
    + congruence.
  - rewrite (proj2 (read_peer_close c (proj1 Hfr))). reflexivity.
  - rewrite read_io_error. reflexivity.
Qed.

Lemma serve_framed rs : forall c,
  framed c ->
  out (serve rs c) = Ok tt /\
  (connected (st (serve rs c)) = true -> framed (st (serve rs c))).
Proof.
  induction rs as [|r rs IH]; intros c Hfr.
  - split; [reflexivity|]. intros _. exact Hfr.
  - destruct (connected c) eqn:Hc.
    + rewrite serve_cons by exact Hc.
      pose proof (read_total r c Hfr) as Ho.
      rewrite (bind_after _ _ _ tt) by exact Ho. unfold after. cbn [out st].
      destruct (connected (st (read r c))) eqn:Hc'.
      * apply IH. apply read_framed; assumption.
      * rewrite serve_closed by exact Hc'. cbn [out st]. split; [reflexivity|].
        congruence.
    + rewrite serve_closed by exact Hc. cbn [out st]. split; [reflexivity|].
      congruence.
Qed.


(** *** A dispatcher that keeps the connection going *)











(** *** Frames back to back *)


Lemma sent_observable v : observable (sent v).2 = (sent v).2.
Proof.
  destruct v as [|[|b r]|[|b r]|[|x l]]; cbn; try reflexivity.
  all: destruct (struct_pack_I _); reflexivity.
Qed.

Lemma sent_each_observable rs : observable (sent_each rs).2 = (sent_each rs).2.
Proof.
  induction rs as [|r rs IH]; [reflexivity|]. cbn [sent_each].
  pose proof (sent_observable r) as H.
  destruct (sent r) as [[u|e|] t]; cbn [fst snd] in *; try exact H.
  destruct (sent_each rs) as [o t']. cbn [fst snd] in *.
  rewrite observable_app, H, IH. reflexivity.
Qed.

Lemma sent_all_observable v : observable (sent_all v).2 = (sent_all v).2.
Proof.
  destruct v as [|b|b|rs]; unfold sent_all; try reflexivity.
  1,2: destruct b; unfold truthy; try reflexivity; apply sent_observable.
  apply sent_each_observable.
Qed.



End S.
End ReactorRuns.

(** ** Whole conversations on the blocking socket *)

Lemma skip_nil n : skip n [] = [].
Proof. cbn. destruct (n <=? 0); reflexivity. Qed.

Lemma skip_nonpos n ds : n <= 0 -> skip n ds = ds.
Proof.
  intros H. apply Z.leb_le in H. destruct ds; cbn; rewrite H; reflexivity.
Qed.

Lemma skip_cons n d ds :
  0 < n ->
  skip n (d :: ds) =
    if len d <=? n then skip (n - len d) ds else drop (Z.to_nat n) d :: ds.
Proof.
  intros H. cbn [skip]. replace (n <=? 0) with false; [reflexivity|].
  symmetry. apply Z.leb_gt. exact H.
Qed.

Lemma skip_length ds : forall n, (length (skip n ds) <= length ds)%nat.
Proof.
  induction ds as [|d ds IH]; intros n.
  - rewrite skip_nil. reflexivity.
  - destruct (Z_le_gt_dec n 0) as [H|H].
    + rewrite skip_nonpos by exact H. reflexivity.
    + rewrite skip_cons by lia. destruct (len d <=? n).
      * specialize (IH (n - len d)). cbn [length]. lia.
      * reflexivity.
Qed.

Lemma concat_skip ds : forall n,
  concat (skip n ds) = drop (Z.to_nat n) (concat ds).
Proof.
  induction ds as [|d ds IH]; intros n.
  - rewrite skip_nil. cbn. rewrite drop_nil. reflexivity.
  - destruct (Z_le_gt_dec n 0) as [H|H].
    + rewrite skip_nonpos by exact H.
      replace (Z.to_nat n) with 0%nat by lia. reflexivity.
    + rewrite skip_cons by lia. cbn [concat].
      destruct (len d <=? n) eqn:E.
      * apply Z.leb_le in E. rewrite IH.
        rewrite drop_app_ge by (unfold len in E; lia).
        f_equal. unfold len. lia.
      * apply Z.leb_gt in E. cbn [concat].
        rewrite drop_app_le by (unfold len in E; lia). reflexivity.
Qed.

Module ThreadedRuns.
Import ThreadedConnectionHandler ThreadedFacts.
Section S.
Context {base : ppymilterbase}.

Lemma same_but_incoming_refl h : same_but_incoming h h.
Proof. repeat split. Qed.

Lemma same_but_incoming_set q h : same_but_incoming h (set_incoming q h).
Proof. repeat split. Qed.

Lemma same_but_incoming_trans h1 h2 h3 :
  same_but_incoming h1 h2 -> same_but_incoming h2 h3 -> same_but_incoming h1 h3.
Proof.
  intros (A1 & A2 & A3) (B1 & B2 & B3). repeat split; congruence.
Qed.

(** *** One [recv] on a queue of chunks *)

Lemma socket_recv_chunks n ds :
  0 < n ->
  exists d ds',
    socket_recv n (map chunk ds) = (Ok d, map chunk ds') /\
    len d <= n /\ concat ds = d ++ concat ds' /\
    skip n ds = skip (n - len d) ds' /\
    (length ds' <= length ds)%nat /\
    (concat ds <> [] -> d <> [] /\ (len d < n -> (length ds' < length ds)%nat)).
Proof.
  intros Hn. induction ds as [|d0 ds IH].
  - exists [], []. cbn [map socket_recv concat app]. rewrite !skip_nil.
    split; [reflexivity|]. split; [change (len []) with 0; lia|].
    split; [reflexivity|]. split; [reflexivity|]. split; [reflexivity|].
    intros H. congruence.
  - destruct d0 as [|x d0].
    + destruct IH as (d & ds' & Hs & Hl & Hc & Hk & Hlen & Hne).
      exists d, ds'. cbn [map socket_recv concat app].
      split; [exact Hs|]. split; [exact Hl|]. split; [exact Hc|].
      split; [|split].
      * rewrite skip_cons by exact Hn. change (len []) with 0.
        replace (0 <=? n) with true by (symmetry; apply Z.leb_le; lia).
        rewrite Z.sub_0_r. exact Hk.
      * cbn [length]. lia.
      * intros H. destruct (Hne H) as [H1 H2]. split; [exact H1|].
        intros H3. specialize (H2 H3). cbn [length]. lia.
    + cbn [map socket_recv].
      destruct (len (x :: d0) <=? n) eqn:E.
      * apply Z.leb_le in E. exists (x :: d0), ds.
        split; [reflexivity|]. split; [exact E|]. split; [reflexivity|].
        split; [|split].
        -- rewrite skip_cons by exact Hn.
           replace (len (x :: d0) <=? n) with true by (symmetry; apply Z.leb_le; lia).
           reflexivity.
        -- cbn [length]. lia.
        -- intros _. split; [discriminate|]. intros _. cbn [length]. lia.
      * apply Z.leb_gt in E.
        exists (take (Z.to_nat n) (x :: d0)), (drop (Z.to_nat n) (x :: d0) :: ds).
        assert (Hlt : len (take (Z.to_nat n) (x :: d0)) = n).
        { unfold len in *. rewrite length_take. lia. }
        split; [reflexivity|]. split; [lia|]. split; [|split; [|split]].
        -- cbn [concat]. rewrite app_assoc, take_drop. reflexivity.
        -- rewrite skip_cons by exact Hn.
           replace (len (x :: d0) <=? n) with false by (symmetry; apply Z.leb_gt; lia).
           rewrite Hlt, Z.sub_diag, skip_nonpos by lia. reflexivity.
        -- reflexivity.
        -- intros _. split; [|lia]. intros H. rewrite H in Hlt.
           change (len []) with 0 in Hlt. lia.
Qed.

Lemma request_recv_chunks n ds h :
  0 < n -> incoming (request h) = map chunk ds ->
  exists d ds',
    request_recv n h = mkRes (Ok d) (set_incoming (map chunk ds') h) [EvRecv d] /\
    len d <= n /\ concat ds = d ++ concat ds' /\
    skip n ds = skip (n - len d) ds' /\
    (length ds' <= length ds)%nat /\
    (concat ds <> [] -> d <> [] /\ (len d < n -> (length ds' < length ds)%nat)).
Proof.
  intros Hn Hin.
  destruct (socket_recv_chunks n ds Hn) as (d & ds' & Hs & H).
  exists d, ds'. split; [|exact H].
  rewrite request_recv_eq, Hin, Hs. reflexivity.
Qed.


(** *** The payload loop *)

Lemma recv_payload_done fuel n inbuf read h :
  n - read <= 0 -> recv_payload (S fuel) n inbuf read h = mkRes (Ok inbuf) h [].
Proof.
  intros H. cbn [recv_payload].
  replace (read <? n) with false by (symmetry; apply Z.ltb_ge; lia).
  reflexivity.
Qed.

Lemma recv_payload_more fuel n inbuf read h :
  0 < n - read ->
  recv_payload (S fuel) n inbuf read h =
  (partial_data <- request_recv (n - read) ;;
   recv_payload fuel n (inbuf ++ [partial_data]) (read + len partial_data)) h.
Proof.
  intros H. cbn [recv_payload].
  replace (read <? n) with true by (symmetry; apply Z.ltb_lt; lia).
  reflexivity.
Qed.

(** With enough bytes to come, the loop gathers exactly the payload, piece
    by piece, and leaves the rest on the socket. *)
Lemma recv_payload_chunks fuel : forall ds h n inbuf read,
  incoming (request h) = map chunk ds ->
  n - read <= len (concat ds) ->
  (n - read <= 0 /\ (0 < fuel)%nat) \/ (length ds < fuel)%nat ->
  let r := recv_payload fuel n inbuf read h in
  exists pieces,
    out r = Ok (inbuf ++ pieces) /\ tr r = map EvRecv pieces /\
    concat pieces = take (Z.to_nat (n - read)) (concat ds) /\
    incoming (request (st r)) = map chunk (skip (n - read) ds) /\
    same_but_incoming h (st r).
Proof.
  induction fuel as [|fuel IH]; intros ds h n inbuf read Hin Hle Hf; cbn zeta.
  { exfalso. destruct Hf as [[_ Hf]|Hf]; lia. }
  destruct (Z_le_gt_dec (n - read) 0) as [Hz|Hz].
  { rewrite recv_payload_done by exact Hz. exists []. cbn [out st tr map concat].
    rewrite app_nil_r, skip_nonpos by exact Hz.
    replace (Z.to_nat (n - read)) with 0%nat by lia. rewrite take_0.
    repeat split. exact Hin. }
  assert (Hlen : (length ds < S fuel)%nat) by (destruct Hf as [[? _]|?]; lia).
  rewrite recv_payload_more by lia.
  destruct (request_recv_chunks (n - read) ds h) as (d & ds' & Hr & Hl & Hc & Hk & Hn & Hne);
    [lia|exact Hin|].
  assert (Hcne : concat ds <> []).
  { intros E. rewrite E in Hle. change (len []) with 0 in Hle. lia. }
  destruct (Hne Hcne) as [Hd Hshort].
  rewrite (bind_after _ _ _ d) by (rewrite Hr; reflexivity).
  rewrite Hr. cbn [out st tr].
  set (h1 := set_incoming (map chunk ds') h).
  destruct (IH ds' h1 n (inbuf ++ [d]) (read + len d)) as (pieces & Ho & Ht & Hp & Hi & Hs).
  { reflexivity. }
  { rewrite Hc, len_app in Hle. lia. }
  { destruct (Z_le_gt_dec (n - read) (len d)) as [H1|H1].
    - left. split; [lia|]. destruct ds; [cbn in Hcne; congruence|]. cbn [length] in Hlen. lia.
    - right. specialize (Hshort ltac:(lia)). lia. }
  exists (d :: pieces). unfold after. cbn [out st tr].
  split; [rewrite Ho, <- app_assoc; reflexivity|].
  split; [rewrite Ht; reflexivity|].
  split; [|split].
  - cbn [concat]. rewrite Hp, Hc.
    rewrite take_app_ge by (unfold len in Hl; lia).
    f_equal. f_equal. unfold len. lia.
  - rewrite Hi, Hk. f_equal. f_equal. lia.
  - eapply same_but_incoming_trans; [|exact Hs]. apply same_but_incoming_set.
Qed.

(** When the peer closes before the payload is complete, [recv] keeps
    returning the empty string and the loop never ends. *)
Lemma recv_payload_starves fuel : forall ds h n inbuf read,
  incoming (request h) = map chunk ds ->
  len (concat ds) < n - read ->
  let r := recv_payload fuel n inbuf read h in
  out r = OutOfFuel /\ AsyncConnectionHandler.observable (tr r) = [].
Proof.
  induction fuel as [|fuel IH]; intros ds h n inbuf read Hin Hlt; cbn zeta.
  { split; reflexivity. }
  pose proof (len_nonneg (concat ds)) as H0.
  rewrite recv_payload_more by lia.
  destruct (request_recv_chunks (n - read) ds h) as (d & ds' & Hr & Hl & Hc & _);
    [lia|exact Hin|].
  rewrite (bind_after _ _ _ d) by (rewrite Hr; reflexivity).
  rewrite Hr. cbn [out st tr].
  destruct (IH ds' (set_incoming (map chunk ds') h) n (inbuf ++ [d]) (read + len d))
    as (Ho & Ht).
  { reflexivity. }
  { rewrite Hc, len_app in Hlt. lia. }
  unfold after. cbn [out st tr]. split; [exact Ho|].
  cbn [app]. rewrite AsyncFacts.observable_recv. exact Ht.
Qed.

(** *** The header *)

Lemma recv_header ds :
  header_ready ds = true ->
  socket_recv MILTER_LEN_BYTES (map chunk ds) =
    (Ok (take 4 (concat ds)), map chunk (skip MILTER_LEN_BYTES ds)) /\
  4 <= len (concat ds).
Proof.
  induction ds as [|d ds IH]; [discriminate|].
  destruct d as [|x d].
  - cbn [header_ready map socket_recv concat app]. intros H.
    destruct (IH H) as [-> Hl]. split; [|exact Hl].
    rewrite (skip_cons MILTER_LEN_BYTES) by (unfold MILTER_LEN_BYTES; lia).
    reflexivity.
  - cbn [header_ready]. intros H. apply Z.leb_le in H. unfold MILTER_LEN_BYTES in H.
    cbn [map socket_recv concat].
    rewrite (skip_cons MILTER_LEN_BYTES) by (unfold MILTER_LEN_BYTES; lia).
    split; [|rewrite len_app; pose proof (len_nonneg (concat ds)); lia].
    destruct (len (x :: d) <=? MILTER_LEN_BYTES) eqn:E.
    + apply Z.leb_le in E. unfold MILTER_LEN_BYTES in E.
      assert (Hl : length (x :: d) = 4%nat) by (unfold len in *; lia).
      rewrite take_app_length' by (symmetry; exact Hl).
      replace (MILTER_LEN_BYTES - len (x :: d)) with 0
        by (unfold MILTER_LEN_BYTES; lia).
      rewrite skip_nonpos by lia. reflexivity.
    + apply Z.leb_gt in E. unfold MILTER_LEN_BYTES in E.
      change (Z.to_nat MILTER_LEN_BYTES) with 4%nat.
      rewrite take_app_le by (unfold len in *; lia). reflexivity.
Qed.


(** *** One turn of the loop *)

Lemma after_after {S A} t1 t2 (r : res S A) : after t1 (after t2 r) = after (t1 ++ t2) r.
Proof. unfold after. cbn [out st tr]. rewrite app_assoc. reflexivity. Qed.

Lemma handle_turn_chunks fuel ds p more h :
  incoming (request h) = map chunk ds -> header_ready ds = true ->
  len p <= 4294967295 -> concat ds = encode_frame p ++ more ->
  (length ds < fuel)%nat ->
  exists pieces h1,
    concat pieces = p /\
    handle_turn fuel h =
      after (EvRecv (take 4 (concat ds)) :: map EvRecv pieces ++ [EvLog DEBUG (MsgIn p)])
        (respond p h1) /\
    incoming (request h1) = map chunk (skip (len p) (skip MILTER_LEN_BYTES ds)) /\
    same_but_incoming h h1 /\
    concat (skip (len p) (skip MILTER_LEN_BYTES ds)) = more.
Proof.
  intros Hin Hr Hl Hcat Hf.
  destruct (encode_frame_eq p Hl) as (hd & Hpk & Hh4 & Hu & He).
  destruct (recv_header ds Hr) as [Hs H4].
  assert (Hhd : take 4 (concat ds) = hd).
  { rewrite Hcat, He, <- app_assoc. apply take_app_length'. symmetry. exact Hh4. }
  assert (Hrest : concat (skip MILTER_LEN_BYTES ds) = p ++ more).
  { rewrite concat_skip, Hcat, He, <- app_assoc.
    change (Z.to_nat MILTER_LEN_BYTES) with 4%nat.
    apply drop_app_length'. symmetry. exact Hh4. }
  set (h0 := set_incoming (map chunk (skip MILTER_LEN_BYTES ds)) h).
  assert (H1 : request_recv MILTER_LEN_BYTES h = mkRes (Ok hd) h0 [EvRecv hd]).
  { rewrite request_recv_eq, Hin, Hs, Hhd. reflexivity. }
  destruct (recv_payload_chunks fuel (skip MILTER_LEN_BYTES ds) h0 (len p) [] 0)
    as (pieces & Ho & Ht & Hp & Hi & Hsame).
  { reflexivity. }
  { rewrite Hrest, len_app. pose proof (len_nonneg more). lia. }
  { right. pose proof (skip_length ds MILTER_LEN_BYTES). lia. }
  cbn zeta in Ho, Ht, Hp, Hi, Hsame.
  rewrite Z.sub_0_r in Hp, Hi. rewrite Hrest in Hp.
  replace (Z.to_nat (len p)) with (length p) in Hp by (unfold len; lia).
  rewrite take_app_length in Hp. cbn [app] in Ho.
  exists pieces, (st (recv_payload fuel (len p) [] 0 h0)).
  split; [exact Hp|]. split; [|split; [exact Hi|split]].
  - unfold handle_turn.
    rewrite (bind_after _ _ _ hd) by (rewrite H1; reflexivity).
    rewrite H1. cbn [out st tr].
    rewrite (bind_after _ _ _ (len p)) by exact Hu.
    cbn [lift out st tr].
    rewrite (bind_after _ _ _ pieces) by exact Ho.
    rewrite Ht, Hp.
    rewrite (bind_after _ _ _ tt) by reflexivity.
    cbn [logger_debug emit out st tr].
    rewrite !after_after, Hhd. reflexivity.
  - eapply same_but_incoming_trans; [|exact Hsame]. apply same_but_incoming_set.
  - rewrite concat_skip, Hrest.
    replace (Z.to_nat (len p)) with (length p) by (unfold len; lia).
    apply drop_app_length.
Qed.


(** *** Sends that go through *)

Lemma same_but_sends_refl h : same_but_sends h h.
Proof. repeat split. Qed.

Lemma same_but_sends_trans h1 h2 h3 :
  same_but_sends h1 h2 -> same_but_sends h2 h3 -> same_but_sends h1 h3.
Proof.
  intros (A1 & A2 & A3) (B1 & B2 & B3). repeat split; congruence.
Qed.

Lemma request_send_succeeds data h :
  sends_succeed h ->
  exists h', request_send data h = mkRes (Ok tt) h' [EvWrite data] /\
             sends_succeed h' /\ same_but_sends h h'.
Proof.
  unfold sends_succeed, request_send. intros H.
  destruct (send_results (request h)) as [|[errno|] q] eqn:E.
  - exists h. split; [reflexivity|]. split; [rewrite E; constructor|repeat split].
  - inversion H as [|? ? Hx _]. discriminate Hx.
  - inversion H as [|? ? _ Hq]. subst. exists (set_send_results q h).
    split; [reflexivity|]. split; [exact Hq|repeat split].
Qed.

Lemma two_sends_succeed hd r h :
  sends_succeed h ->
  exists h', (request_send hd ;; request_send r) h =
               mkRes (Ok tt) h' [EvWrite hd; EvWrite r] /\
             sends_succeed h' /\ same_but_sends h h'.
Proof.
  intros Hs.
  destruct (request_send_succeeds hd h Hs) as (h1 & E1 & S1 & K1).
  destruct (request_send_succeeds r h1 S1) as (h2 & E2 & S2 & K2).
  exists h2. split; [|split; [exact S2|eapply same_but_sends_trans; eassumption]].
  unfold bind. rewrite E1. cbn [out st tr]. rewrite E2. reflexivity.
Qed.

Lemma send_pack_fails b (p : bytes) h o :
  struct_pack_I (len (b :: p)) = o -> (forall hd, o <> Ok hd) ->
  __send_response (PyBytes (b :: p)) h =
    mkRes (match o with Ok _ => OutOfFuel | Raise e => Raise e | OutOfFuel => OutOfFuel end)
      h [EvLog DEBUG (MsgOut b)] /\
  __send_response (PyStr (b :: p)) h =
    mkRes (match o with Ok _ => OutOfFuel | Raise e => Raise e | OutOfFuel => OutOfFuel end)
      h [EvLog DEBUG (MsgOut b)].
Proof.
  intros E Hno.
  unfold __send_response, bind, logger_debug, emit, lift. cbn [out st tr].
  rewrite E. destruct o as [hd| |]; [destruct (Hno hd eq_refl)| |]; split; reflexivity.
Qed.

Lemma send_response_succeeds v h :
  sends_succeed h ->
  exists h', __send_response v h =
               mkRes (AsyncConnectionHandler.sent v).1 h' (AsyncConnectionHandler.sent v).2 /\
             sends_succeed h' /\ same_but_sends h h'.
Proof.
  intros Hs.
  assert (Hframe : forall b p,
    exists h',
      (__send_response (PyBytes (b :: p)) h =
         mkRes (AsyncConnectionHandler.sent (PyBytes (b :: p))).1 h'
           (AsyncConnectionHandler.sent (PyBytes (b :: p))).2 /\
       __send_response (PyStr (b :: p)) h =
         mkRes (AsyncConnectionHandler.sent (PyStr (b :: p))).1 h'
           (AsyncConnectionHandler.sent (PyStr (b :: p))).2) /\
      sends_succeed h' /\ same_but_sends h h').
  { intros b p. cbn [AsyncConnectionHandler.sent].
    destruct (struct_pack_I (len (b :: p))) as [hd|e|] eqn:E.
    - destruct (send_response_eq b p hd h E) as [E1 E2].
      destruct (two_sends_succeed hd (b :: p) h Hs) as (h2 & E3 & S2 & K2).
      exists h2. split; [|split; assumption].
      rewrite E1, E2, E3. split; reflexivity.
    - exists h. split; [|split; [exact Hs|repeat split]].
      apply (send_pack_fails b p h (Raise e) E). discriminate.
    - exists h. split; [|split; [exact Hs|repeat split]].
      apply (send_pack_fails b p h OutOfFuel E). discriminate. }
  destruct v as [|[|b p]|[|b p]|[|x l]].
  1,2,4,6,7: exists h; split; [reflexivity|split; [exact Hs|repeat split]].
  - destruct (Hframe b p) as (h' & [E _] & S & K). exists h'. auto.
  - destruct (Hframe b p) as (h' & [_ E] & S & K). exists h'. auto.
Qed.

Lemma for_each_send_succeeds rs : forall h,
  sends_succeed h ->
  exists h', for_each rs __send_response h =
               mkRes (AsyncConnectionHandler.sent_each rs).1 h'
                 (AsyncConnectionHandler.sent_each rs).2 /\
             sends_succeed h' /\ same_but_sends h h'.
Proof.
  induction rs as [|v rs IH]; intros h Hs.
  { exists h. split; [reflexivity|split; [exact Hs|repeat split]]. }
  cbn [for_each AsyncConnectionHandler.sent_each].
  destruct (send_response_succeeds v h Hs) as (h1 & E1 & S1 & K1).
  unfold bind. rewrite E1. cbn [out st tr].
  destruct (AsyncConnectionHandler.sent v) as [[[]|e|] t] eqn:E; cbn [fst snd].
  - destruct (IH h1 S1) as (h2 & E2 & S2 & K2). rewrite E2.
    destruct (AsyncConnectionHandler.sent_each rs) as [o t']. cbn [fst snd out st tr].
    exists h2. split; [reflexivity|]. split; [exact S2|].
    eapply same_but_sends_trans; eassumption.
  - exists h1. auto.
  - exists h1. auto.
Qed.

Lemma send_responses_succeeds v h :
  sends_succeed h ->
  exists h', send_responses v h =
               mkRes (AsyncConnectionHandler.sent_all v).1 h'
                 (AsyncConnectionHandler.sent_all v).2 /\
             sends_succeed h' /\ same_but_sends h h'.
Proof.
  intros Hs.
  assert (Hret : exists h', ret tt h = mkRes (Ok tt) h' [] /\
                            sends_succeed h' /\ same_but_sends h h').
  { exists h. split; [reflexivity|split; [exact Hs|repeat split]]. }
  destruct v as [|b|b|rs]; unfold send_responses, AsyncConnectionHandler.sent_all.
  - exact Hret.
  - destruct b; cbn [truthy]; [exact Hret|]. apply send_response_succeeds, Hs.
  - destruct b; cbn [truthy]; [exact Hret|]. apply send_response_succeeds, Hs.
  - apply for_each_send_succeeds, Hs.
Qed.

(** Dispatching one payload on a dispatcher that keeps going, when no send
    fails. *)
Lemma respond_steady p h :
  AsyncConnectionHandler.keeps_going -> sends_succeed h ->
  exists h',
    respond p h =
      mkRes (Ok Continue) h'
        (EvDispatch p (Dispatch (milter_dispatcher h) p).1 ::
         match (Dispatch (milter_dispatcher h) p).1 with
         | Returns v => (AsyncConnectionHandler.sent_all v).2
         | Raises _ => []
         end) /\
    sends_succeed h' /\ self_id h' = self_id h /\
    milter_dispatcher h' = (Dispatch (milter_dispatcher h) p).2 /\
    incoming (request h') = incoming (request h).
Proof.
  intros Hk Hs. rewrite respond_eq. cbn zeta.
  destruct (Hk (milter_dispatcher h) p) as (v & Hv & Hok).
  rewrite Hv.
  set (h1 := set_milter_dispatcher (Dispatch (milter_dispatcher h) p).2 h).
  assert (Hs1 : sends_succeed h1) by exact Hs.
  destruct (send_responses_succeeds v h1 Hs1) as (h2 & E & S & K1 & K2 & K3).
  rewrite E, Hok. cbn [out st tr].
  exists h2. split; [reflexivity|]. split; [exact S|]. split; [exact K1|].
  split; [exact K2|exact K3].
Qed.


(** *** The end of the stream *)

Lemma socket_recv_drained n ds :
  concat ds = [] -> socket_recv n (map chunk ds) = (Ok [], []).
Proof.
  induction ds as [|d ds IH]; [reflexivity|]. cbn [concat]. intros H.
  apply app_eq_nil in H as [-> H]. cbn [map socket_recv]. apply IH, H.
Qed.

Lemma handle_turn_eof fuel ds h :
  incoming (request h) = map chunk ds -> concat ds = [] ->
  handle_turn fuel h = mkRes (Raise struct_error) (set_incoming [] h) [EvRecv []].
Proof.
  intros Hin Hc. unfold handle_turn.
  assert (H1 : request_recv MILTER_LEN_BYTES h = mkRes (Ok []) (set_incoming [] h) [EvRecv []]).
  { rewrite request_recv_eq, Hin, socket_recv_drained by exact Hc. reflexivity. }
  rewrite (bind_after _ _ _ []) by (rewrite H1; reflexivity).
  rewrite H1. cbn [out st tr].
  rewrite (bind_raise _ _ _ struct_error) by reflexivity.
  reflexivity.
Qed.

Lemma observable_recvs (l : list bytes) :
  AsyncConnectionHandler.observable (map EvRecv l) = [].
Proof. induction l as [|d l IH]; [reflexivity|exact IH]. Qed.

Lemma handle_loop_unfold fuel h :
  handle_loop (S fuel) h =
  (f <- handle_turn fuel ;;
   match f with Continue => handle_loop fuel | Break => ret tt end) h.
Proof. reflexivity. Qed.

Lemma sends_succeed_same h h' :
  same_but_incoming h h' -> sends_succeed h -> sends_succeed h'.
Proof. intros (_ & _ & E). unfold sends_succeed. rewrite E. auto. Qed.

(** *** Frames back to back, then the peer closes *)

Lemma handle_loop_frames ps : forall ds h fuel,
  AsyncConnectionHandler.keeps_going ->
  incoming (request h) = map chunk ds -> sends_succeed h ->
  Forall (fun p => len p <= 4294967295) ps ->
  concat ds = concat (map encode_frame ps) ->
  headers_whole ps ds = true ->
  (length ps + length ds < fuel)%nat ->
  exists h' t,
    handle_loop fuel h = mkRes (Raise struct_error) h' t /\
    AsyncConnectionHandler.observable t = replies (milter_dispatcher h) ps /\
    self_id h' = self_id h /\
    milter_dispatcher h' = dispatcher_after (milter_dispatcher h) ps.
Proof.
  induction ps as [|p ps IH]; intros ds h fuel Hk Hin Hs Hall Hcat Hw Hf.
  { destruct fuel as [|f]; [lia|]. rewrite handle_loop_unfold.
    rewrite (bind_raise _ _ _ struct_error)
      by (rewrite (handle_turn_eof f ds h Hin Hcat); reflexivity).
    rewrite (handle_turn_eof f ds h Hin Hcat). cbn [out st tr].
    exists (set_incoming [] h), [EvRecv []]. repeat split. }
  inversion Hall as [|? ? Hl Hall']; subst.
  cbn [headers_whole] in Hw. apply andb_prop in Hw as [Hr Hw].
  cbn [map concat] in Hcat. cbn [length] in Hf.
  destruct fuel as [|f]; [lia|]. rewrite handle_loop_unfold.
  destruct (handle_turn_chunks f ds p (concat (map encode_frame ps)) h Hin Hr Hl Hcat)
    as (pieces & h1 & Hp & Ht & Hi1 & Hsame & Hrest); [lia|].
  destruct (respond_steady p h1 Hk (sends_succeed_same _ _ Hsame Hs))
    as (h2 & Er & S2 & Kid & Kd & Ki).
  destruct Hsame as (Sid & Sd & _).
  rewrite Sd in Er, Kd.
  destruct (IH (skip (len p) (skip MILTER_LEN_BYTES ds)) h2 f Hk)
    as (h3 & t3 & El & Ho & Hid & Hd); try assumption.
  { rewrite Ki, Hi1. reflexivity. }
  { pose proof (skip_length (skip MILTER_LEN_BYTES ds) (len p)).
    pose proof (skip_length ds MILTER_LEN_BYTES). lia. }
  rewrite (bind_after _ _ _ Continue) by (rewrite Ht, Er; reflexivity).
  rewrite Ht, Er. unfold after. cbn [out st tr]. rewrite El. cbn [out st tr].
  eexists _, _. split; [reflexivity|]. split; [|split].
  - assert (HT : AsyncConnectionHandler.observable
                   (EvRecv (take 4 (concat ds)) :: map EvRecv pieces ++
                    [EvLog DEBUG (MsgIn p)]) = [EvLog DEBUG (MsgIn p)]).
    { rewrite AsyncFacts.observable_recv, AsyncFacts.observable_app, observable_recvs.
      reflexivity. }
    assert (HM : forall r,
               AsyncConnectionHandler.observable
                 (EvDispatch p r ::
                  match r with
                  | Returns v => (AsyncConnectionHandler.sent_all v).2
                  | Raises _ => []
                  end) =
               EvDispatch p r ::
                 match r with
                 | Returns v => (AsyncConnectionHandler.sent_all v).2
                 | Raises _ => []
                 end).
    { intros [v|e]; [|reflexivity].
      change (EvDispatch p (Returns v) ::
              AsyncConnectionHandler.observable (AsyncConnectionHandler.sent_all v).2 =
              EvDispatch p (Returns v) :: (AsyncConnectionHandler.sent_all v).2).
      rewrite ReactorRuns.sent_all_observable. reflexivity. }
    rewrite !AsyncFacts.observable_app, HT, HM, Ho, Kd.
    cbn [replies]. cbn zeta. rewrite <- !app_assoc. reflexivity.
  - congruence.
  - rewrite Hd, Kd. reflexivity.
Qed.

(** *** A frame cut short *)

Lemma handle_turn_starves fuel ds p rest h :
  incoming (request h) = map chunk ds -> header_ready ds = true ->
  len p <= 4294967295 -> rest <> [] -> concat ds ++ rest = encode_frame p ->
  out (handle_turn fuel h) = OutOfFuel /\
  AsyncConnectionHandler.observable (tr (handle_turn fuel h)) = [].
Proof.
  intros Hin Hr Hl Hrest Hcat.
  destruct (encode_frame_eq p Hl) as (hd & Hpk & Hh4 & Hu & He).
  destruct (recv_header ds Hr) as [Hs H4].
  assert (Hlen : len (concat ds) + len rest = 4 + len p).
  { rewrite <- len_app, Hcat, He, len_app. unfold len at 1. rewrite Hh4. reflexivity. }
  assert (Hr1 : 1 <= len rest).
  { destruct rest; [congruence|]. rewrite len_cons. pose proof (len_nonneg rest). lia. }
  assert (Hhd : take 4 (concat ds) = hd).
  { rewrite <- (take_app_le (concat ds) rest) by (unfold len in H4; lia).
    rewrite Hcat, He. apply take_app_length'. symmetry. exact Hh4. }
  set (h0 := set_incoming (map chunk (skip MILTER_LEN_BYTES ds)) h).
  assert (H1 : request_recv MILTER_LEN_BYTES h = mkRes (Ok hd) h0 [EvRecv hd]).
  { rewrite request_recv_eq, Hin, Hs, Hhd. reflexivity. }
  destruct (recv_payload_starves fuel (skip MILTER_LEN_BYTES ds) h0 (len p) [] 0)
    as (Ho & Ht).
  { reflexivity. }
  { rewrite concat_skip. unfold len at 1. rewrite length_drop.
    change (Z.to_nat MILTER_LEN_BYTES) with 4%nat. unfold len in *. lia. }
  cbn zeta in Ho, Ht.
  unfold handle_turn.
  rewrite (bind_after _ _ _ hd) by (rewrite H1; reflexivity).
  rewrite H1. cbn [out st tr].
  rewrite (bind_after _ _ _ (len p)) by exact Hu.
  cbn [lift out st tr].
  rewrite bind_fuel by exact Ho.
  unfold after. cbn [out st tr app]. split; [reflexivity|].
  rewrite AsyncFacts.observable_recv. exact Ht.
Qed.

Lemma handle_loop_starves fuel ds p rest h :
  incoming (request h) = map chunk ds -> header_ready ds = true ->
  len p <= 4294967295 -> rest <> [] -> concat ds ++ rest = encode_frame p ->
  out (handle_loop fuel h) = OutOfFuel /\
  AsyncConnectionHandler.observable (tr (handle_loop fuel h)) = [].
Proof.
  intros Hin Hr Hl Hrest Hcat. destruct fuel as [|f]; [split; reflexivity|].
  destruct (handle_turn_starves f ds p rest h Hin Hr Hl Hrest Hcat) as [Ho Ht].
  rewrite handle_loop_unfold, bind_fuel by exact Ho. cbn [out tr].
  split; [reflexivity|exact Ht].
Qed.



(** *** A header that comes short *)

Lemma struct_unpack_short (b : bytes) :
  length b <> 4%nat -> struct_unpack_I b = Raise struct_error.
Proof.
  destruct b as [|b3 [|b2 [|b1 [|b0 [|x b]]]]]; try reflexivity.
  intros H. exfalso. apply H. reflexivity.
Qed.

Lemma handle_turn_short_header fuel d q h :
  incoming (request h) = chunk d :: q -> d <> [] -> len d < MILTER_LEN_BYTES ->
  handle_turn fuel h = mkRes (Raise struct_error) (set_incoming q h) [EvRecv d].
Proof.
  intros Hin Hd Hl. unfold handle_turn.
  assert (H1 : request_recv MILTER_LEN_BYTES h = mkRes (Ok d) (set_incoming q h) [EvRecv d]).
  { rewrite request_recv_eq, Hin. destruct d as [|x d]; [congruence|].
    cbn [socket_recv].
    replace (len (x :: d) <=? MILTER_LEN_BYTES) with true
      by (symmetry; apply Z.leb_le; lia).
    reflexivity. }
  rewrite (bind_after _ _ _ d) by (rewrite H1; reflexivity).
  rewrite H1. cbn [out st tr].
  assert (Hu : struct_unpack_I d = Raise struct_error).
  { apply struct_unpack_short. unfold len, MILTER_LEN_BYTES in Hl. lia. }
  rewrite (bind_raise _ _ _ struct_error) by (cbn [lift out]; exact Hu).
  reflexivity.
Qed.

(** *** The thread around the loop *)

Lemma thread_after_failure fuel h h' t e :
  handle_loop fuel h = mkRes (Raise e) h' t ->
  process_request_thread fuel h =
    mkRes (Ok tt) h' (t ++ [EvLog ERROR (MsgUncaptured (self_id h') e); EvClose]).
Proof.
  intros E. rewrite process_request_thread_eq, handle_eq. cbn zeta.
  rewrite E. cbn [out st tr]. rewrite <- app_assoc. reflexivity.
Qed.

Lemma thread_starves fuel h :
  out (handle_loop fuel h) = OutOfFuel ->
  process_request_thread fuel h = handle_loop fuel h.
Proof.
  intros E. rewrite process_request_thread_eq, handle_eq. cbn zeta.
  rewrite E. cbn [out]. rewrite E. reflexivity.
Qed.


End S.
End ThreadedRuns.

(** ** The reactor as a whole *)

Module ReactorRunsServer.
Import AsyncPpyMilterServer ReactorFacts.
Section S.
Context {base : ppymilterbase}.

Lemma poll_accept_none s :
  poll_event (listener_readable accept_none) s = s.
Proof.
  unfold poll_event. destruct s as [mc ctx [] ch sys j]; [|reflexivity].
  unfold note. cbn. rewrite app_nil_r. reflexivity.
Qed.

Lemma poll_listener_fields a s :
  let s' := poll_event (listener_readable a) s in
  accepting s' = accepting s /\ syscalls s' = syscalls s /\
  the_milter_class s' = the_milter_class s /\ the_context s' = the_context s.
Proof.
  cbn zeta. destruct (accepting s) eqn:E.
  - destruct a as [fd peer| |errno].
    + rewrite poll_accepted by exact E. repeat split. exact E.
    + rewrite poll_accept_none. repeat split. exact E.
    + rewrite poll_accept_error by exact E. repeat split. exact E.
  - unfold poll_event. rewrite E. repeat split. exact E.
Qed.

Lemma poll_channel_fields fd rr s :
  let s' := poll_event (channel_readable fd rr) s in
  accepting s' = accepting s /\ syscalls s' = syscalls s /\
  the_milter_class s' = the_milter_class s /\ the_context s' = the_context s.
Proof.
  cbn zeta. destruct (channels s !! fd) as [c|] eqn:E.
  - rewrite (poll_channel _ _ _ _ E). repeat split.
  - rewrite (poll_channel_gone _ _ _ E). repeat split.
Qed.

Lemma poll_event_fields ev s :
  let s' := poll_event ev s in
  accepting s' = accepting s /\ syscalls s' = syscalls s /\
  the_milter_class s' = the_milter_class s /\ the_context s' = the_context s.
Proof.
  destruct ev; [apply poll_listener_fields|apply poll_channel_fields].
Qed.

Lemma poll_event_framed ev s :
  channels_framed s -> channels_framed (poll_event ev s).
Proof.
  intros H. destruct ev as [a|fd rr].
  - destruct (accepting s) eqn:E; [|unfold poll_event; rewrite E; exact H].
    destruct a as [fd peer| |errno].
    + rewrite poll_accepted by exact E. intros fd' c.
      cbn [set_channels channels note].
      destruct (decide (fd' = fd)) as [->|Hne].
      * rewrite lookup_insert_eq. intros [= <-]. split; [reflexivity|].
        apply ReactorRuns.framing_init, AsyncFacts.awaiting_length_init.
      * rewrite lookup_insert_ne by congruence. apply H.
    + rewrite poll_accept_none. exact H.
    + rewrite poll_accept_error by exact E. exact H.
  - destruct (channels s !! fd) as [c|] eqn:E.
    + rewrite (poll_channel _ _ _ _ E). cbn zeta. intros fd' c'.
      cbn [note set_channels channels].
      destruct (H fd c E) as [Hc Hf].
      destruct (AsyncConnectionHandler.connected
                  (st (AsyncConnectionHandler.read rr c))) eqn:Ec.
      * destruct (decide (fd' = fd)) as [->|Hne].
        -- rewrite lookup_insert_eq. intros [= <-]. split; [exact Ec|].
           apply ReactorRuns.read_framed; assumption.
        -- rewrite lookup_insert_ne by congruence. apply H.
      * destruct (decide (fd' = fd)) as [->|Hne].
        -- rewrite lookup_delete_eq. discriminate.
        -- rewrite lookup_delete_ne by congruence. apply H.
    + rewrite (poll_channel_gone _ _ _ E). exact H.
Qed.

Lemma loop_invariant evs : forall s,
  channels_framed s ->
  let s' := loop evs s in
  accepting s' = accepting s /\ syscalls s' = syscalls s /\
  the_milter_class s' = the_milter_class s /\ the_context s' = the_context s /\
  channels_framed s'.
Proof.
  induction evs as [|ev evs IH]; intros s H; cbn zeta.
  - do 4 (split; [reflexivity|]). exact H.
  - change (loop (ev :: evs) s) with (loop evs (poll_event ev s)).
    destruct (IH (poll_event ev s) (poll_event_framed ev s H)) as (A & B & C & D & E).
    destruct (poll_event_fields ev s) as (A' & B' & C' & D').
    cbn zeta in *. do 4 (split; [congruence|]). exact E.
Qed.

Lemma init_framed target mc backlog ctx :
  channels_framed (__init__ target mc backlog ctx).
Proof.
  intros fd c. unfold __init__. destruct target; cbn [channels];
    rewrite lookup_empty; discriminate.
Qed.


Lemma loop_from_init target mc backlog ctx evs :
  let s0 := __init__ target mc backlog ctx in
  accepting (loop evs s0) = true /\ syscalls (loop evs s0) = syscalls s0 /\
  channels_framed (loop evs s0).
Proof.
  cbn zeta.
  destruct (loop_invariant evs _ (init_framed target mc backlog ctx))
    as (A & B & _ & _ & E).
  split; [|split; [exact B|exact E]].
  rewrite A. unfold __init__. destruct target; reflexivity.
Qed.

End S.
End ReactorRunsServer.

(** ** Further properties of the two servers *)

Lemma steady_keeps_going : @AsyncConnectionHandler.keeps_going steady_milter.
Proof. intros d data. exists (PyBytes ["c"%byte]). split; reflexivity. Qed.

Lemma frames_self_delimiting p1 r1 p2 r2 :
  len p1 <= 4294967295 -> len p2 <= 4294967295 ->
  encode_frame p1 ++ r1 = encode_frame p2 ++ r2 -> p1 = p2 /\ r1 = r2.
Proof.
  intros H1 H2 E.
  destruct (encode_frame_eq p1 H1) as (h1 & _ & L1 & U1 & E1).
  destruct (encode_frame_eq p2 H2) as (h2 & _ & L2 & U2 & E2).
  rewrite E1, E2, <- !app_assoc in E.
  apply app_inj_1 in E as [Eh E]; [|congruence].
  subst h2. rewrite U1 in U2. injection U2 as Hl.
  apply app_inj_1 in E; [exact E|]. unfold len in Hl. lia.
Qed.



(** X2. What [__send_response] writes, the reactor decodes. The bytes
    either variant of [__send_response] puts on the wire for a payload of 1
    to 2^32-1 bytes, delivered in any non-empty reads to a reactor channel
    that waits for a length header, are handed to [Dispatch] as exactly
    that payload, once. *)
Theorem sent_frame_is_received {base : ppymilterbase}
    (p : bytes) (ds : list bytes)
    (sender : AsyncConnectionHandler.ConnectionHandler)
    (tsender : ThreadedConnectionHandler.ConnectionHandler)
    (c : AsyncConnectionHandler.ConnectionHandler) :
  frame_payload p ->
  AsyncConnectionHandler.awaiting_length c -> AsyncConnectionHandler.connected c = true ->
  Forall (fun d => d <> []) ds ->
  concat ds = written (tr (AsyncConnectionHandler.__send_response (PyBytes p) sender)) \/
  (sends_succeed tsender /\
   concat ds = written (tr (ThreadedConnectionHandler.__send_response (PyBytes p) tsender))) ->
  dispatched (tr (AsyncConnectionHandler.serve
                    (map AsyncConnectionHandler.recv_data ds) c)) = [p].
Proof.
  intros Hp Ha Hc Hds Hcat.
  assert (Hw : concat ds = encode_frame p).
  { destruct Hcat as [E|[Hs E]]; rewrite E.
    - apply (AsyncFacts.send_response_payload sender p Hp).
    - destruct (ThreadedRuns.send_response_succeeds (PyBytes p) tsender Hs)
        as (h' & -> & _). cbn [tr].
      apply (AsyncFacts.sent_payload p Hp). }
  destruct Hp as [Hne Hl].
  apply AsyncFacts.async_frame_round_trip; assumption.
Qed.

Lemma sent_frame_is_received_witness :
  let p := ["O"%byte; "K"%byte] in
  let h := @ThreadedConnectionHandler.setup sample_milter 1%nat (sample_socket []) tt None in
  let ds := [[x00]; [x00; x00; x02; "O"%byte]; ["K"%byte]] in
  (frame_payload p /\
   AsyncConnectionHandler.awaiting_length sample_channel /\
   AsyncConnectionHandler.connected sample_channel = true /\
   Forall (fun d => d <> []) ds /\
   sends_succeed h /\
   concat ds = written (tr (ThreadedConnectionHandler.__send_response (PyBytes p) h))) /\
  dispatched (tr (AsyncConnectionHandler.serve
                    (map AsyncConnectionHandler.recv_data ds) sample_channel)) = [p].
Proof.
  cbv zeta.
  assert (Hp : frame_payload ["O"%byte; "K"%byte]).
  { split; [discriminate|vm_compute; discriminate]. }
  assert (Ha : AsyncConnectionHandler.awaiting_length sample_channel)
    by (repeat split).
  assert (Hds : Forall (fun d : bytes => d <> [])
                  [[x00]; [x00; x00; x02; "O"%byte]; ["K"%byte]]).
  { repeat constructor; discriminate. }
  assert (Hs : sends_succeed
                 (@ThreadedConnectionHandler.setup sample_milter 1%nat
                    (sample_socket []) tt None)) by constructor.
  split; [split; [exact Hp|split; [exact Ha|split; [reflexivity|split;
            [exact Hds|split; [exact Hs|reflexivity]]]]]|].
  exact (@sent_frame_is_received sample_milter _ _ sample_channel _ sample_channel
           Hp Ha eq_refl Hds (or_intror (conj Hs eq_refl))).
Defined.



(** X4. A length header of zero silences the channel. Once a waiting
    reactor channel has read the header 00 00 00 00, nothing that follows
    is ever dispatched, answered or logged, and the channel is not closed:
    [set_terminator(0)] puts asynchat into collecting everything, so every
    later byte is appended to [__input], however the reads cut the
    stream. *)
Theorem zero_length_header_silences_the_channel {base : ppymilterbase}
    (ds : list bytes) (more : bytes) (c : AsyncConnectionHandler.ConnectionHandler) :
  AsyncConnectionHandler.awaiting_length c -> AsyncConnectionHandler.connected c = true ->
  Forall (fun d => d <> []) ds -> concat ds = [x00; x00; x00; x00] ++ more ->
  let r := AsyncConnectionHandler.serve (map AsyncConnectionHandler.recv_data ds) c in
  out r = Ok tt /\ AsyncConnectionHandler.observable (tr r) = [] /\
  AsyncConnectionHandler.connected (st r) = true /\
  AsyncConnectionHandler.terminator (st r) = 0 /\
  concat (AsyncConnectionHandler.input (st r)) = more.
Proof. apply ReactorRuns.zero_header_chunks. Qed.

Lemma zero_length_header_silences_the_channel_witness :
  let ds := [[x00; x00]; [x00; x00; x00; x00; x00; x01]; ["A"%byte]] in
  let more := [x00; x00; x00; x01; "A"%byte] in
  (AsyncConnectionHandler.awaiting_length sample_channel /\
   AsyncConnectionHandler.connected sample_channel = true /\
   Forall (fun d => d <> []) ds /\ concat ds = [x00; x00; x00; x00] ++ more) /\
  AsyncConnectionHandler.observable
    (tr (AsyncConnectionHandler.serve (map AsyncConnectionHandler.recv_data ds)
           sample_channel)) = [] /\
  concat (AsyncConnectionHandler.input
            (st (AsyncConnectionHandler.serve (map AsyncConnectionHandler.recv_data ds)
                   sample_channel))) = more.
Proof.
  cbv zeta.
  assert (Ha : AsyncConnectionHandler.awaiting_length sample_channel) by (repeat split).
  assert (Hds : Forall (fun d : bytes => d <> [])
                  [[x00; x00]; [x00; x00; x00; x00; x00; x01]; ["A"%byte]]).
  { repeat constructor; discriminate. }
  split; [split; [exact Ha|split; [reflexivity|split; [exact Hds|reflexivity]]]|].
  destruct (@zero_length_header_silences_the_channel sample_milter _
              [x00; x00; x00; x01; "A"%byte] sample_channel Ha eq_refl Hds eq_refl)
    as (_ & Ht & _ & _ & Hi).
  split; [exact Ht|exact Hi].
Defined.





(** X7. One turn of the threaded loop takes one frame off the socket.
    When the first chunk that holds any byte holds the whole length header
    and the chunks to come begin with a frame (its payload of 0 to 2^32-1
    bytes cut into any pieces), a turn of [handle] reads the header with
    one [recv], gathers the payload piece by piece, logs it and hands
    exactly that payload to the dispatching step; what follows the frame
    is left on the socket for the next turn. *)
Theorem threaded_turn_takes_one_frame {base : ppymilterbase}
    (fuel : nat) (ds : list bytes) (p more : bytes)
    (h : ThreadedConnectionHandler.ConnectionHandler) :
  ThreadedConnectionHandler.incoming (ThreadedConnectionHandler.request h) =
    map ThreadedConnectionHandler.chunk ds ->
  header_ready ds = true -> len p <= 4294967295 ->
  concat ds = encode_frame p ++ more -> (length ds < fuel)%nat ->
  exists pieces h1,
    concat pieces = p /\
    ThreadedConnectionHandler.handle_turn fuel h =
      after (EvRecv (take 4 (concat ds)) :: map EvRecv pieces ++ [EvLog DEBUG (MsgIn p)])
        (ThreadedConnectionHandler.respond p h1) /\
    ThreadedConnectionHandler.incoming (ThreadedConnectionHandler.request h1) =
      map ThreadedConnectionHandler.chunk (skip (len p) (skip MILTER_LEN_BYTES ds)) /\
    same_but_incoming h h1 /\
    concat (skip (len p) (skip MILTER_LEN_BYTES ds)) = more.
Proof. apply ThreadedRuns.handle_turn_chunks. Qed.

Lemma threaded_turn_takes_one_frame_witness :
  let ds := [[x00; x00; x00; x03; "A"%byte]; ["B"%byte]; ["C"%byte; x00; x00]] in
  let h := @ThreadedConnectionHandler.setup sample_milter 1%nat (sample_socket ds) tt None in
  let p := ["A"%byte; "B"%byte; "C"%byte] in
  (ThreadedConnectionHandler.incoming (ThreadedConnectionHandler.request h) =
     map ThreadedConnectionHandler.chunk ds /\
   header_ready ds = true /\ concat ds = encode_frame p ++ [x00; x00] /\
   (length ds < 4)%nat) /\
  exists pieces h1,
    concat pieces = p /\
    ThreadedConnectionHandler.handle_turn 4 h =
      after (EvRecv (take 4 (concat ds)) :: map EvRecv pieces ++ [EvLog DEBUG (MsgIn p)])
        (ThreadedConnectionHandler.respond p h1) /\
    ThreadedConnectionHandler.incoming (ThreadedConnectionHandler.request h1) =
      map ThreadedConnectionHandler.chunk (skip (len p) (skip MILTER_LEN_BYTES ds)) /\
    same_but_incoming h h1 /\
    concat (skip (len p) (skip MILTER_LEN_BYTES ds)) = [x00; x00].
Proof.
  cbv zeta.
  assert (Hl : len ["A"%byte; "B"%byte; "C"%byte] <= 4294967295)
    by (vm_compute; discriminate).
  assert (Hf : (length [[x00; x00; x00; x03; "A"%byte]; ["B"%byte];
                        ["C"%byte; x00; x00]] < 4)%nat) by (cbn; lia).
  split; [split; [reflexivity|split; [reflexivity|split; [reflexivity|exact Hf]]]|].
  exact (@threaded_turn_takes_one_frame sample_milter 4%nat
           [[x00; x00; x00; x03; "A"%byte]; ["B"%byte]; ["C"%byte; x00; x00]]
           ["A"%byte; "B"%byte; "C"%byte] [x00; x00]
           (@ThreadedConnectionHandler.setup sample_milter 1%nat
              (sample_socket [[x00; x00; x00; x03; "A"%byte]; ["B"%byte];
                              ["C"%byte; x00; x00]]) tt None)
           eq_refl eq_refl Hl eq_refl Hf).
Defined.

(** X8. A frame cut short makes the thread spin. When the peer closes
    after the whole length header but before the last byte of the payload,
    [recv] returns the empty string from then on, [read] stops growing and
    the [while read < packetlen] loop of [handle] never ends: whatever the
    number of steps allowed, the thread has not returned, and it has
    dispatched, written and logged nothing and has not closed the
    socket. *)
Theorem truncated_frame_spins_forever {base : ppymilterbase}
    (ds : list bytes) (p rest : bytes)
    (h : ThreadedConnectionHandler.ConnectionHandler) :
  ThreadedConnectionHandler.incoming (ThreadedConnectionHandler.request h) =
    map ThreadedConnectionHandler.chunk ds ->
  header_ready ds = true -> len p <= 4294967295 ->
  rest <> [] -> concat ds ++ rest = encode_frame p ->
  forall fuel,
    out (ThreadedConnectionHandler.process_request_thread fuel h) = OutOfFuel /\
    AsyncConnectionHandler.observable
      (tr (ThreadedConnectionHandler.process_request_thread fuel h)) = [].
Proof.
  intros Hin Hr Hl Hrest Hcat fuel.
  destruct (ThreadedRuns.handle_loop_starves fuel ds p rest h Hin Hr Hl Hrest Hcat)
    as [Ho Ht].
  rewrite (ThreadedRuns.thread_starves fuel h Ho). split; assumption.
Qed.

Lemma truncated_frame_spins_forever_witness :
  let ds := [[x00; x00; x00; x03; "A"%byte]; ["B"%byte]] in
  let h := @ThreadedConnectionHandler.setup sample_milter 1%nat (sample_socket ds) tt None in
  (ThreadedConnectionHandler.incoming (ThreadedConnectionHandler.request h) =
     map ThreadedConnectionHandler.chunk ds /\
   header_ready ds = true /\
   concat ds ++ ["C"%byte] = encode_frame ["A"%byte; "B"%byte; "C"%byte]) /\
  forall fuel,
    out (ThreadedConnectionHandler.process_request_thread fuel h) = OutOfFuel /\
    AsyncConnectionHandler.observable
      (tr (ThreadedConnectionHandler.process_request_thread fuel h)) = [].
Proof.
  cbv zeta.
  assert (Hl : len ["A"%byte; "B"%byte; "C"%byte] <= 4294967295)
    by (vm_compute; discriminate).
  assert (Hrest : ["C"%byte] <> []) by discriminate.
  split; [split; [reflexivity|split; reflexivity]|].
  exact (@truncated_frame_spins_forever sample_milter
           [[x00; x00; x00; x03; "A"%byte]; ["B"%byte]]
           ["A"%byte; "B"%byte; "C"%byte] ["C"%byte]
           (@ThreadedConnectionHandler.setup sample_milter 1%nat
              (sample_socket [[x00; x00; x00; x03; "A"%byte]; ["B"%byte]]) tt None)
           eq_refl eq_refl Hl Hrest eq_refl).
Defined.

(** X9. Frames, then the peer closes, on the threaded server. On a
    dispatcher that does not raise and answers what can be sent, when no
    send fails and no length header is cut by the boundary between two
    chunks, the thread logs, dispatches and answers the payloads (of 0 to
    2^32-1 bytes) one by one and in order, each on the dispatcher state
    the previous one left. When the peer then closes, [recv] returns the
    empty string, [struct.unpack] raises, and the thread ends the way it
    ends on a failure: the [struct.error] is logged at error level under
    the handler's identity and the socket is closed. *)
Theorem threaded_frames_then_close {base : ppymilterbase}
    (ps ds : list bytes) (h : ThreadedConnectionHandler.ConnectionHandler) (fuel : nat) :
  AsyncConnectionHandler.keeps_going ->
  ThreadedConnectionHandler.incoming (ThreadedConnectionHandler.request h) =
    map ThreadedConnectionHandler.chunk ds ->
  sends_succeed h ->
  Forall (fun p => len p <= 4294967295) ps ->
  concat ds = concat (map encode_frame ps) ->
  headers_whole ps ds = true ->
  (length ps + length ds < fuel)%nat ->
  let r := ThreadedConnectionHandler.process_request_thread fuel h in
  out r = Ok tt /\
  AsyncConnectionHandler.observable (tr r) =
    replies (ThreadedConnectionHandler.milter_dispatcher h) ps ++
    [EvLog ERROR (MsgUncaptured (ThreadedConnectionHandler.self_id h) struct_error);
     EvClose] /\
  ThreadedConnectionHandler.milter_dispatcher (st r) =
    dispatcher_after (ThreadedConnectionHandler.milter_dispatcher h) ps.
Proof.
  intros Hk Hin Hs Hall Hcat Hw Hf. cbn zeta.
  destruct (ThreadedRuns.handle_loop_frames ps ds h fuel Hk Hin Hs Hall Hcat Hw Hf)
    as (h' & t & E & Ht & Hid & Hd).
  rewrite (ThreadedRuns.thread_after_failure fuel h h' t struct_error E).
  cbn [out st tr]. split; [reflexivity|]. split; [|exact Hd].
  rewrite AsyncFacts.observable_app, Ht, Hid. reflexivity.
Qed.

Lemma threaded_frames_then_close_witness :
  let ps := [["A"%byte]; []; ["B"%byte; "C"%byte]] in
  let ds := [[x00; x00; x00; x01; "A"%byte; x00; x00; x00; x00];
             [x00; x00; x00; x02]; ["B"%byte]; ["C"%byte]] in
  let h := @ThreadedConnectionHandler.setup steady_milter 1%nat
             (ThreadedConnectionHandler.mkSocket
                (map ThreadedConnectionHandler.chunk ds) [None; None]) tt None in
  (ThreadedConnectionHandler.incoming (ThreadedConnectionHandler.request h) =
     map ThreadedConnectionHandler.chunk ds /\
   sends_succeed h /\ Forall (fun p => len p <= 4294967295) ps /\
   concat ds = concat (map encode_frame ps) /\ headers_whole ps ds = true /\
   (length ps + length ds < 8)%nat) /\
  out (ThreadedConnectionHandler.process_request_thread 8 h) = Ok tt /\
  dispatched
    (AsyncConnectionHandler.observable
       (tr (ThreadedConnectionHandler.process_request_thread 8 h))) = ps /\
  ThreadedConnectionHandler.milter_dispatcher
    (st (ThreadedConnectionHandler.process_request_thread 8 h)) = 3%nat.
Proof.
  cbv zeta.
  assert (Hs : sends_succeed
                 (@ThreadedConnectionHandler.setup steady_milter 1%nat
                    (ThreadedConnectionHandler.mkSocket
                       (map ThreadedConnectionHandler.chunk
                          [[x00; x00; x00; x01; "A"%byte; x00; x00; x00; x00];
                           [x00; x00; x00; x02]; ["B"%byte]; ["C"%byte]])
                       [None; None]) tt None)).
  { repeat constructor. }
  assert (Hall : Forall (fun p : bytes => len p <= 4294967295)
                   [["A"%byte]; []; ["B"%byte; "C"%byte]]).
  { repeat constructor; vm_compute; discriminate. }
  assert (Hf : (length [["A"%byte]; []; ["B"%byte; "C"%byte]] +
                length [[x00; x00; x00; x01; "A"%byte; x00; x00; x00; x00];
                        [x00; x00; x00; x02]; ["B"%byte]; ["C"%byte]] < 8)%nat)
    by (cbn; lia).
  split; [split; [reflexivity|split; [exact Hs|split; [exact Hall|split;
            [reflexivity|split; [reflexivity|exact Hf]]]]]|].
  destruct (@threaded_frames_then_close steady_milter
              [["A"%byte]; []; ["B"%byte; "C"%byte]]
              [[x00; x00; x00; x01; "A"%byte; x00; x00; x00; x00];
               [x00; x00; x00; x02]; ["B"%byte]; ["C"%byte]]
              (@ThreadedConnectionHandler.setup steady_milter 1%nat
                 (ThreadedConnectionHandler.mkSocket
                    (map ThreadedConnectionHandler.chunk
                       [[x00; x00; x00; x01; "A"%byte; x00; x00; x00; x00];
                        [x00; x00; x00; x02]; ["B"%byte]; ["C"%byte]])
                    [None; None]) tt None)
              8%nat steady_keeps_going eq_refl Hs Hall eq_refl eq_refl Hf)
    as (Ho & Ht & Hd).
  split; [exact Ho|]. split; [rewrite Ht; reflexivity|rewrite Hd; reflexivity].
Defined.



(** X11. The reactor stays sound. From a freshly constructed
    [AsyncPpyMilterServer], after any sequence of readiness events
    (connections arriving, [accept] failing, data of any content, read
    errors, dispatchers failing or closing), the listener is still
    accepting on the socket it was given at construction, and every channel
    in the socket map is connected and is either inside a payload or holds
    the 0 to 3 bytes of a length header that have arrived. *)
Theorem reactor_stays_sound {base : ppymilterbase}
    (target : AsyncPpyMilterServer.sock_info_or_port) (mc : milter_class)
    (backlog : option Z) (ctx : option context)
    (evs : list AsyncPpyMilterServer.readiness) :
  let s0 := AsyncPpyMilterServer.__init__ target mc backlog ctx in
  let s := AsyncPpyMilterServer.loop evs s0 in
  AsyncPpyMilterServer.accepting s = true /\
  AsyncPpyMilterServer.syscalls s = AsyncPpyMilterServer.syscalls s0 /\
  channels_framed s.
Proof. apply ReactorRunsServer.loop_from_init. Qed.

(** X12. What [handle_accept] does with a connection. While the listener
    is accepting: when [accept] gives [None] nothing changes at all; when
    it gives a connection, the socket map gets one handler under the new
    descriptor (built from the server's milter class and context, waiting
    for a length header), every other channel is as it was, and nothing is
    logged. *)
Theorem accept_adds_one_channel {base : ppymilterbase}
    (s : AsyncPpyMilterServer.server) (fd : nat) (peer : ident) :
  AsyncPpyMilterServer.accepting s = true ->
  AsyncPpyMilterServer.poll_event
    (AsyncPpyMilterServer.listener_readable AsyncPpyMilterServer.accept_none) s = s /\
  (let s' := AsyncPpyMilterServer.poll_event
               (AsyncPpyMilterServer.listener_readable
                  (AsyncPpyMilterServer.accepted fd peer)) s in
   AsyncPpyMilterServer.channels s' =
     <[fd := AsyncConnectionHandler.__init__ peer
               (AsyncPpyMilterServer.the_milter_class s)
               (AsyncPpyMilterServer.the_context s)]>
       (AsyncPpyMilterServer.channels s) /\
   (forall fd', fd' <> fd ->
      AsyncPpyMilterServer.channels s' !! fd' = AsyncPpyMilterServer.channels s !! fd') /\
   AsyncPpyMilterServer.journal s' = AsyncPpyMilterServer.journal s /\
   AsyncPpyMilterServer.accepting s' = true).
Proof.
  intros H. split; [apply ReactorRunsServer.poll_accept_none|]. cbn zeta.
  rewrite ReactorFacts.poll_accepted by exact H.
  cbn [AsyncPpyMilterServer.set_channels AsyncPpyMilterServer.note
       AsyncPpyMilterServer.channels AsyncPpyMilterServer.journal
       AsyncPpyMilterServer.accepting map].
  split; [reflexivity|]. split; [|split; [apply app_nil_r|exact H]].
  intros fd' Hne. apply lookup_insert_ne. congruence.
Qed.

Lemma accept_adds_one_channel_witness :
  AsyncPpyMilterServer.accepting sample_server = true /\
  AsyncPpyMilterServer.channels
    (AsyncPpyMilterServer.poll_event
       (AsyncPpyMilterServer.listener_readable (AsyncPpyMilterServer.accepted 3%nat 7%nat))
       sample_server) = <[3%nat := sample_channel]> ∅.
Proof.
  split; [reflexivity|].
  exact (proj1 (proj2 (@accept_adds_one_channel sample_milter sample_server 3%nat 7%nat
                         eq_refl))).
Defined.

(** X13. Running the module. Started with no command-line argument, or
    with one that [int] rejects, the program listens on TCP port 9999 of
    every interface with address reuse and a backlog of 1024; started with
    a number, it binds that port. Whatever events follow, the listener
    keeps accepting. *)
Theorem main_listens_on_the_port {base : ppymilterbase}
    (PpyMilter : milter_class) (int : string -> option Z)
    (argv : list string) (evs : list AsyncPpyMilterServer.readiness) :
  AsyncPpyMilterServer.syscalls (Main.main PpyMilter int argv evs) =
    [sys_socket AF_INET SOCK_STREAM; sys_setsockopt_reuseaddr;
     sys_bind (host_port "" (Main.port int argv)); sys_listen 1024] /\
  AsyncPpyMilterServer.accepting (Main.main PpyMilter int argv evs) = true /\
  ((length argv < 2)%nat -> Main.port int argv = 9999) /\
  (forall prog a rest, int a = None -> Main.port int (prog :: a :: rest) = 9999) /\
  (forall prog a rest n, int a = Some n -> Main.port int (prog :: a :: rest) = n).
Proof.
  unfold Main.main.
  destruct (ReactorRunsServer.loop_from_init
              (AsyncPpyMilterServer.port_number (Main.port int argv)) PpyMilter None None evs)
    as (A & B & _).
  split; [exact B|]. split; [exact A|]. split; [|split].
  - intros H. destruct argv as [|x [|y argv]]; try reflexivity. cbn in H. lia.
  - intros prog a rest H. cbn. rewrite H. reflexivity.
  - intros prog a rest n H. cbn. rewrite H. reflexivity.
Qed.

Lemma main_listens_on_the_port_witness :
  let int := fun a : string => if String.eqb a "8890" then Some 8890 else None in
  AsyncPpyMilterServer.syscalls
    (@Main.main sample_milter tt int ["ppymilterserver.py"%string; "milter"%string] []) =
    [sys_socket AF_INET SOCK_STREAM; sys_setsockopt_reuseaddr;
     sys_bind (host_port "" 9999); sys_listen 1024] /\
  AsyncPpyMilterServer.syscalls
    (@Main.main sample_milter tt int ["ppymilterserver.py"%string; "8890"%string] []) =
    [sys_socket AF_INET SOCK_STREAM; sys_setsockopt_reuseaddr;
     sys_bind (host_port "" 8890); sys_listen 1024].
Proof.
  cbv zeta. split.
  - exact (proj1 (@main_listens_on_the_port sample_milter tt
                    (fun a : string => if String.eqb a "8890" then Some 8890 else None)
                    ["ppymilterserver.py"%string; "milter"%string] [])).
  - exact (proj1 (@main_listens_on_the_port sample_milter tt
                    (fun a : string => if String.eqb a "8890" then Some 8890 else None)
                    ["ppymilterserver.py"%string; "8890"%string] [])).
Defined.

(** X14. Frames delimit themselves. If what [__send_response] writes for
    one payload, followed by any bytes, equals what it writes for another
    payload followed by any bytes, the payloads are equal and so are the
    bytes that follow: a stream of responses can be cut into its frames in
    one way only. *)
Theorem written_frames_delimit_themselves {base : ppymilterbase}
    (c1 c2 : AsyncConnectionHandler.ConnectionHandler) (p1 p2 r1 r2 : bytes) :
  frame_payload p1 -> frame_payload p2 ->
  written (tr (AsyncConnectionHandler.__send_response (PyBytes p1) c1)) ++ r1 =
  written (tr (AsyncConnectionHandler.__send_response (PyBytes p2) c2)) ++ r2 ->
  p1 = p2 /\ r1 = r2.
Proof.
  intros H1 H2.
  destruct (AsyncFacts.send_response_payload c1 p1 H1) as (_ & _ & ->).
  destruct (AsyncFacts.send_response_payload c2 p2 H2) as (_ & _ & ->).
  apply frames_self_delimiting; [apply H1|apply H2].
Qed.

Lemma written_frames_delimit_themselves_witness :
  let p := ["O"%byte; "K"%byte] in
  (frame_payload p /\
   written (tr (AsyncConnectionHandler.__send_response (PyBytes p) sample_channel)) ++
     ["x"%byte] =
   written (tr (AsyncConnectionHandler.__send_response (PyBytes p) sample_channel)) ++
     ["x"%byte]) /\
  (p = p /\ ["x"%byte] = ["x"%byte]).
Proof.
  cbv zeta.
  assert (Hp : frame_payload ["O"%byte; "K"%byte]).
  { split; [discriminate|vm_compute; discriminate]. }
  split; [split; [exact Hp|reflexivity]|].
  exact (@written_frames_delimit_themselves sample_milter sample_channel sample_channel
           ["O"%byte; "K"%byte] ["O"%byte; "K"%byte] ["x"%byte] ["x"%byte] Hp Hp eq_refl).
Defined.

(** X15. A length header that comes short ends the thread. When the
    [recv(4)] at the start of a turn of [handle] returns 1 to 3 bytes,
    [struct.unpack] raises, and whatever is still to arrive is never read:
    nothing is dispatched or written, the [struct.error] is logged at error
    level under the handler's identity, the socket is closed and the thread
    returns. *)
Theorem short_header_read_ends_the_thread {base : ppymilterbase}
    (fuel : nat) (d : bytes) (q : list ThreadedConnectionHandler.arrival)
    (h : ThreadedConnectionHandler.ConnectionHandler) :
  ThreadedConnectionHandler.incoming (ThreadedConnectionHandler.request h) =
    ThreadedConnectionHandler.chunk d :: q ->
  d <> [] -> len d < MILTER_LEN_BYTES ->
  ThreadedConnectionHandler.process_request_thread (S fuel) h =
    mkRes (Ok tt) (ThreadedConnectionHandler.set_incoming q h)
      [EvRecv d;
       EvLog ERROR (MsgUncaptured (ThreadedConnectionHandler.self_id h) struct_error);
       EvClose].
Proof.
  intros Hin Hd Hl.
  apply (ThreadedRuns.thread_after_failure (S fuel) h
           (ThreadedConnectionHandler.set_incoming q h) [EvRecv d] struct_error).
  rewrite ThreadedRuns.handle_loop_unfold.
  rewrite (bind_raise _ _ _ struct_error)
    by (rewrite (ThreadedRuns.handle_turn_short_header fuel d q h Hin Hd Hl); reflexivity).
  rewrite (ThreadedRuns.handle_turn_short_header fuel d q h Hin Hd Hl). reflexivity.
Qed.

Lemma short_header_read_ends_the_thread_witness :
  let h := @ThreadedConnectionHandler.setup sample_milter 1%nat
             (sample_socket [[x00; x00; x00]; [x01; "A"%byte]]) tt None in
  (ThreadedConnectionHandler.incoming (ThreadedConnectionHandler.request h) =
     ThreadedConnectionHandler.chunk [x00; x00; x00] ::
     [ThreadedConnectionHandler.chunk [x01; "A"%byte]] /\
   (len [x00; x00; x00] <? MILTER_LEN_BYTES) = true) /\
  tr (ThreadedConnectionHandler.process_request_thread 5 h) =
    [EvRecv [x00; x00; x00]; EvLog ERROR (MsgUncaptured 1%nat struct_error); EvClose].
Proof.
  cbv zeta.
  assert (Hd : [x00; x00; x00] <> ([] : bytes)) by discriminate.
  assert (Hl : len [x00; x00; x00] < MILTER_LEN_BYTES) by (vm_compute; reflexivity).
  split; [split; reflexivity|].
  exact (f_equal tr
           (@short_header_read_ends_the_thread sample_milter 4%nat [x00; x00; x00]
              [ThreadedConnectionHandler.chunk [x01; "A"%byte]]
              (@ThreadedConnectionHandler.setup sample_milter 1%nat
                 (sample_socket [[x00; x00; x00]; [x01; "A"%byte]]) tt None)
              eq_refl Hd Hl)).
Defined.
